(** * rofuse: a read-only FUSE protocol engine, embedded in Rocq

    A shallow embedding of the request dispatcher, the per-opcode handlers,
    the response framing and the directory serializers of
    github.com/KarpelesLab/rofuse, followed by the properties of the
    specification stated against that embedding.

    Conventions.
    - Go's fixed-width integers are [Z] values; every conversion that can
      wrap ([uint32(x)], [int32(x)], ...) is written out.
    - A byte slice is a [list byte]; a Go string is the list of its bytes.
    - [int] is the 64-bit [int] of linux/amd64.  Lengths of in-memory
      slices are far below 2^63, so sums of lengths are computed in [Z]
      without wrap-around; only the explicit narrowing conversions wrap.
    - A handler runs in the monad [M]: it threads the server and
      filesystem state, logs the filesystem calls and device writes it
      performs, and may panic (nil dereference, or a slice the runtime
      cannot allocate: whether [make] returns for a length taken from the
      wire is a parameter, the class [Runtime]).
    - A method of the filesystem is a function of its arguments and the
      filesystem's state: the properties are about filesystems whose
      methods return.
    - Outside the handlers (buffer pool, reading of requests, mounting,
      unmounting, cloning of the device descriptor) a function takes what
      the system calls it makes answer as arguments, and returns the
      calls it made along with its result. *)

From Stdlib Require Import ZArith List Lia Bool.
From Stdlib Require Import Strings.Byte.
Import ListNotations.
Open Scope Z_scope.

(** ** Fixed-width integer conversions *)

Definition u16 (z : Z) : Z := z mod 2 ^ 16.
Definition u32 (z : Z) : Z := z mod 2 ^ 32.
Definition u64 (z : Z) : Z := z mod 2 ^ 64.
Definition i32 (z : Z) : Z := (z + 2 ^ 31) mod 2 ^ 32 - 2 ^ 31.
Definition i64 (z : Z) : Z := (z + 2 ^ 63) mod 2 ^ 64 - 2 ^ 63.

(** ** Bytes and little-endian encoding (encoding/binary.LittleEndian) *)

Definition byte_of_Z (z : Z) : byte :=
  match Byte.of_N (Z.to_N (z mod 256)) with
  | Some b => b
  | None => x00
  end.

Definition Z_of_byte (b : byte) : Z := Z.of_N (Byte.to_N b).

(** The [n] low-order bytes of [v], least significant first. *)
Fixpoint le_encode (n : nat) (v : Z) : list byte :=
  match n with
  | O => []
  | S k => byte_of_Z v :: le_encode k (v / 256)
  end.

Fixpoint le_decode (bs : list byte) : Z :=
  match bs with
  | [] => 0
  | b :: r => Z_of_byte b + 256 * le_decode r
  end.

(** [make([]byte, n)] *)
Definition make (n : Z) : list byte := repeat x00 (Z.to_nat n).

(** [data[a:]] and [data[a:b]] *)
Definition slice_from (data : list byte) (a : nat) : list byte := skipn a data.
Definition slice (data : list byte) (a b : nat) : list byte :=
  firstn (b - a) (skipn a data).

(** Overwrite [length bs] bytes of [data] starting at [off].  Every call
    site below writes inside a buffer it has just allocated with the
    matching size, so Go's bounds check never fires there. *)
Definition store (data : list byte) (off : nat) (bs : list byte) : list byte :=
  firstn off data ++ bs ++ skipn (off + length bs) data.

Definition PutUint16 (data : list byte) (off : nat) (v : Z) : list byte :=
  store data off (le_encode 2 v).
Definition PutUint32 (data : list byte) (off : nat) (v : Z) : list byte :=
  store data off (le_encode 4 v).
Definition PutUint64 (data : list byte) (off : nat) (v : Z) : list byte :=
  store data off (le_encode 8 v).

(** [copy(dst[off:], src)]: copies [min(len(dst)-off, len(src))] bytes. *)
Definition copy_at (dst : list byte) (off : nat) (src : list byte) : list byte :=
  store dst off (firstn (length dst - off) src).

(** Read an [n]-byte little-endian field at [off] through a typed pointer
    overlay.  [mem] is the whole backing array, so a field lying past the
    slice length but inside the capacity is read from the spare bytes. *)
Definition load (n : nat) (mem : list byte) (off : nat) : Z :=
  le_decode (firstn n (skipn off mem)).

(** ** Wire protocol constants (package proto) *)

Module proto.

Definition OpLookup : Z := 1.
Definition OpForget : Z := 2.
Definition OpGetattr : Z := 3.
Definition OpSetattr : Z := 4.
Definition OpReadlink : Z := 5.
Definition OpSymlink : Z := 6.
Definition OpMknod : Z := 8.
Definition OpMkdir : Z := 9.
Definition OpUnlink : Z := 10.
Definition OpRmdir : Z := 11.
Definition OpRename : Z := 12.
Definition OpLink : Z := 13.
Definition OpOpen : Z := 14.
Definition OpRead : Z := 15.
Definition OpWrite : Z := 16.
Definition OpStatfs : Z := 17.
Definition OpRelease : Z := 18.
Definition OpFsync : Z := 20.
Definition OpSetxattr : Z := 21.
Definition OpGetxattr : Z := 22.
Definition OpListxattr : Z := 23.
Definition OpRemovexattr : Z := 24.
Definition OpFlush : Z := 25.
Definition OpInit : Z := 26.
Definition OpOpendir : Z := 27.
Definition OpReaddir : Z := 28.
Definition OpReleasedir : Z := 29.
Definition OpFsyncdir : Z := 30.
Definition OpGetlk : Z := 31.
Definition OpSetlk : Z := 32.
Definition OpSetlkw : Z := 33.
Definition OpAccess : Z := 34.
Definition OpCreate : Z := 35.
Definition OpInterrupt : Z := 36.
Definition OpBmap : Z := 37.
Definition OpDestroy : Z := 38.
Definition OpIoctl : Z := 39.
Definition OpPoll : Z := 40.
Definition OpNotifyReply : Z := 41.
Definition OpBatchForget : Z := 42.
Definition OpFallocate : Z := 43.
Definition OpReaddirplus : Z := 44.
Definition OpRename2 : Z := 45.
Definition OpLseek : Z := 46.
Definition OpCopyFileRange : Z := 47.
Definition OpSetupMapping : Z := 48.
Definition OpRemoveMapping : Z := 49.
Definition OpSyncfs : Z := 50.
Definition OpTmpfile : Z := 51.
Definition OpStatx : Z := 52.

Definition InHeaderSize : Z := 40.
Definition OutHeaderSize : Z := 16.
Definition AttrSize : Z := 88.
Definition EntryOutSize : Z := 128.
Definition AttrOutSize : Z := 104.
Definition GetAttrInSize : Z := 16.
Definition OpenInSize : Z := 8.
Definition OpenOutSize : Z := 16.
Definition ReadInSize : Z := 40.
Definition ReleaseInSize : Z := 24.
Definition ForgetInSize : Z := 8.
Definition BatchForgetInSize : Z := 8.
Definition ForgetOneSize : Z := 16.
Definition AccessInSize : Z := 8.
Definition DirentSize : Z := 24.
Definition DirentPlusSize : Z := EntryOutSize + DirentSize.
Definition StatfsOutSize : Z := 64.
Definition InitInSize : Z := 64.
Definition InitOutSize : Z := 64.

Definition FuseKernelVersion : Z := 7.
Definition FuseKernelMinorVersion : Z := 41.
Definition MinSupportedMinor : Z := 26.

Definition DefaultMaxReadahead : Z := 128 * 1024.
Definition DefaultMaxWrite : Z := 128 * 1024.
Definition DefaultMaxBackground : Z := 12.
Definition DefaultTimeGran : Z := 1.
Definition DefaultMaxPages : Z := 32.

Definition CapAsyncRead : Z := Z.shiftl 1 0.
Definition CapExportSupport : Z := Z.shiftl 1 4.
Definition CapAutoInvalData : Z := Z.shiftl 1 12.
Definition CapReaddirplus : Z := Z.shiftl 1 13.
Definition CapReaddirplusAuto : Z := Z.shiftl 1 14.
Definition CapParallelDirops : Z := Z.shiftl 1 18.
Definition CapMaxPages : Z := Z.shiftl 1 22.
Definition CapCacheSymlinks : Z := Z.shiftl 1 23.
Definition CapInitExt : Z := Z.shiftl 1 30.
Definition CapSecurityCtx : Z := Z.shiftl 1 32.
Definition CapHasInode : Z := Z.shiftl 1 33.
Definition CapCreateSuppGroup : Z := Z.shiftl 1 34.
Definition CapExpireOnly : Z := Z.shiftl 1 35.
Definition CapPassthrough : Z := Z.shiftl 1 39.
Definition CapNoExportSupport : Z := Z.shiftl 1 40.
Definition CapSameFiNode : Z := Z.shiftl 1 41.

Definition GetattrFh : Z := Z.shiftl 1 0.

Definition DtFifo : Z := 1.
Definition DtChr : Z := 2.
Definition DtDir : Z := 4.
Definition DtBlk : Z := 6.
Definition DtReg : Z := 8.
Definition DtLnk : Z := 10.
Definition DtSock : Z := 12.

(* octal 0140000, 0120000, 0100000, 0060000, 0040000, 0020000, 0010000 *)
Definition ModeSocket : Z := 49152.
Definition ModeSymlink : Z := 40960.
Definition ModeRegular : Z := 32768.
Definition ModeBlock : Z := 24576.
Definition ModeDir : Z := 16384.
Definition ModeChar : Z := 8192.
Definition ModeFifo : Z := 4096.
(* octal 04000, 02000, 01000 *)
Definition ModeSetuid : Z := 2048.
Definition ModeSetgid : Z := 1024.
Definition ModeSticky : Z := 512.

(** The wire records the handlers build or overlay. *)
Module Attr.
Record t := mk {
  Ino : Z; Size : Z; Blocks : Z;
  Atime : Z; Mtime : Z; Ctime : Z;
  AtimeNsec : Z; MtimeNsec : Z; CtimeNsec : Z;
  Mode : Z; Nlink : Z; Uid : Z; Gid : Z; Rdev : Z; Blksize : Z;
  Flags : Z
}.
End Attr.

Module EntryOut.
Record t := mk {
  NodeID : Z; Generation : Z;
  EntryValid : Z; AttrValid : Z;
  EntryValidNsec : Z; AttrValidNsec : Z;
  Attr : Attr.t
}.
End EntryOut.

Module AttrOut.
Record t := mk { AttrValid : Z; AttrValidNsec : Z; Dummy : Z; Attr : Attr.t }.
End AttrOut.

Module OpenOut.
Record t := mk { Fh : Z; OpenFlags : Z; Padding : Z }.
End OpenOut.

Module InHeader.
Record t := mk {
  Len : Z; Opcode : Z; Unique : Z; NodeID : Z;
  Uid : Z; Gid : Z; Pid : Z; Padding : Z
}.
End InHeader.

Module InitIn.
Record t := mk {
  Major : Z; Minor : Z; MaxReadahead : Z; Flags : Z; Flags2 : Z
}.
End InitIn.

Module InitOut.
Record t := mk {
  Major : Z; Minor : Z; MaxReadahead : Z; Flags : Z;
  MaxBackground : Z; CongestionThreshold : Z;
  MaxWrite : Z; TimeGran : Z;
  MaxPages : Z; MapAlignment : Z;
  Flags2 : Z; MaxStackDepth : Z
}.
(** A struct literal leaves the fields it does not name at zero. *)
Definition zero : t := mk 0 0 0 0 0 0 0 0 0 0 0 0.
End InitOut.

Module GetAttrIn.
Record t := mk { Flags : Z; Dummy : Z; Fh : Z }.
End GetAttrIn.

Module OpenIn.
Record t := mk { Flags : Z; OpenFlags : Z }.
End OpenIn.

Module ReadIn.
Record t := mk {
  Fh : Z; Offset : Z; Size : Z; ReadFlags : Z; LockOwner : Z; Flags : Z
}.
End ReadIn.

Module ReleaseIn.
Record t := mk { Fh : Z; Flags : Z; ReleaseFlags : Z; LockOwner : Z }.
End ReleaseIn.

Module ForgetIn.
Record t := mk { Nlookup : Z }.
End ForgetIn.

Module BatchForgetIn.
Record t := mk { Count : Z; Dummy : Z }.
End BatchForgetIn.

Module ForgetOne.
Record t := mk { NodeID : Z; Nlookup : Z }.
End ForgetOne.

Module AccessIn.
Record t := mk { Mask : Z; Padding : Z }.
End AccessIn.

Module Kstatfs.
Record t := mk {
  Blocks : Z; Bfree : Z; Bavail : Z; Files : Z; Ffree : Z;
  Bsize : Z; Namelen : Z; Frsize : Z
}.
End Kstatfs.

Module StatfsOut.
Record t := mk { St : Kstatfs.t }.
End StatfsOut.

End proto.

(** Linux errno values (package syscall) and file-mode bits (package os). *)
Module syscall.
Definition ENOENT : Z := 2.
Definition EINTR : Z := 4.
Definition EIO : Z := 5.
Definition EBADF : Z := 9.
Definition EACCES : Z := 13.
Definition EEXIST : Z := 17.
Definition EINVAL : Z := 22.
Definition EROFS : Z := 30.
Definition ENOSYS : Z := 38.
Definition EPROTO : Z := 71.
Definition ETIMEDOUT : Z := 110.
End syscall.

Module os.
Definition ModeDir : Z := Z.shiftl 1 31.
Definition ModeSymlink : Z := Z.shiftl 1 27.
Definition ModeDevice : Z := Z.shiftl 1 26.
Definition ModeNamedPipe : Z := Z.shiftl 1 25.
Definition ModeSocket : Z := Z.shiftl 1 24.
Definition ModeSetuid : Z := Z.shiftl 1 23.
Definition ModeSetgid : Z := Z.shiftl 1 22.
Definition ModeCharDevice : Z := Z.shiftl 1 21.
Definition ModeSticky : Z := Z.shiftl 1 20.
Definition ModeIrregular : Z := Z.shiftl 1 19.
Definition ModeType : Z :=
    Z.lor ModeDir (Z.lor ModeSymlink (Z.lor ModeNamedPipe
      (Z.lor ModeSocket (Z.lor ModeDevice (Z.lor ModeCharDevice ModeIrregular))))).
Definition ModePerm : Z := 511. (* octal 0777 *)
(** [mode.Perm()] and [mode.Type()] *)
Definition Perm (mode : Z) : Z := Z.land mode ModePerm.
Definition Type_ (mode : Z) : Z := Z.land mode ModeType.
End os.

(** ** Host-side types (package rofuse) *)

(** [len(x)] as an [int]. *)
Definition len {A : Type} (l : list A) : Z := Z.of_nat (length l).

(** A [time.Time], observed through [Unix()] and [Nanosecond()]. *)
Module Time.
Record t := mk { Unix : Z; Nanosecond : Z }.
End Time.

(** [time.Duration] is an [int64] count of nanoseconds. *)
Module time.
Definition Nanosecond : Z := 1.
Definition Second : Z := 1000000000.
Definition Minute : Z := 60 * Second.
End time.

Module Attr.
Record t := mk {
  Ino : Z; Size : Z; Blocks : Z;
  Atime : Time.t; Mtime : Time.t; Ctime : Time.t;
  Mode : Z; (* os.FileMode *)
  Nlink : Z; Uid : Z; Gid : Z; Rdev : Z; Blksize : Z
}.
End Attr.

Module Entry.
Record t := mk {
  Ino : Z; Generation : Z; Attr : Attr.t;
  AttrTimeout : Z; EntryTimeout : Z (* time.Duration *)
}.
End Entry.

Module DirEntry.
Record t := mk { Ino : Z; Offset : Z; Type_ : Z; Name : list byte }.
End DirEntry.

Module DirEntryPlus.
Record t := mk { Entry : Entry.t; Name : list byte }.
End DirEntryPlus.

Module OpenResponse.
Record t := mk { Handle : Z; Flags : Z }.
End OpenResponse.

Module StatFS.
Record t := mk {
  Blocks : Z; Bfree : Z; Bavail : Z; Files : Z; Ffree : Z;
  Bsize : Z; Namelen : Z; Frsize : Z
}.
End StatFS.

Module ForgetEntry.
Record t := mk { Ino : Z; Nlookup : Z }.
Definition zero : t := mk 0 0.
End ForgetEntry.

Module Config.
Record t := mk {
  ProtoMajor : Z; ProtoMinor : Z; MaxReadahead : Z; MaxWrite : Z; MaxPages : Z
}.
End Config.

Module MountOptions.
Record t := mk {
  Debug : bool;
  MaxReadahead : Z; MaxWrite : Z; MaxBackground : Z;
  DirectMount : bool; AllowOther : bool; DefaultPermissions : bool;
  ReadOnly : bool;
  FSName : list byte; Subtype : list byte
}.
End MountOptions.

(** The per-request context handed to every filesystem call. *)
Module Context.
Record t := mk { Uid : Z; Gid : Z; Pid : Z; Unique : Z }.
End Context.

(** A Go [error] value, classified the way [toErrno] inspects it:
    a (possibly wrapped) [syscall.Errno], one of the sentinel errors it
    tests with [errors.Is], or anything else. *)
Inductive error : Type :=
| Errno (e : Z) (* syscall.Errno, a uintptr *)
| ErrNotExist
| ErrExist
| ErrPermission
| ErrClosed
| ErrInvalid
| EOF
| Canceled
| DeadlineExceeded
| ErrOther.

(** ** Conversions between host and wire types *)

(** [toErrno]: [-int32(errno)] narrows the [uintptr] to 32 bits and
    negates in [int32]. *)
Definition toErrno (err : option error) : Z :=
  match err with
  | None => 0
  | Some (Errno errno) => i32 (- i32 errno)
  | Some ErrNotExist => i32 (- i32 syscall.ENOENT)
  | Some ErrExist => i32 (- i32 syscall.EEXIST)
  | Some ErrPermission => i32 (- i32 syscall.EACCES)
  | Some ErrClosed => i32 (- i32 syscall.EBADF)
  | Some ErrInvalid => i32 (- i32 syscall.EINVAL)
  | Some EOF => 0
  | Some Canceled => i32 (- i32 syscall.EINTR)
  | Some DeadlineExceeded => i32 (- i32 syscall.ETIMEDOUT)
  | Some ErrOther => i32 (- i32 syscall.EIO)
  end.

(** Go's [/] and [%] on signed integers truncate toward zero. *)
Definition durationToTimespec (d : Z) : Z * Z :=
  let sec := u64 (Z.quot d time.Second) in
  let nsec := u32 (Z.quot (Z.rem d time.Second) time.Nanosecond) in
  (sec, nsec).

Definition fileModeToUnix (mode : Z) : Z :=
  let m := u32 (os.Perm mode) in
  let ty := os.Type_ mode in
  let m :=
    if ty =? os.ModeDir then Z.lor m proto.ModeDir
    else if ty =? os.ModeSymlink then Z.lor m proto.ModeSymlink
    else if ty =? os.ModeNamedPipe then Z.lor m proto.ModeFifo
    else if ty =? os.ModeSocket then Z.lor m proto.ModeSocket
    else if ty =? os.ModeDevice then
      if negb (Z.land mode os.ModeCharDevice =? 0)
      then Z.lor m proto.ModeChar
      else Z.lor m proto.ModeBlock
    else Z.lor m proto.ModeRegular in
  let m := if negb (Z.land mode os.ModeSetuid =? 0)
           then Z.lor m proto.ModeSetuid else m in
  let m := if negb (Z.land mode os.ModeSetgid =? 0)
           then Z.lor m proto.ModeSetgid else m in
  let m := if negb (Z.land mode os.ModeSticky =? 0)
           then Z.lor m proto.ModeSticky else m in
  m.

Definition fileModeToType (mode : Z) : Z :=
  let ty := os.Type_ mode in
  if ty =? os.ModeDir then proto.DtDir
  else if ty =? os.ModeSymlink then proto.DtLnk
  else if ty =? os.ModeNamedPipe then proto.DtFifo
  else if ty =? os.ModeSocket then proto.DtSock
  else if ty =? os.ModeDevice then
    if negb (Z.land mode os.ModeCharDevice =? 0)
    then proto.DtChr
    else proto.DtBlk
  else proto.DtReg.

Definition attrToProto (a : Attr.t) : proto.Attr.t :=
  {| proto.Attr.Ino := u64 (Attr.Ino a);
     proto.Attr.Size := Attr.Size a;
     proto.Attr.Blocks := Attr.Blocks a;
     proto.Attr.Atime := u64 (Time.Unix (Attr.Atime a));
     proto.Attr.Mtime := u64 (Time.Unix (Attr.Mtime a));
     proto.Attr.Ctime := u64 (Time.Unix (Attr.Ctime a));
     proto.Attr.AtimeNsec := u32 (Time.Nanosecond (Attr.Atime a));
     proto.Attr.MtimeNsec := u32 (Time.Nanosecond (Attr.Mtime a));
     proto.Attr.CtimeNsec := u32 (Time.Nanosecond (Attr.Ctime a));
     proto.Attr.Mode := fileModeToUnix (Attr.Mode a);
     proto.Attr.Nlink := Attr.Nlink a;
     proto.Attr.Uid := Attr.Uid a;
     proto.Attr.Gid := Attr.Gid a;
     proto.Attr.Rdev := Attr.Rdev a;
     proto.Attr.Blksize := Attr.Blksize a;
     proto.Attr.Flags := 0 |}.

Definition entryToProto (entry : Entry.t) : proto.EntryOut.t :=
  let '(entrySec, entryNsec) := durationToTimespec (Entry.EntryTimeout entry) in
  let '(attrSec, attrNsec) := durationToTimespec (Entry.AttrTimeout entry) in
  {| proto.EntryOut.NodeID := u64 (Entry.Ino entry);
     proto.EntryOut.Generation := Entry.Generation entry;
     proto.EntryOut.EntryValid := entrySec;
     proto.EntryOut.EntryValidNsec := entryNsec;
     proto.EntryOut.AttrValid := attrSec;
     proto.EntryOut.AttrValidNsec := attrNsec;
     proto.EntryOut.Attr := attrToProto (Entry.Attr entry) |}.

(** ** Response serializers *)

Definition initOutBytes (out : proto.InitOut.t) : list byte :=
  let data := make proto.InitOutSize in
  let data := PutUint32 data 0 (proto.InitOut.Major out) in
  let data := PutUint32 data 4 (proto.InitOut.Minor out) in
  let data := PutUint32 data 8 (proto.InitOut.MaxReadahead out) in
  let data := PutUint32 data 12 (proto.InitOut.Flags out) in
  let data := PutUint16 data 16 (proto.InitOut.MaxBackground out) in
  let data := PutUint16 data 18 (proto.InitOut.CongestionThreshold out) in
  let data := PutUint32 data 20 (proto.InitOut.MaxWrite out) in
  let data := PutUint32 data 24 (proto.InitOut.TimeGran out) in
  let data := PutUint16 data 28 (proto.InitOut.MaxPages out) in
  let data := PutUint16 data 30 (proto.InitOut.MapAlignment out) in
  let data := PutUint32 data 32 (proto.InitOut.Flags2 out) in
  let data := PutUint32 data 36 (proto.InitOut.MaxStackDepth out) in
  data.

(** [writeAttr(data[off:], attr)] *)
Definition writeAttr (data : list byte) (off : nat) (attr : proto.Attr.t)
  : list byte :=
  let data := PutUint64 data (off + 0) (proto.Attr.Ino attr) in
  let data := PutUint64 data (off + 8) (proto.Attr.Size attr) in
  let data := PutUint64 data (off + 16) (proto.Attr.Blocks attr) in
  let data := PutUint64 data (off + 24) (proto.Attr.Atime attr) in
  let data := PutUint64 data (off + 32) (proto.Attr.Mtime attr) in
  let data := PutUint64 data (off + 40) (proto.Attr.Ctime attr) in
  let data := PutUint32 data (off + 48) (proto.Attr.AtimeNsec attr) in
  let data := PutUint32 data (off + 52) (proto.Attr.MtimeNsec attr) in
  let data := PutUint32 data (off + 56) (proto.Attr.CtimeNsec attr) in
  let data := PutUint32 data (off + 60) (proto.Attr.Mode attr) in
  let data := PutUint32 data (off + 64) (proto.Attr.Nlink attr) in
  let data := PutUint32 data (off + 68) (proto.Attr.Uid attr) in
  let data := PutUint32 data (off + 72) (proto.Attr.Gid attr) in
  let data := PutUint32 data (off + 76) (proto.Attr.Rdev attr) in
  let data := PutUint32 data (off + 80) (proto.Attr.Blksize attr) in
  let data := PutUint32 data (off + 84) (proto.Attr.Flags attr) in
  data.

Definition entryOutBytes (out : proto.EntryOut.t) : list byte :=
  let data := make proto.EntryOutSize in
  let data := PutUint64 data 0 (proto.EntryOut.NodeID out) in
  let data := PutUint64 data 8 (proto.EntryOut.Generation out) in
  let data := PutUint64 data 16 (proto.EntryOut.EntryValid out) in
  let data := PutUint64 data 24 (proto.EntryOut.AttrValid out) in
  let data := PutUint32 data 32 (proto.EntryOut.EntryValidNsec out) in
  let data := PutUint32 data 36 (proto.EntryOut.AttrValidNsec out) in
  let data := writeAttr data 40 (proto.EntryOut.Attr out) in
  data.

Definition attrOutBytes (out : proto.AttrOut.t) : list byte :=
  let data := make proto.AttrOutSize in
  let data := PutUint64 data 0 (proto.AttrOut.AttrValid out) in
  let data := PutUint32 data 8 (proto.AttrOut.AttrValidNsec out) in
  let data := PutUint32 data 12 (proto.AttrOut.Dummy out) in
  let data := writeAttr data 16 (proto.AttrOut.Attr out) in
  data.

Definition openOutBytes (out : proto.OpenOut.t) : list byte :=
  let data := make proto.OpenOutSize in
  let data := PutUint64 data 0 (proto.OpenOut.Fh out) in
  let data := PutUint32 data 8 (proto.OpenOut.OpenFlags out) in
  let data := PutUint32 data 12 (proto.OpenOut.Padding out) in
  data.

Definition statfsOutBytes (out : proto.StatfsOut.t) : list byte :=
  let st := proto.StatfsOut.St out in
  let data := make proto.StatfsOutSize in
  let data := PutUint64 data 0 (proto.Kstatfs.Blocks st) in
  let data := PutUint64 data 8 (proto.Kstatfs.Bfree st) in
  let data := PutUint64 data 16 (proto.Kstatfs.Bavail st) in
  let data := PutUint64 data 24 (proto.Kstatfs.Files st) in
  let data := PutUint64 data 32 (proto.Kstatfs.Ffree st) in
  let data := PutUint32 data 40 (proto.Kstatfs.Bsize st) in
  let data := PutUint32 data 44 (proto.Kstatfs.Namelen st) in
  let data := PutUint32 data 48 (proto.Kstatfs.Frsize st) in
  data.

(** ** Directory serialization *)

(** One pass of the [for _, entry := range entries] loop of
    [serializeDirents], with [buf] the bytes appended so far. *)
Fixpoint serializeDirents_loop (entries : list DirEntry.t) (maxSize : Z)
  (buf : list byte) : list byte :=
  match entries with
  | [] => buf
  | entry :: rest =>
    let nameLen := len (DirEntry.Name entry) in
    let entrySize := proto.DirentSize + nameLen in
    let paddedSize := Z.ldiff (entrySize + 7) 7 in
    if u32 (len buf + paddedSize) >? maxSize then buf
    else
      let dirent := make paddedSize in
      let dirent := PutUint64 dirent 0 (u64 (DirEntry.Ino entry)) in
      let dirent := PutUint64 dirent 8 (DirEntry.Offset entry) in
      let dirent := PutUint32 dirent 16 (u32 nameLen) in
      let dirent := PutUint32 dirent 20 (DirEntry.Type_ entry) in
      let dirent := copy_at dirent (Z.to_nat proto.DirentSize)
                            (DirEntry.Name entry) in
      serializeDirents_loop rest maxSize (buf ++ dirent)
  end.

Definition serializeDirents (entries : list DirEntry.t) (maxSize : Z)
  : list byte :=
  serializeDirents_loop entries maxSize [].

Fixpoint serializeDirentsPlus_loop (entries : list DirEntryPlus.t)
  (maxSize : Z) (buf : list byte) : list byte :=
  match entries with
  | [] => buf
  | entry :: rest =>
    let nameLen := len (DirEntryPlus.Name entry) in
    let entrySize := proto.DirentPlusSize + nameLen in
    let paddedSize := Z.ldiff (entrySize + 7) 7 in
    if u32 (len buf + paddedSize) >? maxSize then buf
    else
      let entryOut := entryToProto (DirEntryPlus.Entry entry) in
      let entryOutData := entryOutBytes entryOut in
      let direntData := make (paddedSize - proto.EntryOutSize) in
      let direntData :=
        PutUint64 direntData 0 (u64 (Entry.Ino (DirEntryPlus.Entry entry))) in
      let direntData :=
        PutUint64 direntData 8 (Entry.Generation (DirEntryPlus.Entry entry)) in
      let direntData := PutUint32 direntData 16 (u32 nameLen) in
      let direntData :=
        PutUint32 direntData 20
          (fileModeToType (Attr.Mode (Entry.Attr (DirEntryPlus.Entry entry)))) in
      let direntData := copy_at direntData (Z.to_nat proto.DirentSize)
                                (DirEntryPlus.Name entry) in
      serializeDirentsPlus_loop rest maxSize
        ((buf ++ entryOutData) ++ direntData)
  end.

Definition serializeDirentsPlus (entries : list DirEntryPlus.t) (maxSize : Z)
  : list byte :=
  serializeDirentsPlus_loop entries maxSize [].

(** ** Requests and responses *)

(** A request is the slice [buf[:n]] of a pooled buffer: [data] holds the
    [n] bytes read from the device, [spare] the rest of the backing array
    (what is left in it from earlier use).  The pool never hands out a
    buffer shorter than 8192 bytes, so every typed overlay below stays
    inside the backing array. *)
Module request.
Record t := mk { data : list byte; spare : list byte }.
End request.

Definition mem (r : request.t) : list byte :=
  request.data r ++ request.spare r.

(** [req.header]: the [*proto.InHeader] laid over [&data[0]]. *)
Definition header (r : request.t) : proto.InHeader.t :=
  {| proto.InHeader.Len := load 4 (mem r) 0;
     proto.InHeader.Opcode := load 4 (mem r) 4;
     proto.InHeader.Unique := load 8 (mem r) 8;
     proto.InHeader.NodeID := load 8 (mem r) 16;
     proto.InHeader.Uid := load 4 (mem r) 24;
     proto.InHeader.Gid := load 4 (mem r) 28;
     proto.InHeader.Pid := load 4 (mem r) 32;
     proto.InHeader.Padding := load 4 (mem r) 36 |}.

(** [body]: [nil] or a pointer to [data[InHeaderSize]], represented by
    its offset in the backing array. *)
Definition body (r : request.t) : option nat :=
  if len (request.data r) <=? proto.InHeaderSize then None
  else Some (Z.to_nat proto.InHeaderSize).

(** [bodyBytes]; a nil slice is the empty list. *)
Definition bodyBytes (r : request.t) : list byte :=
  if len (request.data r) <=? proto.InHeaderSize then []
  else slice_from (request.data r) (Z.to_nat proto.InHeaderSize).

(** The bytes before the first NUL, or all of them. *)
Fixpoint until_nul (bs : list byte) : list byte :=
  match bs with
  | [] => []
  | b :: r => if Byte.eqb b x00 then [] else b :: until_nul r
  end.

Definition filename (r : request.t) : list byte :=
  until_nul (bodyBytes r).

(** Typed views of the body, the casts of [req.body()] to a pointer to [proto.X]: the cast keeps a
    nil pointer nil. *)
Definition InitIn_at (m : list byte) (p : nat) : proto.InitIn.t :=
  {| proto.InitIn.Major := load 4 m (p + 0);
     proto.InitIn.Minor := load 4 m (p + 4);
     proto.InitIn.MaxReadahead := load 4 m (p + 8);
     proto.InitIn.Flags := load 4 m (p + 12);
     proto.InitIn.Flags2 := load 4 m (p + 16) |}.

Definition ForgetIn_at (m : list byte) (p : nat) : proto.ForgetIn.t :=
  {| proto.ForgetIn.Nlookup := load 8 m (p + 0) |}.

Definition BatchForgetIn_at (m : list byte) (p : nat) : proto.BatchForgetIn.t :=
  {| proto.BatchForgetIn.Count := load 4 m (p + 0);
     proto.BatchForgetIn.Dummy := load 4 m (p + 4) |}.

Definition ForgetOne_at (m : list byte) (p : nat) : proto.ForgetOne.t :=
  {| proto.ForgetOne.NodeID := load 8 m (p + 0);
     proto.ForgetOne.Nlookup := load 8 m (p + 8) |}.

Definition GetAttrIn_at (m : list byte) (p : nat) : proto.GetAttrIn.t :=
  {| proto.GetAttrIn.Flags := load 4 m (p + 0);
     proto.GetAttrIn.Dummy := load 4 m (p + 4);
     proto.GetAttrIn.Fh := load 8 m (p + 8) |}.

Definition OpenIn_at (m : list byte) (p : nat) : proto.OpenIn.t :=
  {| proto.OpenIn.Flags := load 4 m (p + 0);
     proto.OpenIn.OpenFlags := load 4 m (p + 4) |}.

Definition ReadIn_at (m : list byte) (p : nat) : proto.ReadIn.t :=
  {| proto.ReadIn.Fh := load 8 m (p + 0);
     proto.ReadIn.Offset := load 8 m (p + 8);
     proto.ReadIn.Size := load 4 m (p + 16);
     proto.ReadIn.ReadFlags := load 4 m (p + 20);
     proto.ReadIn.LockOwner := load 8 m (p + 24);
     proto.ReadIn.Flags := load 4 m (p + 32) |}.

Definition ReleaseIn_at (m : list byte) (p : nat) : proto.ReleaseIn.t :=
  {| proto.ReleaseIn.Fh := load 8 m (p + 0);
     proto.ReleaseIn.Flags := load 4 m (p + 8);
     proto.ReleaseIn.ReleaseFlags := load 4 m (p + 12);
     proto.ReleaseIn.LockOwner := load 8 m (p + 16) |}.

Definition AccessIn_at (m : list byte) (p : nat) : proto.AccessIn.t :=
  {| proto.AccessIn.Mask := load 4 m (p + 0);
     proto.AccessIn.Padding := load 4 m (p + 4) |}.

Definition cast {T : Type} (view : list byte -> nat -> T) (r : request.t)
  : option T :=
  option_map (view (mem r)) (body r).

(** [newResponse(req, payloadSize).data] *)
Definition newResponse (req : request.t) (payloadSize : Z) : list byte :=
  let size := proto.OutHeaderSize + payloadSize in
  let data := make size in
  let data := PutUint32 data 0 (u32 size) in
  let data := PutUint32 data 4 0 in
  let data := PutUint64 data 8 (proto.InHeader.Unique (header req)) in
  data.

(** [newErrorResponse(req, errno).data], [errno] an [int32] *)
Definition newErrorResponse (req : request.t) (errno : Z) : list byte :=
  let data := make proto.OutHeaderSize in
  let data := PutUint32 data 0 (u32 proto.OutHeaderSize) in
  let data := PutUint32 data 4 (u32 errno) in
  let data := PutUint64 data 8 (proto.InHeader.Unique (header req)) in
  data.

(** The frame [sendResponse] builds for [payload]: a new response whose
    payload area receives a copy of [payload]. *)
Definition response_bytes (req : request.t) (payload : list byte)
  : list byte :=
  let resp := newResponse req (len payload) in
  let resp := if len payload >? 0
              then copy_at resp (Z.to_nat proto.OutHeaderSize) payload
              else resp in
  resp.

(** The frame [sendError] builds for [err]. *)
Definition error_bytes (req : request.t) (err : error) : list byte :=
  let errno := toErrno (Some err) in
  newErrorResponse req errno.

(** The header [newResponse] stamps, as a byte string. *)
Definition success_header (req : request.t) (payloadSize : Z) : list byte :=
  le_encode 4 (16 + payloadSize) ++ le_encode 4 0
  ++ le_encode 8 (proto.InHeader.Unique (header req)).

(** The fields of the [OutHeader] that starts a frame. *)
Definition frame_len (frame : list byte) : Z := load 4 frame 0.
Definition frame_error (frame : list byte) : Z := i32 (load 4 frame 4).
Definition frame_unique (frame : list byte) : Z := load 8 frame 8.
Definition frame_payload (frame : list byte) : list byte :=
  slice_from frame (Z.to_nat proto.OutHeaderSize).

(** [isWriteOp] *)
Definition isWriteOp (opcode : Z) : bool :=
  if opcode =? proto.OpSetattr then true
  else if opcode =? proto.OpSymlink then true
  else if opcode =? proto.OpMknod then true
  else if opcode =? proto.OpMkdir then true
  else if opcode =? proto.OpUnlink then true
  else if opcode =? proto.OpRmdir then true
  else if opcode =? proto.OpRename then true
  else if opcode =? proto.OpLink then true
  else if opcode =? proto.OpWrite then true
  else if opcode =? proto.OpSetxattr then true
  else if opcode =? proto.OpRemovexattr then true
  else if opcode =? proto.OpCreate then true
  else if opcode =? proto.OpRename2 then true
  else if opcode =? proto.OpFallocate then true
  else if opcode =? proto.OpCopyFileRange then true
  else if opcode =? proto.OpTmpfile then true
  else false.

(** The write set as the specification lists it. *)
Definition write_set : list Z :=
  [ proto.OpSetattr; proto.OpSymlink; proto.OpMknod; proto.OpMkdir;
    proto.OpUnlink; proto.OpRmdir; proto.OpRename; proto.OpRename2;
    proto.OpLink; proto.OpWrite; proto.OpSetxattr; proto.OpRemovexattr;
    proto.OpCreate; proto.OpFallocate; proto.OpCopyFileRange;
    proto.OpTmpfile ].

(** ** The filesystem interface and the server *)

(** The [Filesystem] interface.  [St] is whatever state the
    implementation keeps behind its receiver; a method returns its Go
    results together with the next state.  A pointer result may be nil.
    [Init] receives [s.config] by pointer and may update it. *)
Module Filesystem.
Record t (St : Type) := mk {
  Init : Context.t -> Config.t -> St -> Config.t * option error * St;
  Destroy : Context.t -> St -> St;
  Lookup : Context.t -> Z -> list byte -> St ->
           option Entry.t * option error * St;
  GetAttr : Context.t -> Z -> option Z -> St ->
            option Attr.t * option error * St;
  ReadLink : Context.t -> Z -> St -> list byte * option error * St;
  Open : Context.t -> Z -> Z -> St ->
         option OpenResponse.t * option error * St;
  Read : Context.t -> Z -> Z -> Z -> Z -> St ->
         list byte * option error * St;
  Release : Context.t -> Z -> Z -> St -> option error * St;
  OpenDir : Context.t -> Z -> Z -> St ->
            option OpenResponse.t * option error * St;
  ReadDir : Context.t -> Z -> Z -> Z -> Z -> St ->
            list DirEntry.t * option error * St;
  ReadDirPlus : Context.t -> Z -> Z -> Z -> Z -> St ->
                list DirEntryPlus.t * option error * St;
  ReleaseDir : Context.t -> Z -> Z -> St -> option error * St;
  StatFS : Context.t -> Z -> St -> option StatFS.t * option error * St;
  Access : Context.t -> Z -> Z -> St -> option error * St;
  Forget : Context.t -> Z -> Z -> St -> St;
  BatchForget : Context.t -> list ForgetEntry.t -> St -> St
}.
Arguments Init {St}.
Arguments Destroy {St}.
Arguments Lookup {St}.
Arguments GetAttr {St}.
Arguments ReadLink {St}.
Arguments Open {St}.
Arguments Read {St}.
Arguments Release {St}.
Arguments OpenDir {St}.
Arguments ReadDir {St}.
Arguments ReadDirPlus {St}.
Arguments ReleaseDir {St}.
Arguments StatFS {St}.
Arguments Access {St}.
Arguments Forget {St}.
Arguments BatchForget {St}.
End Filesystem.

Module connection.
Record t := mk { fd : Z; mounted : bool; protoMajor : Z; protoMinor : Z }.
End connection.

(** The fields of [Server] a request handler reads or writes. *)
Module Server.
Record t := mk {
  conn : connection.t;
  config : option Config.t;
  opts : MountOptions.t;
  initialized : bool;
  destroyed : bool
}.
End Server.

(** What a handler does that the outside can observe: a call of a
    filesystem method with its arguments, or a frame written to the
    device. *)
Inductive Event : Type :=
| CallInit (ctx : Context.t) (config : Config.t)
| CallDestroy (ctx : Context.t)
| CallLookup (ctx : Context.t) (parent : Z) (name : list byte)
| CallGetAttr (ctx : Context.t) (ino : Z) (fh : option Z)
| CallReadLink (ctx : Context.t) (ino : Z)
| CallOpen (ctx : Context.t) (ino : Z) (flags : Z)
| CallRead (ctx : Context.t) (ino fh offset size : Z)
| CallRelease (ctx : Context.t) (ino fh : Z)
| CallOpenDir (ctx : Context.t) (ino : Z) (flags : Z)
| CallReadDir (ctx : Context.t) (ino fh offset size : Z)
| CallReadDirPlus (ctx : Context.t) (ino fh offset size : Z)
| CallReleaseDir (ctx : Context.t) (ino fh : Z)
| CallStatFS (ctx : Context.t) (ino : Z)
| CallAccess (ctx : Context.t) (ino : Z) (mask : Z)
| CallForget (ctx : Context.t) (ino : Z) (nlookup : Z)
| CallBatchForget (ctx : Context.t) (entries : list ForgetEntry.t)
| DevWrite (frame : list byte).

Definition is_write (e : Event) : bool :=
  match e with DevWrite _ => true | _ => false end.

Definition is_fs_call (e : Event) : bool := negb (is_write e).

(** The frames written to the device, in order. *)
Definition frames (tr : list Event) : list (list byte) :=
  flat_map (fun e => match e with DevWrite f => [f] | _ => [] end) tr.

(** What the Go runtime can allocate: [can_make n] tells whether
    [make([]ForgetEntry, n)] returns.  When it does not -- a length out of
    range, or more memory than the system has to give -- the process
    dies inside [makeslice]. *)
Class Runtime : Type := { can_make : Z -> bool }.

(** ** The handler monad *)

Section Dispatcher.

Context {St : Type}.
Context {rt : Runtime}.
Variable fs : Filesystem.t St.

(** The state a handler runs in. *)
Record World := mkWorld { server : Server.t; fsstate : St }.

(** A handler either returns, or panics and takes the goroutine (and
    with it the process) down; both carry the state reached and the
    events performed up to that point. *)
Inductive Res (A : Type) : Type :=
| Ok (a : A) (w : World) (tr : list Event)
| Panic (w : World) (tr : list Event).
Arguments Ok {A}.
Arguments Panic {A}.

Definition M (A : Type) : Type := World -> Res A.

Definition ret {A : Type} (a : A) : M A := fun w => Ok a w [].

Definition bind {A B : Type} (m : M A) (f : A -> M B) : M B :=
  fun w =>
    match m w with
    | Ok a w1 tr1 =>
      match f a w1 with
      | Ok b w2 tr2 => Ok b w2 (tr1 ++ tr2)
      | Panic w2 tr2 => Panic w2 (tr1 ++ tr2)
      end
    | Panic w1 tr1 => Panic w1 tr1
    end.

Notation "x <- m ;; f" := (bind m (fun x => f))
  (at level 61, m at next level, right associativity).
Notation "m ;;; f" := (bind m (fun _ => f))
  (at level 61, right associativity).

Definition panic {A : Type} : M A := fun w => Panic w [].

(** Dereference a possibly nil pointer. *)
Definition deref {A : Type} (p : option A) : M A :=
  match p with
  | Some a => ret a
  | None => panic
  end.

Definition get_server : M Server.t := fun w => Ok (server w) w [].

Definition modify_server (f : Server.t -> Server.t) : M unit :=
  fun w => Ok tt (mkWorld (f (server w)) (fsstate w)) [].

(** A filesystem method that returns a value. *)
Definition call {A : Type} (e : Event) (f : St -> A * St) : M A :=
  fun w => let '(a, st) := f (fsstate w) in
           Ok a (mkWorld (server w) st) [e].

(** A filesystem method without result. *)
Definition call_ (e : Event) (f : St -> St) : M unit :=
  fun w => Ok tt (mkWorld (server w) (f (fsstate w))) [e].

(** [s.fs.Init(ctx, s.config)]: the filesystem is handed the pointer
    [s.config], so what it leaves there is what the server sees next. *)
Definition call_Init (ctx : Context.t) : M (option error) :=
  fun w =>
    match Server.config (server w) with
    | None => Panic w []
    | Some cfg =>
      let '(cfg', err, st) := Filesystem.Init fs ctx cfg (fsstate w) in
      let s := server w in
      Ok err
         (mkWorld (Server.mk (Server.conn s) (Some cfg') (Server.opts s)
                             (Server.initialized s) (Server.destroyed s))
                  st)
         [CallInit ctx cfg]
    end.

(** [s.conn.writeResponse(data)]: one write of the frame to the device. *)
Definition writeResponse (data : list byte) : M unit :=
  fun w => Ok tt w [DevWrite data].

(** [s.newContext(req)] *)
Definition newContext (req : request.t) : Context.t :=
  {| Context.Uid := proto.InHeader.Uid (header req);
     Context.Gid := proto.InHeader.Gid (header req);
     Context.Pid := proto.InHeader.Pid (header req);
     Context.Unique := proto.InHeader.Unique (header req) |}.

(** [sendError] *)
Definition sendError (req : request.t) (err : error) : M unit :=
  if (proto.InHeader.Opcode (header req) =? proto.OpForget)
     || (proto.InHeader.Opcode (header req) =? proto.OpBatchForget)
  then ret tt
  else
    writeResponse (error_bytes req err).

(** [sendResponse] *)
Definition sendResponse (req : request.t) (payload : list byte) : M unit :=
  writeResponse (response_bytes req payload).

(** ** The handlers *)

(** The capability bits of [handleInit], accumulated in a [uint32]. *)
Definition supported_flags : Z :=
  let flags := 0 in
  let flags := Z.lor flags (u32 proto.CapAsyncRead) in
  let flags := Z.lor flags (u32 proto.CapParallelDirops) in
  let flags := Z.lor flags (u32 proto.CapAutoInvalData) in
  let flags := Z.lor flags (u32 proto.CapReaddirplus) in
  let flags := Z.lor flags (u32 proto.CapReaddirplusAuto) in
  let flags := Z.lor flags (u32 proto.CapCacheSymlinks) in
  let flags := Z.lor flags (u32 proto.CapExportSupport) in
  let flags := Z.lor flags (u32 proto.CapMaxPages) in
  flags.

Definition set_proto (major minor : Z) (s : Server.t) : Server.t :=
  let c := Server.conn s in
  Server.mk (connection.mk (connection.fd c) (connection.mounted c) major minor)
            (Server.config s) (Server.opts s)
            (Server.initialized s) (Server.destroyed s).

Definition set_config (cfg : Config.t) (s : Server.t) : Server.t :=
  Server.mk (Server.conn s) (Some cfg) (Server.opts s)
            (Server.initialized s) (Server.destroyed s).

Definition set_initialized (s : Server.t) : Server.t :=
  Server.mk (Server.conn s) (Server.config s) (Server.opts s)
            true (Server.destroyed s).

Definition set_destroyed (s : Server.t) : Server.t :=
  Server.mk (Server.conn s) (Server.config s) (Server.opts s)
            (Server.initialized s) true.

Definition handleInit (req : request.t) : M (option error) :=
  in_ <- deref (cast InitIn_at req) ;;
  if negb (proto.InitIn.Major in_ =? proto.FuseKernelVersion) then
    let out :=
      {| proto.InitOut.Major := proto.FuseKernelVersion;
         proto.InitOut.Minor := proto.FuseKernelMinorVersion;
         proto.InitOut.MaxReadahead := 0;
         proto.InitOut.Flags := 0;
         proto.InitOut.MaxBackground := 0;
         proto.InitOut.CongestionThreshold := 0;
         proto.InitOut.MaxWrite := 0;
         proto.InitOut.TimeGran := 0;
         proto.InitOut.MaxPages := 0;
         proto.InitOut.MapAlignment := 0;
         proto.InitOut.Flags2 := 0;
         proto.InitOut.MaxStackDepth := 0 |} in
    sendResponse req (initOutBytes out) ;;;
    ret None
  else if proto.InitIn.Minor in_ <? proto.MinSupportedMinor then
    ret (Some (Errno syscall.EPROTO))
  else
    let minor := proto.InitIn.Minor in_ in
    let minor := if minor >? proto.FuseKernelMinorVersion
                 then proto.FuseKernelMinorVersion else minor in
    modify_server (set_proto (proto.InitIn.Major in_) minor) ;;;
    s <- get_server ;;
    modify_server (set_config
      {| Config.ProtoMajor := proto.InitIn.Major in_;
         Config.ProtoMinor := minor;
         Config.MaxReadahead :=
           Z.min (proto.InitIn.MaxReadahead in_)
                 (MountOptions.MaxReadahead (Server.opts s));
         Config.MaxWrite := MountOptions.MaxWrite (Server.opts s);
         Config.MaxPages := proto.DefaultMaxPages |}) ;;;
    let ctx := newContext req in
    err <- call_Init ctx ;;
    match err with
    | Some e => ret (Some e)
    | None =>
      let flags := supported_flags in
      let flags := Z.land flags (proto.InitIn.Flags in_) in
      s <- get_server ;;
      config <- deref (Server.config s) ;;
      let out :=
        {| proto.InitOut.Major := proto.FuseKernelVersion;
           proto.InitOut.Minor := minor;
           proto.InitOut.MaxReadahead := Config.MaxReadahead config;
           proto.InitOut.Flags := flags;
           proto.InitOut.MaxBackground :=
             MountOptions.MaxBackground (Server.opts s);
           proto.InitOut.CongestionThreshold :=
             u16 (MountOptions.MaxBackground (Server.opts s) * 3) / 4;
           proto.InitOut.MaxWrite := MountOptions.MaxWrite (Server.opts s);
           proto.InitOut.TimeGran := proto.DefaultTimeGran;
           proto.InitOut.MaxPages := proto.DefaultMaxPages;
           proto.InitOut.MapAlignment := 0;
           proto.InitOut.Flags2 := 0;
           proto.InitOut.MaxStackDepth := 0 |} in
      modify_server set_initialized ;;;
      sendResponse req (initOutBytes out) ;;;
      ret None
    end.

Definition handleDestroy (req : request.t) : M (option error) :=
  let ctx := newContext req in
  call_ (CallDestroy ctx) (Filesystem.Destroy fs ctx) ;;;
  modify_server set_destroyed ;;;
  sendResponse req [] ;;;
  ret None.

Definition handleLookup (req : request.t) : M (option error) :=
  let name := filename req in
  let ctx := newContext req in
  let parent := proto.InHeader.NodeID (header req) in
  r <- call (CallLookup ctx parent name)
            (Filesystem.Lookup fs ctx parent name) ;;
  let '(entry, err) := r in
  match err with
  | Some e => ret (Some e)
  | None =>
    entry <- deref entry ;;
    let out := entryToProto entry in
    sendResponse req (entryOutBytes out) ;;;
    ret None
  end.

Definition handleForget (req : request.t) : M (option error) :=
  let in_ := cast ForgetIn_at req in
  let ctx := newContext req in
  in_ <- deref in_ ;;
  let ino := proto.InHeader.NodeID (header req) in
  call_ (CallForget ctx ino (proto.ForgetIn.Nlookup in_))
        (Filesystem.Forget fs ctx ino (proto.ForgetIn.Nlookup in_)) ;;;
  ret None.

(** [entries[i] = v], for [i] inside the slice. *)
Fixpoint update {A : Type} (l : list A) (i : nat) (v : A) : list A :=
  match l, i with
  | [], _ => []
  | _ :: t, O => v :: t
  | h :: t, S j => h :: update t j v
  end.

(** The loop of [handleBatchForget], with [remaining = in.Count - i]. *)
Fixpoint batchForget_loop (body : list byte) (remaining : nat) (i : nat)
  (offset : Z) (entries : list ForgetEntry.t) : list ForgetEntry.t :=
  match remaining with
  | O => entries
  | S remaining' =>
    if offset + proto.ForgetOneSize >? len body then entries
    else
      let one := ForgetOne_at body (Z.to_nat offset) in
      let entries :=
        update entries i
          {| ForgetEntry.Ino := proto.ForgetOne.NodeID one;
             ForgetEntry.Nlookup := proto.ForgetOne.Nlookup one |} in
      batchForget_loop body remaining' (S i)
                       (offset + proto.ForgetOneSize) entries
  end.

Definition handleBatchForget (req : request.t) : M (option error) :=
  let in_ := cast BatchForgetIn_at req in
  let body := bodyBytes req in
  if len body <? proto.BatchForgetInSize then
    ret (Some (Errno syscall.EINVAL))
  else
    in_ <- deref in_ ;;
    let count := proto.BatchForgetIn.Count in_ in
    (* entries := make([]ForgetEntry, in.Count) *)
    if negb (can_make count) then panic
    else
      let entries := repeat ForgetEntry.zero (Z.to_nat count) in
      let offset := proto.BatchForgetInSize in
      let entries :=
        batchForget_loop body (Z.to_nat count) 0 offset entries in
      let ctx := newContext req in
      call_ (CallBatchForget ctx entries)
            (Filesystem.BatchForget fs ctx entries) ;;;
      ret None.

Definition handleGetattr (req : request.t) : M (option error) :=
  in_ <- deref (cast GetAttrIn_at req) ;;
  let fh := if negb (Z.land (proto.GetAttrIn.Flags in_) proto.GetattrFh =? 0)
            then Some (proto.GetAttrIn.Fh in_) else None in
  let ctx := newContext req in
  let ino := proto.InHeader.NodeID (header req) in
  r <- call (CallGetAttr ctx ino fh) (Filesystem.GetAttr fs ctx ino fh) ;;
  let '(attr, err) := r in
  match err with
  | Some e => ret (Some e)
  | None =>
    attr <- deref attr ;;
    let out :=
      {| proto.AttrOut.AttrValid := 1;
         proto.AttrOut.AttrValidNsec := 0;
         proto.AttrOut.Dummy := 0;
         proto.AttrOut.Attr := attrToProto attr |} in
    sendResponse req (attrOutBytes out) ;;;
    ret None
  end.

Definition handleReadlink (req : request.t) : M (option error) :=
  let ctx := newContext req in
  let ino := proto.InHeader.NodeID (header req) in
  r <- call (CallReadLink ctx ino) (Filesystem.ReadLink fs ctx ino) ;;
  let '(target, err) := r in
  match err with
  | Some e => ret (Some e)
  | None => sendResponse req target ;;; ret None
  end.

Definition handleOpen (req : request.t) : M (option error) :=
  let in_ := cast OpenIn_at req in
  let ctx := newContext req in
  let ino := proto.InHeader.NodeID (header req) in
  in_ <- deref in_ ;;
  r <- call (CallOpen ctx ino (proto.OpenIn.Flags in_))
            (Filesystem.Open fs ctx ino (proto.OpenIn.Flags in_)) ;;
  let '(resp, err) := r in
  match err with
  | Some e => ret (Some e)
  | None =>
    resp <- deref resp ;;
    let out :=
      {| proto.OpenOut.Fh := u64 (OpenResponse.Handle resp);
         proto.OpenOut.OpenFlags := u32 (OpenResponse.Flags resp);
         proto.OpenOut.Padding := 0 |} in
    sendResponse req (openOutBytes out) ;;;
    ret None
  end.

Definition handleRead (req : request.t) : M (option error) :=
  let in_ := cast ReadIn_at req in
  let ctx := newContext req in
  let ino := proto.InHeader.NodeID (header req) in
  in_ <- deref in_ ;;
  let fh := proto.ReadIn.Fh in_ in
  let offset := i64 (proto.ReadIn.Offset in_) in
  let size := proto.ReadIn.Size in_ in
  r <- call (CallRead ctx ino fh offset size)
            (Filesystem.Read fs ctx ino fh offset size) ;;
  let '(data, err) := r in
  match err with
  | Some e => ret (Some e)
  | None => sendResponse req data ;;; ret None
  end.

Definition handleRelease (req : request.t) : M (option error) :=
  let in_ := cast ReleaseIn_at req in
  let ctx := newContext req in
  let ino := proto.InHeader.NodeID (header req) in
  in_ <- deref in_ ;;
  err <- call (CallRelease ctx ino (proto.ReleaseIn.Fh in_))
              (Filesystem.Release fs ctx ino (proto.ReleaseIn.Fh in_)) ;;
  match err with
  | Some e => ret (Some e)
  | None => sendResponse req [] ;;; ret None
  end.

Definition handleOpendir (req : request.t) : M (option error) :=
  let in_ := cast OpenIn_at req in
  let ctx := newContext req in
  let ino := proto.InHeader.NodeID (header req) in
  in_ <- deref in_ ;;
  r <- call (CallOpenDir ctx ino (proto.OpenIn.Flags in_))
            (Filesystem.OpenDir fs ctx ino (proto.OpenIn.Flags in_)) ;;
  let '(resp, err) := r in
  match err with
  | Some e => ret (Some e)
  | None =>
    resp <- deref resp ;;
    let out :=
      {| proto.OpenOut.Fh := u64 (OpenResponse.Handle resp);
         proto.OpenOut.OpenFlags := u32 (OpenResponse.Flags resp);
         proto.OpenOut.Padding := 0 |} in
    sendResponse req (openOutBytes out) ;;;
    ret None
  end.

Definition handleReaddir (req : request.t) : M (option error) :=
  let in_ := cast ReadIn_at req in
  let ctx := newContext req in
  let ino := proto.InHeader.NodeID (header req) in
  in_ <- deref in_ ;;
  let fh := proto.ReadIn.Fh in_ in
  let offset := i64 (proto.ReadIn.Offset in_) in
  let size := proto.ReadIn.Size in_ in
  r <- call (CallReadDir ctx ino fh offset size)
            (Filesystem.ReadDir fs ctx ino fh offset size) ;;
  let '(entries, err) := r in
  match err with
  | Some e => ret (Some e)
  | None =>
    let data := serializeDirents entries size in
    sendResponse req data ;;;
    ret None
  end.

Definition handleReaddirplus (req : request.t) : M (option error) :=
  let in_ := cast ReadIn_at req in
  let ctx := newContext req in
  let ino := proto.InHeader.NodeID (header req) in
  in_ <- deref in_ ;;
  let fh := proto.ReadIn.Fh in_ in
  let offset := i64 (proto.ReadIn.Offset in_) in
  let size := proto.ReadIn.Size in_ in
  r <- call (CallReadDirPlus ctx ino fh offset size)
            (Filesystem.ReadDirPlus fs ctx ino fh offset size) ;;
  let '(entries, err) := r in
  match err with
  | Some e => ret (Some e)
  | None =>
    let data := serializeDirentsPlus entries size in
    sendResponse req data ;;;
    ret None
  end.

Definition handleReleasedir (req : request.t) : M (option error) :=
  let in_ := cast ReleaseIn_at req in
  let ctx := newContext req in
  let ino := proto.InHeader.NodeID (header req) in
  in_ <- deref in_ ;;
  err <- call (CallReleaseDir ctx ino (proto.ReleaseIn.Fh in_))
              (Filesystem.ReleaseDir fs ctx ino (proto.ReleaseIn.Fh in_)) ;;
  match err with
  | Some e => ret (Some e)
  | None => sendResponse req [] ;;; ret None
  end.

Definition handleStatfs (req : request.t) : M (option error) :=
  let ctx := newContext req in
  let ino := proto.InHeader.NodeID (header req) in
  r <- call (CallStatFS ctx ino) (Filesystem.StatFS fs ctx ino) ;;
  let '(st, err) := r in
  match err with
  | Some e => ret (Some e)
  | None =>
    st <- deref st ;;
    let out :=
      {| proto.StatfsOut.St :=
           {| proto.Kstatfs.Blocks := StatFS.Blocks st;
              proto.Kstatfs.Bfree := StatFS.Bfree st;
              proto.Kstatfs.Bavail := StatFS.Bavail st;
              proto.Kstatfs.Files := StatFS.Files st;
              proto.Kstatfs.Ffree := StatFS.Ffree st;
              proto.Kstatfs.Bsize := StatFS.Bsize st;
              proto.Kstatfs.Namelen := StatFS.Namelen st;
              proto.Kstatfs.Frsize := StatFS.Frsize st |} |} in
    sendResponse req (statfsOutBytes out) ;;;
    ret None
  end.

Definition handleAccess (req : request.t) : M (option error) :=
  let in_ := cast AccessIn_at req in
  let ctx := newContext req in
  let ino := proto.InHeader.NodeID (header req) in
  in_ <- deref in_ ;;
  err <- call (CallAccess ctx ino (proto.AccessIn.Mask in_))
              (Filesystem.Access fs ctx ino (proto.AccessIn.Mask in_)) ;;
  match err with
  | Some e => ret (Some e)
  | None => sendResponse req [] ;;; ret None
  end.

Definition handleFlush (req : request.t) : M (option error) :=
  sendResponse req [] ;;;
  ret None.

Definition handleInterrupt (req : request.t) : M (option error) :=
  ret None.

Definition handler : Type := request.t -> M (option error).

(** The [handlers] table. *)
Definition handlers : list (Z * handler) :=
  [ (proto.OpInit, handleInit);
    (proto.OpDestroy, handleDestroy);
    (proto.OpLookup, handleLookup);
    (proto.OpForget, handleForget);
    (proto.OpBatchForget, handleBatchForget);
    (proto.OpGetattr, handleGetattr);
    (proto.OpReadlink, handleReadlink);
    (proto.OpOpen, handleOpen);
    (proto.OpRead, handleRead);
    (proto.OpRelease, handleRelease);
    (proto.OpOpendir, handleOpendir);
    (proto.OpReaddir, handleReaddir);
    (proto.OpReaddirplus, handleReaddirplus);
    (proto.OpReleasedir, handleReleasedir);
    (proto.OpStatfs, handleStatfs);
    (proto.OpAccess, handleAccess);
    (proto.OpFlush, handleFlush);
    (proto.OpInterrupt, handleInterrupt) ].

(** [h, ok := handlers[opcode]] *)
Fixpoint lookup (table : list (Z * handler)) (opcode : Z) : option handler :=
  match table with
  | [] => None
  | (k, h) :: rest => if k =? opcode then Some h else lookup rest opcode
  end.

(** [handleRequest] *)
Definition handleRequest (req : request.t) : M unit :=
  let opcode := proto.InHeader.Opcode (header req) in
  if isWriteOp opcode then
    sendError req (Errno syscall.EROFS)
  else
    match lookup handlers opcode with
    | None => sendError req (Errno syscall.ENOSYS)
    | Some h =>
      err <- h req ;;
      match err with
      | Some e => sendError req e
      | None => ret tt
      end
    end.

(** The tail of [handleRequest] once the table has given a handler:
    run it and report its error, if any. *)
Definition finish (h : handler) (req : request.t) : M unit :=
  err <- h req ;;
  match err with
  | Some e => sendError req e
  | None => ret tt
  end.

End Dispatcher.

Arguments Ok {St A}.
Arguments Panic {St A}.

Arguments server {St}.
Arguments fsstate {St}.
Arguments mkWorld {St}.

(** The state and the events a run ends with. *)
Definition res_world {St A : Type} (r : Res A) : World (St := St) :=
  match r with
  | Ok _ w _ => w
  | Panic w _ => w
  end.

Definition res_trace {St A : Type} (r : Res (St := St) A) : list Event :=
  match r with
  | Ok _ _ tr => tr
  | Panic _ tr => tr
  end.

(** The opcodes whose requests are never answered. *)
Definition no_reply (opcode : Z) : bool :=
  (opcode =? proto.OpForget) || (opcode =? proto.OpBatchForget)
  || (opcode =? proto.OpInterrupt).

(** A handler of a reply-carrying opcode writes one frame when it returns
    no error and none when it returns an error or panics. *)
Definition replies_once {St : Type} (h : request.t -> M (St := St) (option error))
  : Prop :=
  forall req w,
    match h req w with
    | Ok None _ tr => length (frames tr) = 1%nat
    | Ok (Some _) _ tr => frames tr = []
    | Panic _ tr => frames tr = []
    end.

(** A handler of a no-reply opcode never writes. *)
Definition never_replies {St : Type}
  (h : request.t -> M (St := St) (option error)) : Prop :=
  forall req w, frames (res_trace (h req w)) = [].

(** The InitOut sent on a major-version mismatch: our version, every
    other field zero. *)
Definition version_only_out : proto.InitOut.t :=
  {| proto.InitOut.Major := proto.FuseKernelVersion;
     proto.InitOut.Minor := proto.FuseKernelMinorVersion;
     proto.InitOut.MaxReadahead := 0;
     proto.InitOut.Flags := 0;
     proto.InitOut.MaxBackground := 0;
     proto.InitOut.CongestionThreshold := 0;
     proto.InitOut.MaxWrite := 0;
     proto.InitOut.TimeGran := 0;
     proto.InitOut.MaxPages := 0;
     proto.InitOut.MapAlignment := 0;
     proto.InitOut.Flags2 := 0;
     proto.InitOut.MaxStackDepth := 0 |}.

(** The opcodes whose handler reads a fixed-layout body through a typed
    pointer. *)
Definition typed_body_opcodes : list Z :=
  [ proto.OpInit; proto.OpForget; proto.OpGetattr; proto.OpOpen;
    proto.OpRead; proto.OpRelease; proto.OpOpendir; proto.OpReaddir;
    proto.OpReaddirplus; proto.OpReleasedir; proto.OpAccess ].

(** The capabilities an InitOut payload advertises: [flags] in the low
    and [flags2] in the high 32 bits. *)
Definition advertised_caps (payload : list byte) : Z :=
  load 4 payload 12 + 2 ^ 32 * load 4 payload 32.

(** ** The specification's view of the wire data *)

(** A plain directory record as the specification words it: the
    [{ino, off, namelen, type}] prefix, the name, then zero bytes up to
    the next multiple of eight. *)
Definition direntPadded (e : DirEntry.t) : Z :=
  Z.land (24 + len (DirEntry.Name e) + 7) (Z.lnot 7).

Definition direntRecord (e : DirEntry.t) : list byte :=
  le_encode 8 (DirEntry.Ino e) ++ le_encode 8 (DirEntry.Offset e)
  ++ le_encode 4 (len (DirEntry.Name e)) ++ le_encode 4 (DirEntry.Type_ e)
  ++ DirEntry.Name e
  ++ repeat x00 (Z.to_nat (direntPadded e - 24 - len (DirEntry.Name e))).

(** Cumulative padded size of a list of entries. *)
Fixpoint total_padded (es : list DirEntry.t) : Z :=
  match es with
  | [] => 0
  | e :: r => direntPadded e + total_padded r
  end.

(** The longest prefix of [es] whose cumulative padded size stays
    within [room]. *)
Fixpoint fitting (es : list DirEntry.t) (room : Z) : list DirEntry.t :=
  match es with
  | [] => []
  | e :: r =>
    if direntPadded e <=? room
    then e :: fitting r (room - direntPadded e)
    else []
  end.

(** The pair [(sec, nsec)] read back as a [time.Duration]:
    [sec * 1s + nsec * 1ns], computed in [int64]. *)
Definition timespecToDuration (ts : Z * Z) : Z :=
  i64 (fst ts * time.Second + snd ts * time.Nanosecond).

(** ** The default and the example filesystem *)

(** [FilesystemBase]: the defaults an implementation embeds. *)
Module FilesystemBase.
Section Defaults.
Context {St : Type}.

Definition Init (ctx : Context.t) (config : Config.t) (st : St)
  : Config.t * option error * St := (config, None, st).

Definition Destroy (ctx : Context.t) (st : St) : St := st.

Definition ReadLink (ctx : Context.t) (ino : Z) (st : St)
  : list byte * option error * St := ([], Some (Errno syscall.ENOSYS), st).

Definition Open (ctx : Context.t) (ino flags : Z) (st : St)
  : option OpenResponse.t * option error * St :=
  (Some (OpenResponse.mk 0 0), None, st).

Definition Release (ctx : Context.t) (ino fh : Z) (st : St)
  : option error * St := (None, st).

Definition OpenDir (ctx : Context.t) (ino flags : Z) (st : St)
  : option OpenResponse.t * option error * St :=
  (Some (OpenResponse.mk 0 0), None, st).

Definition ReadDirPlus (ctx : Context.t) (ino fh offset size : Z) (st : St)
  : list DirEntryPlus.t * option error * St :=
  ([], Some (Errno syscall.ENOSYS), st).

Definition ReleaseDir (ctx : Context.t) (ino fh : Z) (st : St)
  : option error * St := (None, st).

Definition StatFS (ctx : Context.t) (ino : Z) (st : St)
  : option StatFS.t * option error * St :=
  (Some (StatFS.mk 0 0 0 0 0 4096 255 4096), None, st).

Definition Access (ctx : Context.t) (ino mask : Z) (st : St)
  : option error * St := (None, st).

Definition Forget (ctx : Context.t) (ino nlookup : Z) (st : St) : St := st.

Definition BatchForget (ctx : Context.t) (entries : list ForgetEntry.t)
  (st : St) : St :=
  fold_left
    (fun st e => Forget ctx (ForgetEntry.Ino e) (ForgetEntry.Nlookup e) st)
    entries st.

End Defaults.
End FilesystemBase.

(** The README's [MyFS]: a root directory holding [hello.txt]. *)
Module MyFS.

Definition hello_txt : list byte := [x68; x65; x6c; x6c; x6f; x2e; x74; x78; x74].
Definition content : list byte :=
  [x48; x65; x6c; x6c; x6f; x2c; x20; x57; x6f; x72; x6c; x64; x21].

(** The zero [time.Time]. *)
Definition zero_time : Time.t := Time.mk (-62135596800) 0.

Definition file_attr : Attr.t :=
  Attr.mk 2 13 0 zero_time zero_time zero_time 420 1 0 0 0 0.

Definition root_attr : Attr.t :=
  Attr.mk 1 0 0 zero_time zero_time zero_time (Z.lor os.ModeDir 493) 2 0 0 0 0.

Definition Lookup (ctx : Context.t) (parent : Z) (name : list byte) (st : unit)
  : option Entry.t * option error * unit :=
  if (parent =? 1) && (if list_eq_dec Byte.byte_eq_dec name hello_txt
                       then true else false)
  then (Some (Entry.mk 2 0 file_attr time.Minute time.Minute), None, st)
  else (None, Some (Errno syscall.ENOENT), st).

Definition GetAttr (ctx : Context.t) (ino : Z) (fh : option Z) (st : unit)
  : option Attr.t * option error * unit :=
  if ino =? 1 then (Some root_attr, None, st)
  else if ino =? 2 then (Some file_attr, None, st)
  else (None, Some (Errno syscall.ENOENT), st).

Definition ReadDir (ctx : Context.t) (ino fh offset size : Z) (st : unit)
  : list DirEntry.t * option error * unit :=
  if negb (ino =? 1) then ([], Some (Errno 20), st)
  else
    let entries :=
      [ DirEntry.mk 1 1 4 [x2e];
        DirEntry.mk 1 2 4 [x2e; x2e];
        DirEntry.mk 2 3 8 hello_txt ] in
    (filter (fun e => i64 (DirEntry.Offset e) >? offset) entries, None, st).

(** [Read] of the README, for offsets from 0 on.  For a negative offset
    the README's [content[offset:end]] is a slice out of range and the
    method panics instead of returning, which a method of [Filesystem.t]
    cannot do: there this definition (which starts the slice at 0) does
    not stand for the README's, and nothing below evaluates it there. *)
Definition Read (ctx : Context.t) (ino fh offset size : Z) (st : unit)
  : list byte * option error * unit :=
  if negb (ino =? 2) then ([], Some (Errno syscall.ENOENT), st)
  else if offset >=? len content then ([], None, st)
  else
    let end_ := offset + size in
    let end_ := if end_ >? len content then len content else end_ in
    (slice content (Z.to_nat offset) (Z.to_nat end_), None, st).

Definition fs : Filesystem.t unit :=
  Filesystem.mk unit
    FilesystemBase.Init FilesystemBase.Destroy Lookup GetAttr
    FilesystemBase.ReadLink FilesystemBase.Open Read FilesystemBase.Release
    FilesystemBase.OpenDir ReadDir FilesystemBase.ReadDirPlus
    FilesystemBase.ReleaseDir FilesystemBase.StatFS FilesystemBase.Access
    FilesystemBase.Forget FilesystemBase.BatchForget.

End MyFS.

(** ** Sample inputs *)

Module Sample.

(** A server as [Mount] leaves it with default options. *)
Definition opts : MountOptions.t :=
  MountOptions.mk false proto.DefaultMaxReadahead proto.DefaultMaxWrite
                  proto.DefaultMaxBackground false false false false [] [].

Definition srv : Server.t :=
  Server.mk (connection.mk 3 true 0 0) None opts false false.

Definition w0 : World (St := unit) := mkWorld srv tt.

(** The machine the samples run on: it has memory for a slice of up to
    2^20 forget entries. *)
#[global] Instance runtime : Runtime := {| can_make := fun n => n <=? 2 ^ 20 |}.

(** The 40 bytes of an [InHeader]. *)
Definition header_bytes (length opcode unique nodeid uid gid pid : Z)
  : list byte :=
  le_encode 4 length ++ le_encode 4 opcode ++ le_encode 8 unique
  ++ le_encode 8 nodeid ++ le_encode 4 uid ++ le_encode 4 gid
  ++ le_encode 4 pid ++ le_encode 4 0.

(** A request as read from the device, in a buffer whose bytes past the
    request are [spare]. *)
Definition kernel_request (opcode unique nodeid : Z) (body spare : list byte)
  : request.t :=
  request.mk
    (header_bytes (40 + len body) opcode unique nodeid 1000 1000 4242 ++ body)
    spare.

(** What an earlier request left in the pooled buffer. *)
Definition stale : list byte :=
  le_encode 8 7 ++ le_encode 4 5 ++ repeat xff 52.

(** A WRITE of five bytes to inode 2. *)
Definition req_write : request.t :=
  kernel_request proto.OpWrite 42 2
    (le_encode 8 0 ++ le_encode 8 0 ++ le_encode 4 5 ++ le_encode 4 0
     ++ le_encode 8 0 ++ le_encode 4 0 ++ le_encode 4 0
     ++ [x48; x65; x6c; x6c; x6f]) [].

(** A request made of the 40-byte header alone. *)
Definition bare_request (opcode : Z) : request.t :=
  kernel_request opcode 9 1 [] stale.

(** A READ of inode 2 whose body stops after the 8-byte [Fh]. *)
Definition req_read_short : request.t :=
  kernel_request proto.OpRead 11 2 (le_encode 8 0) stale.

(** A well-formed GETATTR of the root. *)
Definition req_getattr : request.t :=
  kernel_request proto.OpGetattr 10 1
    (le_encode 4 0 ++ le_encode 4 0 ++ le_encode 8 0) [].

(** A BATCH_FORGET announcing two entries, cut in the middle of the
    second: [{5, 1}] is complete, of [{6, _}] only the node id arrived. *)
Definition req_batch_truncated : request.t :=
  kernel_request proto.OpBatchForget 12 0
    (le_encode 4 2 ++ le_encode 4 0
     ++ le_encode 8 5 ++ le_encode 8 1
     ++ le_encode 8 6) [].

(** INIT from a kernel speaking 7.45 that offers every capability bit. *)
Definition init_body (major minor : Z) : list byte :=
  le_encode 4 major ++ le_encode 4 minor ++ le_encode 4 65536
  ++ le_encode 4 4294967295 ++ le_encode 4 4294967295 ++ repeat x00 44.

Definition req_init : request.t :=
  kernel_request proto.OpInit 1 0 (init_body 7 45) [].

Definition req_init_major8 : request.t :=
  kernel_request proto.OpInit 1 0 (init_body 8 0) [].

Definition req_init_minor12 : request.t :=
  kernel_request proto.OpInit 1 0 (init_body 7 12) [].

(** Three entries with one-byte names, as in the readdir budget
    scenario. *)
Definition three_entries : list DirEntry.t :=
  [ DirEntry.mk 1 1 4 [x61]; DirEntry.mk 2 2 8 [x62]; DirEntry.mk 3 3 8 [x63] ].

(** An entry whose name is 2^32 - 24 bytes long. *)
Definition huge_entry : DirEntry.t :=
  DirEntry.mk 2 1 8 (repeat x61 (Z.to_nat (2 ^ 32 - 24))).

(** [hello.txt] as a READDIRPLUS entry, with generation 7. *)
Definition plus_entry : DirEntryPlus.t :=
  DirEntryPlus.mk (Entry.mk 2 7 MyFS.file_attr time.Minute time.Minute)
                  MyFS.hello_txt.

End Sample.

(** ** What a trace says about a request *)

(** The opcodes of the [handlers] table. *)
Definition handled_opcodes : list Z :=
  [ proto.OpInit; proto.OpDestroy; proto.OpLookup; proto.OpForget;
    proto.OpBatchForget; proto.OpGetattr; proto.OpReadlink; proto.OpOpen;
    proto.OpRead; proto.OpRelease; proto.OpOpendir; proto.OpReaddir;
    proto.OpReaddirplus; proto.OpReleasedir; proto.OpStatfs; proto.OpAccess;
    proto.OpFlush; proto.OpInterrupt ].

(** The opcode a filesystem method serves. *)
Definition event_opcode (e : Event) : option Z :=
  match e with
  | CallInit _ _ => Some proto.OpInit
  | CallDestroy _ => Some proto.OpDestroy
  | CallLookup _ _ _ => Some proto.OpLookup
  | CallGetAttr _ _ _ => Some proto.OpGetattr
  | CallReadLink _ _ => Some proto.OpReadlink
  | CallOpen _ _ _ => Some proto.OpOpen
  | CallRead _ _ _ _ _ => Some proto.OpRead
  | CallRelease _ _ _ => Some proto.OpRelease
  | CallOpenDir _ _ _ => Some proto.OpOpendir
  | CallReadDir _ _ _ _ _ => Some proto.OpReaddir
  | CallReadDirPlus _ _ _ _ _ => Some proto.OpReaddirplus
  | CallReleaseDir _ _ _ => Some proto.OpReleasedir
  | CallStatFS _ _ => Some proto.OpStatfs
  | CallAccess _ _ _ => Some proto.OpAccess
  | CallForget _ _ _ => Some proto.OpForget
  | CallBatchForget _ _ => Some proto.OpBatchForget
  | DevWrite _ => None
  end.

(** The context a filesystem method was called with. *)
Definition event_ctx (e : Event) : option Context.t :=
  match e with
  | CallInit ctx _ | CallDestroy ctx | CallLookup ctx _ _
  | CallGetAttr ctx _ _ | CallReadLink ctx _ | CallOpen ctx _ _
  | CallRead ctx _ _ _ _ | CallRelease ctx _ _ | CallOpenDir ctx _ _
  | CallReadDir ctx _ _ _ _ | CallReadDirPlus ctx _ _ _ _
  | CallReleaseDir ctx _ _ | CallStatFS ctx _ | CallAccess ctx _ _
  | CallForget ctx _ _ | CallBatchForget ctx _ => Some ctx
  | DevWrite _ => None
  end.

(** The filesystem calls of a trace are none, or one call of the method
    of opcode [k] with the context of [req]. *)
Definition calls_at_most (k : Z) (req : request.t) (tr : list Event) : Prop :=
  filter is_fs_call tr = []
  \/ exists e, filter is_fs_call tr = [e]
               /\ event_opcode e = Some k
               /\ event_ctx e = Some (newContext req).

(** What a request may change of the server: never the options, the
    descriptor or the [mounted] flag, and it never clears [initialized]
    or [destroyed]. *)
Definition server_kept (s s' : Server.t) : Prop :=
  Server.opts s' = Server.opts s
  /\ connection.fd (Server.conn s') = connection.fd (Server.conn s)
  /\ connection.mounted (Server.conn s') = connection.mounted (Server.conn s)
  /\ (Server.initialized s = true -> Server.initialized s' = true)
  /\ (Server.destroyed s = true -> Server.destroyed s' = true).

(** ** The reply structs as the kernel reads them *)

(** The structs of package proto laid over a byte string, field by field
    at the offsets their declarations give. *)
Definition Attr_at (m : list byte) (p : nat) : proto.Attr.t :=
  {| proto.Attr.Ino := load 8 m (p + 0);
     proto.Attr.Size := load 8 m (p + 8);
     proto.Attr.Blocks := load 8 m (p + 16);
     proto.Attr.Atime := load 8 m (p + 24);
     proto.Attr.Mtime := load 8 m (p + 32);
     proto.Attr.Ctime := load 8 m (p + 40);
     proto.Attr.AtimeNsec := load 4 m (p + 48);
     proto.Attr.MtimeNsec := load 4 m (p + 52);
     proto.Attr.CtimeNsec := load 4 m (p + 56);
     proto.Attr.Mode := load 4 m (p + 60);
     proto.Attr.Nlink := load 4 m (p + 64);
     proto.Attr.Uid := load 4 m (p + 68);
     proto.Attr.Gid := load 4 m (p + 72);
     proto.Attr.Rdev := load 4 m (p + 76);
     proto.Attr.Blksize := load 4 m (p + 80);
     proto.Attr.Flags := load 4 m (p + 84) |}.

Definition EntryOut_at (m : list byte) (p : nat) : proto.EntryOut.t :=
  {| proto.EntryOut.NodeID := load 8 m (p + 0);
     proto.EntryOut.Generation := load 8 m (p + 8);
     proto.EntryOut.EntryValid := load 8 m (p + 16);
     proto.EntryOut.AttrValid := load 8 m (p + 24);
     proto.EntryOut.EntryValidNsec := load 4 m (p + 32);
     proto.EntryOut.AttrValidNsec := load 4 m (p + 36);
     proto.EntryOut.Attr := Attr_at m (p + 40) |}.

Definition AttrOut_at (m : list byte) (p : nat) : proto.AttrOut.t :=
  {| proto.AttrOut.AttrValid := load 8 m (p + 0);
     proto.AttrOut.AttrValidNsec := load 4 m (p + 8);
     proto.AttrOut.Dummy := load 4 m (p + 12);
     proto.AttrOut.Attr := Attr_at m (p + 16) |}.

Definition OpenOut_at (m : list byte) (p : nat) : proto.OpenOut.t :=
  {| proto.OpenOut.Fh := load 8 m (p + 0);
     proto.OpenOut.OpenFlags := load 4 m (p + 8);
     proto.OpenOut.Padding := load 4 m (p + 12) |}.

Definition InitOut_at (m : list byte) (p : nat) : proto.InitOut.t :=
  {| proto.InitOut.Major := load 4 m (p + 0);
     proto.InitOut.Minor := load 4 m (p + 4);
     proto.InitOut.MaxReadahead := load 4 m (p + 8);
     proto.InitOut.Flags := load 4 m (p + 12);
     proto.InitOut.MaxBackground := load 2 m (p + 16);
     proto.InitOut.CongestionThreshold := load 2 m (p + 18);
     proto.InitOut.MaxWrite := load 4 m (p + 20);
     proto.InitOut.TimeGran := load 4 m (p + 24);
     proto.InitOut.MaxPages := load 2 m (p + 28);
     proto.InitOut.MapAlignment := load 2 m (p + 30);
     proto.InitOut.Flags2 := load 4 m (p + 32);
     proto.InitOut.MaxStackDepth := load 4 m (p + 36) |}.

Definition Kstatfs_at (m : list byte) (p : nat) : proto.Kstatfs.t :=
  {| proto.Kstatfs.Blocks := load 8 m (p + 0);
     proto.Kstatfs.Bfree := load 8 m (p + 8);
     proto.Kstatfs.Bavail := load 8 m (p + 16);
     proto.Kstatfs.Files := load 8 m (p + 24);
     proto.Kstatfs.Ffree := load 8 m (p + 32);
     proto.Kstatfs.Bsize := load 4 m (p + 40);
     proto.Kstatfs.Namelen := load 4 m (p + 44);
     proto.Kstatfs.Frsize := load 4 m (p + 48) |}.

(** A value that fits an unsigned field of [bits] bits. *)
Definition fits (bits : Z) (z : Z) : Prop := 0 <= z < 2 ^ bits.

(** Every field within the range of its declared type. *)
Definition Attr_fits (a : proto.Attr.t) : Prop :=
  fits 64 (proto.Attr.Ino a) /\ fits 64 (proto.Attr.Size a)
  /\ fits 64 (proto.Attr.Blocks a) /\ fits 64 (proto.Attr.Atime a)
  /\ fits 64 (proto.Attr.Mtime a) /\ fits 64 (proto.Attr.Ctime a)
  /\ fits 32 (proto.Attr.AtimeNsec a) /\ fits 32 (proto.Attr.MtimeNsec a)
  /\ fits 32 (proto.Attr.CtimeNsec a) /\ fits 32 (proto.Attr.Mode a)
  /\ fits 32 (proto.Attr.Nlink a) /\ fits 32 (proto.Attr.Uid a)
  /\ fits 32 (proto.Attr.Gid a) /\ fits 32 (proto.Attr.Rdev a)
  /\ fits 32 (proto.Attr.Blksize a) /\ fits 32 (proto.Attr.Flags a).

Definition EntryOut_fits (o : proto.EntryOut.t) : Prop :=
  fits 64 (proto.EntryOut.NodeID o) /\ fits 64 (proto.EntryOut.Generation o)
  /\ fits 64 (proto.EntryOut.EntryValid o)
  /\ fits 64 (proto.EntryOut.AttrValid o)
  /\ fits 32 (proto.EntryOut.EntryValidNsec o)
  /\ fits 32 (proto.EntryOut.AttrValidNsec o)
  /\ Attr_fits (proto.EntryOut.Attr o).

Definition AttrOut_fits (o : proto.AttrOut.t) : Prop :=
  fits 64 (proto.AttrOut.AttrValid o)
  /\ fits 32 (proto.AttrOut.AttrValidNsec o)
  /\ fits 32 (proto.AttrOut.Dummy o)
  /\ Attr_fits (proto.AttrOut.Attr o).

Definition OpenOut_fits (o : proto.OpenOut.t) : Prop :=
  fits 64 (proto.OpenOut.Fh o) /\ fits 32 (proto.OpenOut.OpenFlags o)
  /\ fits 32 (proto.OpenOut.Padding o).

Definition InitOut_fits (o : proto.InitOut.t) : Prop :=
  fits 32 (proto.InitOut.Major o) /\ fits 32 (proto.InitOut.Minor o)
  /\ fits 32 (proto.InitOut.MaxReadahead o) /\ fits 32 (proto.InitOut.Flags o)
  /\ fits 16 (proto.InitOut.MaxBackground o)
  /\ fits 16 (proto.InitOut.CongestionThreshold o)
  /\ fits 32 (proto.InitOut.MaxWrite o) /\ fits 32 (proto.InitOut.TimeGran o)
  /\ fits 16 (proto.InitOut.MaxPages o)
  /\ fits 16 (proto.InitOut.MapAlignment o)
  /\ fits 32 (proto.InitOut.Flags2 o)
  /\ fits 32 (proto.InitOut.MaxStackDepth o).

Definition Kstatfs_fits (k : proto.Kstatfs.t) : Prop :=
  fits 64 (proto.Kstatfs.Blocks k) /\ fits 64 (proto.Kstatfs.Bfree k)
  /\ fits 64 (proto.Kstatfs.Bavail k) /\ fits 64 (proto.Kstatfs.Files k)
  /\ fits 64 (proto.Kstatfs.Ffree k) /\ fits 32 (proto.Kstatfs.Bsize k)
  /\ fits 32 (proto.Kstatfs.Namelen k) /\ fits 32 (proto.Kstatfs.Frsize k).

(** The 88 bytes [writeAttr] produces. *)
Definition attr_bytes (attr : proto.Attr.t) : list byte :=
  le_encode 8 (proto.Attr.Ino attr) ++ le_encode 8 (proto.Attr.Size attr)
  ++ le_encode 8 (proto.Attr.Blocks attr) ++ le_encode 8 (proto.Attr.Atime attr)
  ++ le_encode 8 (proto.Attr.Mtime attr) ++ le_encode 8 (proto.Attr.Ctime attr)
  ++ le_encode 4 (proto.Attr.AtimeNsec attr)
  ++ le_encode 4 (proto.Attr.MtimeNsec attr)
  ++ le_encode 4 (proto.Attr.CtimeNsec attr)
  ++ le_encode 4 (proto.Attr.Mode attr) ++ le_encode 4 (proto.Attr.Nlink attr)
  ++ le_encode 4 (proto.Attr.Uid attr) ++ le_encode 4 (proto.Attr.Gid attr)
  ++ le_encode 4 (proto.Attr.Rdev attr) ++ le_encode 4 (proto.Attr.Blksize attr)
  ++ le_encode 4 (proto.Attr.Flags attr).

(** ** Example values *)

Module Example.

(** A request with an opcode the protocol does not define. *)
Definition req_unknown : request.t :=
  Sample.kernel_request 99 21 1 [] [].

Definition attr : proto.Attr.t :=
  proto.Attr.mk 2 13 1 1700000000 1700000001 1700000002 5 6 7
                (Z.lor proto.ModeRegular 420) 1 1000 1000 0 4096 0.

Definition entry_out : proto.EntryOut.t :=
  proto.EntryOut.mk 2 7 60 60 0 500000000 attr.

Definition attr_out : proto.AttrOut.t := proto.AttrOut.mk 1 0 0 attr.

Definition open_out : proto.OpenOut.t :=
  proto.OpenOut.mk 18446744073709551615 2 0.

Definition init_out : proto.InitOut.t :=
  proto.InitOut.mk 7 41 131072 1 12 9 131072 1 32 0 0 0.

Definition statfs_out : proto.StatfsOut.t :=
  proto.StatfsOut.mk (proto.Kstatfs.mk 1000 0 0 3 0 4096 255 4096).

End Example.

(** ** File types on the wire *)

(** [proto.ModeTypeMask], the mask of the file-type bits of [Attr.Mode]. *)
Definition ModeTypeMask : Z := 61440. (* octal 0170000 *)

(** What [os.ModeDevice | os.ModeCharDevice | perm] stands for: a character
    device as package os describes it. *)
Definition char_device (perm : Z) : Z :=
  Z.lor (Z.lor os.ModeDevice os.ModeCharDevice) (Z.land perm os.ModePerm).

(** ** Values of the host types *)

(** The fields of an [Attr] that go to the wire unconverted hold values of
    their Go types ([uint64] sizes, [uint32] counts and ids). *)
Definition Attr_typed (a : Attr.t) : Prop :=
  fits 64 (Attr.Size a) /\ fits 64 (Attr.Blocks a)
  /\ fits 32 (Attr.Nlink a) /\ fits 32 (Attr.Uid a) /\ fits 32 (Attr.Gid a)
  /\ fits 32 (Attr.Rdev a) /\ fits 32 (Attr.Blksize a).

Definition Entry_typed (e : Entry.t) : Prop :=
  fits 64 (Entry.Generation e) /\ Attr_typed (Entry.Attr e).

(** ** More example requests *)

Module Example2.

(** LOOKUP of [hello.txt] under the root. *)
Definition req_lookup : request.t :=
  Sample.kernel_request proto.OpLookup 30 1 (MyFS.hello_txt ++ [x00]) [].

(** READ of five bytes of inode 2 from offset 7. *)
Definition req_read : request.t :=
  Sample.kernel_request proto.OpRead 31 2
    (le_encode 8 0 ++ le_encode 8 7 ++ le_encode 4 5 ++ le_encode 4 0
     ++ le_encode 8 0 ++ le_encode 4 0 ++ le_encode 4 0) [].

(** READDIR of the root from the start, with room for 4096 bytes. *)
Definition req_readdir : request.t :=
  Sample.kernel_request proto.OpReaddir 32 1
    (le_encode 8 0 ++ le_encode 8 0 ++ le_encode 4 4096 ++ le_encode 4 0
     ++ le_encode 8 0 ++ le_encode 4 0 ++ le_encode 4 0) [].

End Example2.

(** The server with its two lifecycle flags replaced. *)
Definition with_lifecycle (initialized destroyed : bool) (s : Server.t)
  : Server.t :=
  Server.mk (Server.conn s) (Server.config s) (Server.opts s)
            initialized destroyed.

(** Two runs that differ at most in the lifecycle flags of the server
    they end with. *)
Definition same_run {St A : Type} (r r' : Res (St := St) A) : Prop :=
  res_trace r' = res_trace r
  /\ fsstate (res_world r') = fsstate (res_world r)
  /\ Server.conn (server (res_world r')) = Server.conn (server (res_world r))
  /\ Server.config (server (res_world r'))
     = Server.config (server (res_world r))
  /\ Server.opts (server (res_world r')) = Server.opts (server (res_world r))
  /\ match r, r' with
     | Ok _ _ _, Ok _ _ _ => True
     | Panic _ _, Panic _ _ => True
     | _, _ => False
     end.

(** ** READDIRPLUS records *)

(** The size of a READDIRPLUS record: the 128-byte EntryOut, the 24-byte
    Dirent prefix and the name, rounded up to a multiple of eight. *)
Definition direntPlusPadded (e : DirEntryPlus.t) : Z :=
  Z.land (152 + len (DirEntryPlus.Name e) + 7) (Z.lnot 7).

(** The record itself: the entry as [entryOutBytes] lays it out, then
    inode, generation, name length and type, the name, and zeros. *)
Definition direntPlusRecord (e : DirEntryPlus.t) : list byte :=
  entryOutBytes (entryToProto (DirEntryPlus.Entry e))
  ++ le_encode 8 (Entry.Ino (DirEntryPlus.Entry e))
  ++ le_encode 8 (Entry.Generation (DirEntryPlus.Entry e))
  ++ le_encode 4 (len (DirEntryPlus.Name e))
  ++ le_encode 4 (fileModeToType (Attr.Mode (Entry.Attr (DirEntryPlus.Entry e))))
  ++ DirEntryPlus.Name e
  ++ repeat x00 (Z.to_nat (direntPlusPadded e - 152
                           - len (DirEntryPlus.Name e))).

(** Cumulative size of a list of items, and the longest prefix whose
    cumulative size stays within [room]. *)
Fixpoint total_size {A : Type} (size : A -> Z) (es : list A) : Z :=
  match es with
  | [] => 0
  | e :: r => size e + total_size size r
  end.

Fixpoint fit {A : Type} (size : A -> Z) (es : list A) (room : Z) : list A :=
  match es with
  | [] => []
  | e :: r =>
    if size e <=? room then e :: fit size r (room - size e) else []
  end.

(** ** The buffer pool and the reading of requests *)

(** [proto.MinBufferSize] *)
Definition MinBufferSize : Z := 8192.

(** [syscall.ENODEV] *)
Definition ENODEV : Z := 19.

(** A [bufferPool]: the buffers its [sync.Pool] holds at the moment, and
    the buffer size. *)
Module bufferPool.
Record t := mk { free : list (list byte); size : Z }.
End bufferPool.

(** [newBufferPool] *)
Definition newBufferPool (size : Z) : bufferPool.t :=
  let size := if size <? MinBufferSize then MinBufferSize else size in
  bufferPool.mk [] size.

(** The list without its [i]-th element, with that element. *)
Fixpoint take {A : Type} (l : list A) (i : nat) : option (A * list A) :=
  match l, i with
  | [], _ => None
  | x :: r, O => Some (x, r)
  | x :: r, S j =>
    match take r j with
    | Some (y, r') => Some (y, x :: r')
    | None => None
    end
  end.

(** [p.get()]: [sync.Pool.Get] hands out a buffer of the pool, whichever
    the runtime picks, and a freshly made one ([New]) when it finds
    none. *)
Definition get (p : bufferPool.t) (pick : option nat)
  : list byte * bufferPool.t :=
  let fresh := (make (bufferPool.size p), p) in
  match pick with
  | None => fresh
  | Some i =>
    match take (bufferPool.free p) i with
    | Some (buf, rest) => (buf, bufferPool.mk rest (bufferPool.size p))
    | None => fresh
    end
  end.

(** [p.put(buf)], for a slice [buf] showing [data] of a backing array that
    goes on with [spare]: [cap(buf)] is the length of both. *)
Definition put (p : bufferPool.t) (data spare : list byte) : bufferPool.t :=
  if len data + len spare =? bufferPool.size p then
    let buf := firstn (Z.to_nat (bufferPool.size p)) (data ++ spare) in
    bufferPool.mk (buf :: bufferPool.free p) (bufferPool.size p)
  else p.

(** What happens to a pool: a [get], a [put], or the runtime dropping one
    of the pooled buffers, as [sync.Pool] may at any time. *)
Inductive pool_op : Type :=
| Get (pick : option nat)
| Put (data spare : list byte)
| Drop (i : nat).

(** The buffers handed out by the [get]s of a sequence of operations, and
    the pool after it. *)
Fixpoint run_pool (ops : list pool_op) (p : bufferPool.t)
  : list (list byte) * bufferPool.t :=
  match ops with
  | [] => ([], p)
  | Get pick :: r =>
    let '(buf, p1) := get p pick in
    let '(out, p2) := run_pool r p1 in
    (buf :: out, p2)
  | Put data spare :: r => run_pool r (put p data spare)
  | Drop i :: r =>
    let p1 := match take (bufferPool.free p) i with
              | Some (_, rest) => bufferPool.mk rest (bufferPool.size p)
              | None => p
              end in
    run_pool r p1
  end.

(** What [syscall.Read] did: the kernel stored [bytes] at the start of the
    buffer, and the call returned their number, or failed with an errno
    ([bytes] being what the kernel had copied by then: nothing, when the
    call fails before it copies). *)
Inductive read_result : Type :=
| ReadOk (bytes : list byte)
| ReadErr (errno : Z) (bytes : list byte).

(** The bytes the kernel stored. *)
Definition read_bytes (rd : read_result) : list byte :=
  match rd with
  | ReadOk bytes => bytes
  | ReadErr _ bytes => bytes
  end.

(** The buffer [buf] once [bytes] have been stored at its start. *)
Definition stored (bytes buf : list byte) : list byte :=
  bytes ++ skipn (length bytes) buf.

(** The errors of [readRequest]. *)
Inductive read_error : Type :=
| ErrNotMounted
| ErrUnexpectedEOF
| ErrSyscall (errno : Z).

(** [readRequest]: [syscall.Read] writes into the pooled buffer, so the
    buffer that is put back on an error or a short read, and the backing
    array of the request returned, start with the bytes read; the request
    is the slice [buf[:n]], and what the buffer held beyond it stays behind
    it. *)
Definition readRequest (pool : bufferPool.t) (pick : option nat)
  (rd : read_result) : (request.t + read_error) * bufferPool.t :=
  let '(buf, pool) := get pool pick in
  let buf := stored (read_bytes rd) buf in
  match rd with
  | ReadErr err _ =>
    let pool := put pool buf [] in
    if err =? ENODEV then (inr ErrNotMounted, pool)
    else (inr (ErrSyscall err), pool)
  | ReadOk bytes =>
    let n := len bytes in
    if n <? proto.InHeaderSize then
      (inr ErrUnexpectedEOF, put pool buf [])
    else
      (inl (request.mk (firstn (Z.to_nat n) buf) (skipn (Z.to_nat n) buf)),
       pool)
  end.

(** [r.release()], for a request that still holds its buffer ([Some]) or
    has given it back ([None], [r.data == nil]): the slice returned to the
    pool is [r.data[:cap(r.data)]], the whole backing array. *)
Definition release (pool : bufferPool.t) (r : option request.t)
  : bufferPool.t * option request.t :=
  match r with
  | Some req => (put pool (mem req) [], None)
  | None => (pool, None)
  end.

(** Every pooled buffer has the pool's size, which is at least
    [MinBufferSize]. *)
Definition pool_ok (p : bufferPool.t) : Prop :=
  MinBufferSize <= bufferPool.size p
  /\ Forall (fun b => len b = bufferPool.size p) (bufferPool.free p).

(** A pool holding one used buffer of 8192 bytes. *)
Definition used_pool : bufferPool.t :=
  bufferPool.mk [repeat xff (Z.to_nat 8192)] 8192.

(** ** Mounting, unmounting and the device descriptor *)

(** What the operating system is asked to do. *)
Inductive sys_event : Type :=
| SysOpen (fd : Z)                  (* open of /dev/fuse, giving [fd] *)
| SysIoctlClone (fd master : Z)     (* FUSE_DEV_IOC_CLONE on [fd] *)
| SysClose (fd : Z)
| SysUnmount                        (* [unmount(s.mountPoint)] *)
| CtxCancel.                        (* [s.cancel()] *)

(** [newConnection] *)
Definition newConnection (fd : Z) : connection.t :=
  connection.mk fd true 0 0.

(** [c.close()], where [syscall.Close] answers [err]. *)
Definition close (c : connection.t) (err : option Z)
  : list sys_event * connection.t * option Z :=
  if connection.fd c >=? 0 then
    ([SysClose (connection.fd c)],
     connection.mk (-1) (connection.mounted c) (connection.protoMajor c)
                   (connection.protoMinor c),
     err)
  else ([], c, None).

(** [s.Unmount()], where [unmount] answers [unmount_err] and
    [syscall.Close] answers [close_err]. *)
Definition Unmount (s : Server.t) (unmount_err close_err : option Z)
  : list sys_event * Server.t * option Z :=
  let err := unmount_err in
  let '(ev, conn, _) := close (Server.conn s) close_err in
  ([CtxCancel; SysUnmount] ++ ev,
   Server.mk conn (Server.config s) (Server.opts s) (Server.initialized s)
             (Server.destroyed s),
   err).

(** The zero [MountOptions]. *)
Definition zero_options : MountOptions.t :=
  MountOptions.mk false 0 0 0 false false false false [] [].

(** The defaults [Mount] writes into the options it is given. *)
Definition set_defaults (opts : MountOptions.t) : MountOptions.t :=
  let ra := if MountOptions.MaxReadahead opts =? 0
            then proto.DefaultMaxReadahead
            else MountOptions.MaxReadahead opts in
  let mw := if MountOptions.MaxWrite opts =? 0
            then proto.DefaultMaxWrite else MountOptions.MaxWrite opts in
  let mb := if MountOptions.MaxBackground opts =? 0
            then proto.DefaultMaxBackground
            else MountOptions.MaxBackground opts in
  MountOptions.mk (MountOptions.Debug opts) ra mw mb
    (MountOptions.DirectMount opts) (MountOptions.AllowOther opts)
    (MountOptions.DefaultPermissions opts) (MountOptions.ReadOnly opts)
    (MountOptions.FSName opts) (MountOptions.Subtype opts).

(** [Mount], where [mount] answers a descriptor ([inl]) or an error
    ([inr]): the options as [Mount] leaves them, and on success the
    server with its buffer pool. *)
Definition Mount (opts : option MountOptions.t) (mounted : Z + error)
  : MountOptions.t * (Server.t * bufferPool.t + error) :=
  let opts := match opts with
              | None => zero_options
              | Some opts => opts
              end in
  let opts := set_defaults opts in
  match mounted with
  | inr err => (opts, inr err)
  | inl fd =>
    let s := Server.mk (newConnection fd) None opts false false in
    let bufPool :=
      newBufferPool (MountOptions.MaxWrite opts + proto.InHeaderSize + 4096) in
    (opts, inl (s, bufPool))
  end.

(** ** Cloning the device descriptor *)

(** How one [CloneFuseFD] goes: the open fails, the ioctl on the
    descriptor opened fails, or both succeed. *)
Inductive clone_outcome : Type :=
| OpenFails
| IoctlFails (fd : Z)
| Cloned (fd : Z).

(** [CloneFuseFD]: what it asks of the system, and the descriptor or
    nothing. *)
Definition CloneFuseFD (masterFd : Z) (o : clone_outcome)
  : list sys_event * option Z :=
  match o with
  | OpenFails => ([], None)
  | IoctlFails fd =>
    ([SysOpen fd; SysIoctlClone fd (u32 masterFd); SysClose fd], None)
  | Cloned fd => ([SysOpen fd; SysIoctlClone fd (u32 masterFd)], Some fd)
  end.

(** The loop of [CloneMultiple], [outcome i] telling how the [i]-th clone
    goes. *)
Fixpoint CloneMultiple_loop (masterFd : Z) (outcome : nat -> clone_outcome)
  (remaining i : nat) (fds : list Z) : list sys_event * option (list Z) :=
  match remaining with
  | O => ([], Some fds)
  | S remaining' =>
    let '(ev, fd) := CloneFuseFD masterFd (outcome i) in
    match fd with
    | None => (ev ++ map SysClose fds, None)
    | Some fd =>
      let '(ev', r) :=
        CloneMultiple_loop masterFd outcome remaining' (S i) (fds ++ [fd]) in
      (ev ++ ev', r)
    end
  end.

(** [CloneMultiple]; [make([]int, 0, count)] panics for a negative
    [count] ([None]). *)
Definition CloneMultiple (masterFd count : Z) (outcome : nat -> clone_outcome)
  : option (list sys_event * option (list Z)) :=
  if count <? 0 then None
  else Some (CloneMultiple_loop masterFd outcome (Z.to_nat count) 0 []).

(** [CloseAll] *)
Definition CloseAll (fds : list Z) : list sys_event :=
  flat_map (fun fd => if fd >=? 0 then [SysClose fd] else []) fds.

(** The descriptors a run opened, and those it closed. *)
Definition opened (ev : list sys_event) : list Z :=
  flat_map (fun e => match e with SysOpen fd => [fd] | _ => [] end) ev.

Definition closed (ev : list sys_event) : list Z :=
  flat_map (fun e => match e with SysClose fd => [fd] | _ => [] end) ev.

(** ** One more request *)

(** STATFS of the root. *)
Definition req_statfs : request.t :=
  Sample.kernel_request proto.OpStatfs 33 1 [] [].

(** * Properties *)

(** ** Bytes and little-endian fields *)

Lemma Z_of_byte_range (b : byte) : 0 <= Z_of_byte b < 256.
Proof.
  unfold Z_of_byte. pose proof (Byte.to_N_bounded b) as H. lia.
Qed.

Lemma byte_of_Z_of_byte (b : byte) : byte_of_Z (Z_of_byte b) = b.
Proof.
  unfold byte_of_Z, Z_of_byte.
  rewrite Z.mod_small by (pose proof (Byte.to_N_bounded b); lia).
  rewrite N2Z.id. now rewrite Byte.of_to_N.
Qed.

Lemma Z_of_byte_of_Z (z : Z) : Z_of_byte (byte_of_Z z) = z mod 256.
Proof.
  unfold byte_of_Z, Z_of_byte.
  pose proof (Z.mod_pos_bound z 256 ltac:(lia)) as Hr.
  destruct (Byte.of_N (Z.to_N (z mod 256))) as [b|] eqn:E.
  - apply Byte.to_of_N in E. rewrite E. lia.
  - apply Byte.of_N_None_iff in E. lia.
Qed.

Lemma byte_of_Z_mod (z : Z) : byte_of_Z (z mod 256) = byte_of_Z z.
Proof. unfold byte_of_Z. now rewrite Z.mod_mod by lia. Qed.

Lemma length_le_encode (n : nat) (v : Z) : length (le_encode n v) = n.
Proof. revert v. induction n; intros; simpl; [reflexivity | now rewrite IHn]. Qed.

Lemma le_decode_range (bs : list byte) :
  0 <= le_decode bs < 2 ^ (8 * Z.of_nat (length bs)).
Proof.
  induction bs as [|b r IH]; [simpl; lia|].
  change (le_decode (b :: r)) with (Z_of_byte b + 256 * le_decode r).
  pose proof (Z_of_byte_range b).
  replace (8 * Z.of_nat (length (b :: r))) with (8 + 8 * Z.of_nat (length r))
    by (simpl length; lia).
  rewrite Z.pow_add_r by lia. change (2 ^ 8) with 256. nia.
Qed.

Lemma le_decode_encode (n : nat) (v : Z) :
  le_decode (le_encode n v) = v mod 2 ^ (8 * Z.of_nat n).
Proof.
  revert v. induction n as [|n IH]; intros v.
  - simpl. now rewrite Z.mod_1_r.
  - change (le_decode (le_encode (S n) v))
      with (Z_of_byte (byte_of_Z v) + 256 * le_decode (le_encode n (v / 256))).
    rewrite IH, Z_of_byte_of_Z.
    replace (8 * Z.of_nat (S n)) with (8 + 8 * Z.of_nat n) by lia.
    rewrite Z.pow_add_r by lia. change (2 ^ 8) with 256.
    rewrite Z.rem_mul_r by (try lia; apply Z.pow_nonzero; lia). reflexivity.
Qed.

Lemma le_encode_mod (n : nat) (v : Z) :
  le_encode n (v mod 2 ^ (8 * Z.of_nat n)) = le_encode n v.
Proof.
  revert v. induction n as [|n IH]; intros v; [reflexivity|].
  replace (8 * Z.of_nat (S n)) with (8 + 8 * Z.of_nat n) by lia.
  rewrite Z.pow_add_r by lia. change (2 ^ 8) with 256.
  assert (Hp : 0 < 2 ^ (8 * Z.of_nat n)) by (apply Z.pow_pos_nonneg; lia).
  set (c := 2 ^ (8 * Z.of_nat n)) in *.
  assert (Hm : (v mod (256 * c)) mod 256 = v mod 256).
  { rewrite Z.rem_mul_r by lia.
    rewrite (Z.mul_comm 256), Z.mod_add by lia.
    apply Z.mod_mod. lia. }
  assert (Hd : (v mod (256 * c)) / 256 = (v / 256) mod c).
  { rewrite Z.rem_mul_r by lia.
    rewrite (Z.mul_comm 256), Z.div_add by lia.
    rewrite (Z.div_small (v mod 256)) by (apply Z.mod_pos_bound; lia).
    apply Z.add_0_l. }
  cbn [le_encode]. f_equal.
  - rewrite <- (byte_of_Z_mod (v mod (256 * c))), Hm. apply byte_of_Z_mod.
  - rewrite Hd. apply IH.
Qed.

Lemma le_encode_u32 (v : Z) : le_encode 4 (u32 v) = le_encode 4 v.
Proof. exact (le_encode_mod 4 v). Qed.

Lemma le_encode_u64 (v : Z) : le_encode 8 (u64 v) = le_encode 8 v.
Proof. exact (le_encode_mod 8 v). Qed.

Lemma le_encode_decode (bs : list byte) :
  le_encode (length bs) (le_decode bs) = bs.
Proof.
  induction bs as [|b r IH]; [reflexivity|].
  change (le_encode (length (b :: r)) (le_decode (b :: r)))
    with (byte_of_Z (Z_of_byte b + 256 * le_decode r)
          :: le_encode (length r) ((Z_of_byte b + 256 * le_decode r) / 256)).
  pose proof (Z_of_byte_range b).
  f_equal.
  - rewrite <- byte_of_Z_mod.
    rewrite (Z.mul_comm 256), Z.mod_add by lia.
    rewrite Z.mod_small by lia. apply byte_of_Z_of_byte.
  - rewrite (Z.mul_comm 256), Z.div_add by lia.
    rewrite Z.div_small by lia. assumption.
Qed.

(** ** Slices, stores and loads *)

Lemma len_app {A : Type} (a b : list A) : len (a ++ b) = len a + len b.
Proof. unfold len. rewrite length_app. lia. Qed.

Lemma length_make (n : Z) : length (make n) = Z.to_nat n.
Proof. apply repeat_length. Qed.

Lemma length_store (data : list byte) (off : nat) (bs : list byte) :
  (off + length bs <= length data)%nat ->
  length (store data off bs) = length data.
Proof.
  intros H. unfold store.
  rewrite !length_app, length_firstn, length_skipn. lia.
Qed.

Lemma store_app_l (a b : list byte) (off : nat) (bs : list byte) :
  (off + length bs <= length a)%nat ->
  store (a ++ b) off bs = store a off bs ++ b.
Proof.
  intros H. unfold store.
  rewrite firstn_app, skipn_app.
  replace (off - length a)%nat with 0%nat by lia.
  replace (off + length bs - length a)%nat with 0%nat by lia.
  simpl. rewrite app_nil_r, <- !app_assoc. reflexivity.
Qed.

Lemma store_app_r (a b : list byte) (bs : list byte) :
  length bs = length b ->
  store (a ++ b) (length a) bs = a ++ bs.
Proof.
  intros H. unfold store.
  rewrite firstn_app, Nat.sub_diag, firstn_all. simpl. rewrite app_nil_r.
  rewrite skipn_all2 by (rewrite length_app; lia).
  now rewrite app_nil_r.
Qed.

Lemma store_app_r' (a b : list byte) (bs : list byte) (off : nat) :
  off = length a -> length bs = length b ->
  store (a ++ b) off bs = a ++ bs.
Proof. intros -> H. now apply store_app_r. Qed.

Lemma load_app_skip (n : nat) (a b : list byte) (off : nat) :
  (length a <= off)%nat ->
  load n (a ++ b) off = load n b (off - length a).
Proof.
  intros H. unfold load. rewrite skipn_app.
  rewrite skipn_all2 by lia. reflexivity.
Qed.

Lemma load_app_here (n : nat) (x r : list byte) :
  length x = n -> load n (x ++ r) 0 = le_decode x.
Proof.
  intros H. unfold load. simpl skipn.
  rewrite firstn_app, firstn_all2 by lia.
  replace (n - length x)%nat with 0%nat by lia.
  simpl. now rewrite app_nil_r.
Qed.

(** ** Frames *)

Lemma newErrorResponse_layout (req : request.t) (errno : Z) :
  newErrorResponse req errno =
  le_encode 4 16 ++ le_encode 4 errno
  ++ le_encode 8 (proto.InHeader.Unique (header req)).
Proof.
  unfold newErrorResponse, PutUint32, PutUint64.
  rewrite !le_encode_u32. reflexivity.
Qed.

Lemma error_frame_fields (req : request.t) (errno : Z) :
  length (newErrorResponse req errno) = 16%nat
  /\ frame_len (newErrorResponse req errno) = 16
  /\ frame_error (newErrorResponse req errno) = i32 errno
  /\ frame_unique (newErrorResponse req errno)
     = proto.InHeader.Unique (header req) mod 2 ^ 64.
Proof.
  rewrite newErrorResponse_layout.
  unfold frame_len, frame_error, frame_unique.
  split; [|split; [|split]].
  - rewrite !length_app, !length_le_encode. reflexivity.
  - rewrite load_app_here by reflexivity. reflexivity.
  - rewrite load_app_skip by (simpl; lia).
    rewrite load_app_here by reflexivity.
    rewrite le_decode_encode. unfold i32.
    change (2 ^ (8 * Z.of_nat 4)) with (2 ^ 32).
    now rewrite Z.add_mod_idemp_l by lia.
  - rewrite load_app_skip by (simpl; lia).
    rewrite load_app_skip by (simpl; lia).
    change (8 - length (le_encode 4 16) - length (le_encode 4 errno))%nat
      with 0%nat.
    rewrite <- (app_nil_r (le_encode 8 _)).
    rewrite load_app_here by reflexivity.
    now rewrite le_decode_encode.
Qed.

Lemma load_range (n : nat) (m : list byte) (off : nat) :
  0 <= load n m off < 2 ^ (8 * Z.of_nat n).
Proof.
  unfold load.
  pose proof (le_decode_range (firstn n (skipn off m))) as H.
  assert (Hl : (length (firstn n (skipn off m)) <= n)%nat)
    by (rewrite length_firstn; lia).
  assert (2 ^ (8 * Z.of_nat (length (firstn n (skipn off m))))
          <= 2 ^ (8 * Z.of_nat n))
    by (apply Z.pow_le_mono_r; lia).
  lia.
Qed.

Lemma Unique_range (req : request.t) :
  0 <= proto.InHeader.Unique (header req) < 2 ^ 64.
Proof. exact (load_range 8 (mem req) 8). Qed.

Lemma Opcode_range (req : request.t) :
  0 <= proto.InHeader.Opcode (header req) < 2 ^ 32.
Proof. exact (load_range 4 (mem req) 4). Qed.

Lemma length_success_header (req : request.t) (n : Z) :
  length (success_header req n) = 16%nat.
Proof. unfold success_header. rewrite !length_app, !length_le_encode. reflexivity. Qed.

Lemma newResponse_layout (req : request.t) (n : nat) :
  newResponse req (Z.of_nat n) = success_header req (Z.of_nat n) ++ repeat x00 n.
Proof.
  unfold newResponse, make, proto.OutHeaderSize.
  replace (Z.to_nat (16 + Z.of_nat n)) with (16 + n)%nat by lia.
  rewrite repeat_app.
  unfold PutUint32, PutUint64.
  rewrite !le_encode_u32.
  rewrite store_app_l by (rewrite repeat_length; simpl; lia).
  rewrite store_app_l by (rewrite length_store; rewrite repeat_length; simpl; lia).
  rewrite store_app_l
    by (rewrite !length_store; rewrite ?length_store; rewrite ?repeat_length; simpl; lia).
  f_equal.
Qed.

Lemma response_bytes_layout (req : request.t) (payload : list byte) :
  response_bytes req payload = success_header req (len payload) ++ payload.
Proof.
  unfold response_bytes, len. rewrite newResponse_layout.
  destruct payload as [|b r].
  - reflexivity.
  - replace (Z.of_nat (length (b :: r)) >? 0) with true
      by (symmetry; apply Z.gtb_lt; simpl length; lia).
    unfold copy_at, proto.OutHeaderSize.
    change (Z.to_nat 16) with 16%nat.
    rewrite length_app, length_success_header, repeat_length.
    replace (16 + length (b :: r) - 16)%nat with (length (b :: r)) by lia.
    rewrite firstn_all.
    apply store_app_r'.
    + now rewrite length_success_header.
    + now rewrite repeat_length.
Qed.

Lemma success_frame_fields (req : request.t) (payload : list byte) :
  len (response_bytes req payload) = 16 + len payload
  /\ frame_len (response_bytes req payload) = (16 + len payload) mod 2 ^ 32
  /\ frame_error (response_bytes req payload) = 0
  /\ frame_unique (response_bytes req payload)
     = proto.InHeader.Unique (header req)
  /\ frame_payload (response_bytes req payload) = payload.
Proof.
  rewrite response_bytes_layout.
  unfold frame_len, frame_error, frame_unique, frame_payload, success_header.
  split; [|split; [|split; [|split]]].
  - unfold len. rewrite !length_app, !length_le_encode. lia.
  - rewrite <- !app_assoc. rewrite load_app_here by reflexivity.
    now rewrite le_decode_encode.
  - rewrite <- !app_assoc. rewrite load_app_skip by (simpl; lia).
    rewrite load_app_here by reflexivity. reflexivity.
  - rewrite <- !app_assoc.
    rewrite load_app_skip by (simpl; lia).
    rewrite load_app_skip by (simpl; lia).
    rewrite length_le_encode.
    change (8 - length (le_encode 4 (16 + len payload)) - 4)%nat with 0%nat.
    rewrite load_app_here by reflexivity.
    rewrite le_decode_encode. apply Z.mod_small. apply Unique_range.
  - unfold slice_from, proto.OutHeaderSize. change (Z.to_nat 16) with 16%nat.
    rewrite skipn_app.
    rewrite skipn_all2 by (rewrite !length_app, !length_le_encode; simpl; lia).
    rewrite !length_app, !length_le_encode. reflexivity.
Qed.

(** ** Timeouts *)

(** C9.  For every timeout duration [d] -- a timeout is not negative, so
    the whole non-negative range of [time.Duration], 0 <= d < 2^63
    nanoseconds -- [durationToTimespec] yields the quotient and remainder
    of [d] by one second (truncating division, which is floor division
    there), the nanosecond part is below one second, and reading the pair
    back as [sec * 1s + nsec * 1ns] yields [d] again.  No [time.Duration]
    reaches 2^64 seconds, so the identity holds for every duration up to
    that bound. *)
Theorem duration_roundtrip (d : Z) :
  0 <= d < 2 ^ 63 ->
  durationToTimespec d = (d / time.Second, d mod time.Second)
  /\ 0 <= snd (durationToTimespec d) < time.Second
  /\ timespecToDuration (durationToTimespec d) = d.
Proof.
  intros Hd. unfold durationToTimespec, timespecToDuration, time.Nanosecond.
  rewrite Z.quot_1_r.
  rewrite Z.quot_div_nonneg, Z.rem_mod_nonneg by (unfold time.Second; lia).
  assert (Hs : time.Second = 1000000000) by reflexivity.
  pose proof (Z.mod_pos_bound d time.Second ltac:(lia)) as Hm.
  pose proof (Z.div_pos d time.Second ltac:(lia) ltac:(lia)) as Hq.
  assert (Hq' : d / time.Second <= d)
    by (apply Z.div_le_upper_bound; nia).
  assert (E1 : u64 (d / time.Second) = d / time.Second)
    by (apply Z.mod_small; lia).
  assert (E2 : u32 (d mod time.Second) = d mod time.Second)
    by (apply Z.mod_small; lia).
  rewrite E1, E2. cbn [fst snd].
  split; [reflexivity | split; [lia|]].
  rewrite Z.mul_1_r, Z.mul_comm, <- Z.div_mod by lia.
  unfold i64. rewrite Z.mod_small by lia. lia.
Qed.

Lemma duration_roundtrip_witness :
  0 <= 90 * time.Second + 5 < 2 ^ 63
  /\ (durationToTimespec (90 * time.Second + 5)
      = ((90 * time.Second + 5) / time.Second,
         (90 * time.Second + 5) mod time.Second)
      /\ 0 <= snd (durationToTimespec (90 * time.Second + 5)) < time.Second
      /\ timespecToDuration (durationToTimespec (90 * time.Second + 5))
         = 90 * time.Second + 5).
Proof.
  split; [vm_compute; split; congruence|].
  apply (duration_roundtrip (90 * time.Second + 5)).
  vm_compute; split; congruence.
Defined.

(** What [durationToTimespec] does with a negative [time.Duration], which
    is no timeout: one nanosecond before zero converts to
    [(0, 4294967295)], which reads back as about 4.29 seconds. *)
Lemma duration_roundtrip_negative :
  durationToTimespec (-1) = (0, 4294967295)
  /\ timespecToDuration (durationToTimespec (-1)) <> -1.
Proof. split; [reflexivity | vm_compute; discriminate]. Qed.

(** ** Error numbers *)

Lemma i32_range (z : Z) : - 2 ^ 31 <= i32 z < 2 ^ 31.
Proof.
  unfold i32. pose proof (Z.mod_pos_bound (z + 2 ^ 31) (2 ^ 32) ltac:(lia)). lia.
Qed.

Lemma i32_small (z : Z) : - 2 ^ 31 <= z < 2 ^ 31 -> i32 z = z.
Proof. intros H. unfold i32. rewrite Z.mod_small by lia. lia. Qed.

Lemma i32_neg_nonpos (e : Z) : 0 <= e <= 2 ^ 31 -> i32 (- i32 e) <= 0.
Proof.
  intros H. destruct (Z.eq_dec e (2 ^ 31)) as [->|Hne].
  - vm_compute. discriminate.
  - rewrite (i32_small e) by lia. rewrite i32_small by lia. lia.
Qed.

Lemma toErrno_range (err : option error) :
  - 2 ^ 31 <= toErrno err < 2 ^ 31.
Proof.
  destruct err as [[e| | | | | | | | |]|]; cbn [toErrno];
    try apply i32_range; lia.
Qed.

Lemma toErrno_nonpos (err : error) :
  (forall e, err = Errno e -> 0 <= e <= 2 ^ 31) ->
  toErrno (Some err) <= 0.
Proof.
  intros H. destruct err as [e| | | | | | | | |]; cbn [toErrno];
    [apply i32_neg_nonpos; now apply H | vm_compute; discriminate ..].
Qed.

(** ** Response frames *)

Section Frames.

Context {St : Type}.
Variable fs : Filesystem.t St.

Lemma sendResponse_run (req : request.t) (payload : list byte)
  (w : World (St := St)) :
  sendResponse req payload w = Ok tt w [DevWrite (response_bytes req payload)].
Proof. reflexivity. Qed.

Lemma sendError_run (req : request.t) (err : error) (w : World (St := St)) :
  sendError req err w =
  if (proto.InHeader.Opcode (header req) =? proto.OpForget)
     || (proto.InHeader.Opcode (header req) =? proto.OpBatchForget)
  then Ok tt w []
  else Ok tt w [DevWrite (error_bytes req err)].
Proof.
  unfold sendError.
  destruct ((proto.InHeader.Opcode (header req) =? proto.OpForget)
            || (proto.InHeader.Opcode (header req) =? proto.OpBatchForget));
    reflexivity.
Qed.

(** The frames the code builds.  Every frame [sendResponse] builds for a
    request starts with an OutHeader whose [unique] is the request's and
    whose [error] is 0; the frame is 16 bytes plus the payload, which
    follows the header unchanged, and its [len] field holds that length
    modulo 2^32, so the length itself as long as the frame is shorter than
    2^32 bytes.  Every frame [sendError] builds is exactly 16 bytes long,
    carries the request's [unique] and [len] = 16, and its [error] is the
    [int32] computed by [toErrno]; that value is 0 or negative whenever
    the error is not a [syscall.Errno] above 2^31. *)
Theorem response_frames_wellformed (req : request.t) (w : World (St := St)) :
  (forall payload f,
      In f (frames (res_trace (sendResponse (St := St) req payload w))) ->
      frame_unique f = proto.InHeader.Unique (header req)
      /\ len f = 16 + len payload
      /\ frame_len f = (16 + len payload) mod 2 ^ 32
      /\ (16 + len payload < 2 ^ 32 -> frame_len f = len f)
      /\ frame_error f = 0
      /\ frame_payload f = payload)
  /\ (forall err f,
      In f (frames (res_trace (sendError (St := St) req err w))) ->
      frame_unique f = proto.InHeader.Unique (header req)
      /\ len f = 16
      /\ frame_len f = len f
      /\ frame_error f = toErrno (Some err)
      /\ ((forall e, err = Errno e -> 0 <= e <= 2 ^ 31) ->
          frame_error f <= 0)).
Proof.
  split.
  - intros payload f Hin. rewrite sendResponse_run in Hin.
    cbn [frames res_trace flat_map app In] in Hin. destruct Hin as [<-|[]].
    destruct (success_frame_fields req payload) as (Hl & Hlen & He & Hu & Hp).
    split; [exact Hu|]. split; [exact Hl|]. split; [exact Hlen|].
    split; [|split; [exact He|exact Hp]].
    intros Hsz. rewrite Hlen, Hl. apply Z.mod_small. unfold len in *. lia.
  - intros err f Hin. rewrite sendError_run in Hin.
    destruct ((proto.InHeader.Opcode (header req) =? proto.OpForget)
              || (proto.InHeader.Opcode (header req) =? proto.OpBatchForget));
      cbn [frames res_trace flat_map app In] in Hin; [contradiction|].
    destruct Hin as [<-|[]]. unfold error_bytes.
    destruct (error_frame_fields req (toErrno (Some err)))
      as (Hl & Hlen & He & Hu).
    assert (He' : frame_error (newErrorResponse req (toErrno (Some err)))
                  = toErrno (Some err))
      by (rewrite He; apply i32_small, toErrno_range).
    split; [|split; [|split; [|split]]].
    + rewrite Hu. apply Z.mod_small, Unique_range.
    + unfold len. rewrite Hl. reflexivity.
    + unfold len. rewrite Hl, Hlen. reflexivity.
    + exact He'.
    + intros Herr. rewrite He'. now apply toErrno_nonpos.
Qed.

End Frames.

Lemma response_frames_wellformed_witness :
  (16 + len MyFS.content < 2 ^ 32
   /\ In (response_bytes Sample.req_getattr MyFS.content)
         (frames (res_trace
            (sendResponse Sample.req_getattr MyFS.content Sample.w0)))
   /\ frame_len (response_bytes Sample.req_getattr MyFS.content) = 29
   /\ frame_error (response_bytes Sample.req_getattr MyFS.content) = 0)
  /\ ((forall e, Errno syscall.ENOENT = Errno e -> 0 <= e <= 2 ^ 31)
      /\ In (error_bytes Sample.req_getattr (Errno syscall.ENOENT))
            (frames (res_trace
               (sendError Sample.req_getattr (Errno syscall.ENOENT) Sample.w0)))
      /\ frame_error (error_bytes Sample.req_getattr (Errno syscall.ENOENT))
         = - syscall.ENOENT).
Proof.
  assert (H1 : 16 + len MyFS.content < 2 ^ 32) by (vm_compute; reflexivity).
  assert (H2 : In (response_bytes Sample.req_getattr MyFS.content)
         (frames (res_trace
            (sendResponse Sample.req_getattr MyFS.content Sample.w0))))
    by (left; reflexivity).
  assert (H3 : forall e, Errno syscall.ENOENT = Errno e -> 0 <= e <= 2 ^ 31)
    by (intros e He; injection He as <-; vm_compute; split; discriminate).
  assert (H4 : In (error_bytes Sample.req_getattr (Errno syscall.ENOENT))
            (frames (res_trace
               (sendError Sample.req_getattr (Errno syscall.ENOENT) Sample.w0))))
    by (left; reflexivity).
  destruct (response_frames_wellformed (St := unit) Sample.req_getattr Sample.w0)
    as [HA HB].
  destruct (HA _ _ H2) as (_ & Hl & _ & Hlen & He & _).
  destruct (HB _ _ H4) as (_ & _ & _ & He' & _).
  split; [split; [exact H1 | split; [exact H2 | split; [|exact He]]]
         | split; [exact H3 | split; [exact H4|]]].
  - rewrite (Hlen H1), Hl. reflexivity.
  - rewrite He'. reflexivity.
Defined.

(** [-int32(errno)] for an errno from 2^31 + 1 up to 2^32 - 1 is
    positive. *)
Lemma toErrno_positive (e : Z) :
  2 ^ 31 < e < 2 ^ 32 -> toErrno (Some (Errno e)) = 2 ^ 32 - e.
Proof.
  intros H. cbn [toErrno].
  assert (E : i32 e = e - 2 ^ 32).
  { unfold i32.
    replace (e + 2 ^ 31) with (e - 2 ^ 31 + 1 * 2 ^ 32) by lia.
    rewrite Z.mod_add by lia. rewrite Z.mod_small by lia. lia. }
  rewrite E. rewrite i32_small by lia. lia.
Qed.

(** C8 (where the code departs from it).  The fields of the OutHeader are
    32 bits wide and the code narrows into them without a check.
    [toErrno], said to return the negative errno for errors, computes
    [-int32(errno)]: for the error [syscall.Errno(4294967295)] that is
    [-(-1)], and the one frame [sendError] writes for the request carries
    the positive error 1, neither 0 nor a negative errno.
    [newResponse] stamps [uint32(size)]: for a payload of 2^32 - 16 bytes
    the frame [sendResponse] writes is 2^32 bytes long and its [len] field
    is 0, not the length of the frame. *)
Theorem response_frame_fields_wrap :
  (toErrno (Some (Errno 4294967295)) = 1
   /\ sendError Sample.req_getattr (Errno 4294967295) Sample.w0
      = Ok tt Sample.w0
           [DevWrite (error_bytes Sample.req_getattr (Errno 4294967295))]
   /\ frame_error (error_bytes Sample.req_getattr (Errno 4294967295)) = 1
   /\ ~ frame_error (error_bytes Sample.req_getattr (Errno 4294967295)) <= 0)
  /\ (sendResponse Sample.req_getattr
        (repeat x00 (Z.to_nat (2 ^ 32 - 16))) Sample.w0
      = Ok tt Sample.w0
           [DevWrite (response_bytes Sample.req_getattr
                        (repeat x00 (Z.to_nat (2 ^ 32 - 16))))]
      /\ len (response_bytes Sample.req_getattr
                (repeat x00 (Z.to_nat (2 ^ 32 - 16)))) = 2 ^ 32
      /\ frame_len (response_bytes Sample.req_getattr
                      (repeat x00 (Z.to_nat (2 ^ 32 - 16)))) = 0
      /\ frame_len (response_bytes Sample.req_getattr
                      (repeat x00 (Z.to_nat (2 ^ 32 - 16))))
         <> len (response_bytes Sample.req_getattr
                   (repeat x00 (Z.to_nat (2 ^ 32 - 16))))).
Proof.
  split.
  - split; [reflexivity|]. split; [reflexivity|].
    assert (E : frame_error
                  (error_bytes Sample.req_getattr (Errno 4294967295)) = 1)
      by reflexivity.
    split; [exact E|]. rewrite E. intros H. now apply H.
  - destruct (success_frame_fields Sample.req_getattr
                (repeat x00 (Z.to_nat (2 ^ 32 - 16)))) as (Hl & Hlen & _).
    assert (E : len (repeat x00 (Z.to_nat (2 ^ 32 - 16))) = 2 ^ 32 - 16)
      by (unfold len; rewrite repeat_length; apply Z2Nat.id; discriminate).
    split; [apply sendResponse_run|].
    rewrite Hl, Hlen, E. repeat split; discriminate.
Qed.

(** ** The read-only policy *)

Section ReadOnly.

Context {St : Type}.
Context {rt : Runtime}.
Variable fs : Filesystem.t St.

Lemma write_set_isWriteOp (opcode : Z) :
  In opcode write_set -> isWriteOp opcode = true.
Proof.
  intros H. unfold write_set in H. cbn [In] in H.
  repeat (destruct H as [H|H]; [rewrite <- H; reflexivity|]).
  destruct H.
Qed.

Lemma isWriteOp_write_set (opcode : Z) :
  isWriteOp opcode = true -> In opcode write_set.
Proof.
  unfold isWriteOp, write_set. cbn [In].
  repeat match goal with
         | |- context [?a =? ?b] =>
           destruct (Z.eqb_spec a b); [subst; tauto|]
         end.
  discriminate.
Qed.

Lemma write_set_replies (opcode : Z) :
  In opcode write_set ->
  (opcode =? proto.OpForget) || (opcode =? proto.OpBatchForget) = false.
Proof.
  intros H. unfold write_set in H. cbn [In] in H.
  repeat (destruct H as [H|H]; [rewrite <- H; reflexivity|]).
  destruct H.
Qed.

(** C1.  A request whose opcode is in the write set is answered with one
    frame, the 16-byte error frame carrying -EROFS and the request's
    [unique]; handling it performs no other event, so no filesystem
    method is called, and it leaves the server and the filesystem state
    as they were. *)
Theorem write_ops_rejected (req : request.t) (w : World (St := St)) :
  In (proto.InHeader.Opcode (header req)) write_set ->
  handleRequest fs req w
  = Ok tt w [DevWrite (error_bytes req (Errno syscall.EROFS))]
  /\ len (error_bytes req (Errno syscall.EROFS)) = 16
  /\ frame_error (error_bytes req (Errno syscall.EROFS)) = - syscall.EROFS
  /\ frame_unique (error_bytes req (Errno syscall.EROFS))
     = proto.InHeader.Unique (header req)
  /\ filter is_fs_call (res_trace (handleRequest fs req w)) = [].
Proof.
  intros H.
  assert (E : handleRequest fs req w
              = Ok tt w [DevWrite (error_bytes req (Errno syscall.EROFS))]).
  { unfold handleRequest.
    rewrite (write_set_isWriteOp _ H), sendError_run.
    now rewrite (write_set_replies _ H). }
  destruct (error_frame_fields req (toErrno (Some (Errno syscall.EROFS))))
    as (Hl & _ & He & Hu).
  split; [exact E|]. unfold error_bytes.
  split; [unfold len; now rewrite Hl|].
  split; [rewrite He; reflexivity|].
  split; [rewrite Hu; apply Z.mod_small, Unique_range|].
  rewrite E. reflexivity.
Qed.

End ReadOnly.

Lemma write_ops_rejected_witness :
  In (proto.InHeader.Opcode (header Sample.req_write)) write_set
  /\ handleRequest MyFS.fs Sample.req_write Sample.w0
     = Ok tt Sample.w0
          [DevWrite (error_bytes Sample.req_write (Errno syscall.EROFS))].
Proof.
  assert (H : In (proto.InHeader.Opcode (header Sample.req_write)) write_set)
    by (vm_compute; tauto).
  split; [exact H|].
  exact (proj1 (write_ops_rejected MyFS.fs Sample.req_write Sample.w0 H)).
Defined.

(** ** Directory serialization *)

Lemma ldiff_7 (x : Z) : Z.ldiff x 7 = 8 * (x / 8).
Proof.
  change 7 with (Z.ones 3).
  rewrite Z.ldiff_ones_r by lia.
  rewrite Z.shiftl_mul_pow2, Z.shiftr_div_pow2 by lia.
  change (2 ^ 3) with 8. lia.
Qed.

Lemma direntPadded_eq (e : DirEntry.t) :
  direntPadded e = 8 * ((24 + len (DirEntry.Name e) + 7) / 8).
Proof. unfold direntPadded. rewrite <- Z.ldiff_land. apply ldiff_7. Qed.

Lemma direntPadded_bounds (e : DirEntry.t) :
  24 + len (DirEntry.Name e) <= direntPadded e
                             <= 24 + len (DirEntry.Name e) + 7
  /\ direntPadded e mod 8 = 0.
Proof.
  rewrite direntPadded_eq.
  set (x := 24 + len (DirEntry.Name e) + 7).
  pose proof (Z.div_mod x 8 ltac:(lia)).
  pose proof (Z.mod_pos_bound x 8 ltac:(lia)).
  split; [lia|].
  rewrite Z.mul_comm. apply Z.mod_mul. lia.
Qed.

Lemma store_skip (a l : list byte) (off : nat) (bs : list byte) :
  (length a <= off)%nat ->
  store (a ++ l) off bs = a ++ store l (off - length a) bs.
Proof.
  intros H. unfold store.
  rewrite firstn_app, skipn_app.
  rewrite firstn_all2 by lia.
  rewrite (skipn_all2 a) by lia.
  replace (off + length bs - length a)%nat
    with (off - length a + length bs)%nat by lia.
  simpl. now rewrite <- app_assoc.
Qed.

Lemma store_here (b c bs : list byte) :
  length bs = length b -> store (b ++ c) 0 bs = bs ++ c.
Proof.
  intros H. unfold store. simpl.
  rewrite skipn_app, H, skipn_all, Nat.sub_diag. reflexivity.
Qed.

(** Push the stores of a record under construction through the fields
    already written. *)
Ltac store_norm :=
  repeat (first
    [ rewrite store_here
        by (rewrite ?length_le_encode, ?repeat_length; reflexivity)
    | rewrite store_skip by (rewrite ?length_le_encode; cbn; lia) ];
    rewrite ?length_le_encode; cbn [Nat.sub]).

(** A Dirent-shaped record assembled in place in a zeroed buffer of [p]
    bytes: the four fields, the name, and what is left of the zeros. *)
Lemma suffix_layout (p ino off namelen ty : Z) (name : list byte) :
  24 + len name <= p ->
  copy_at
    (PutUint32
       (PutUint32 (PutUint64 (PutUint64 (make p) 0 ino) 8 off) 16 namelen)
       20 ty)
    (Z.to_nat proto.DirentSize) name
  = le_encode 8 ino ++ le_encode 8 off ++ le_encode 4 namelen
    ++ le_encode 4 ty ++ name ++ repeat x00 (Z.to_nat (p - 24 - len name)).
Proof.
  intros Hp.
  set (pad := Z.to_nat (p - 24 - len name)).
  assert (HP : Z.to_nat p = (8 + (8 + (4 + (4 + (length name + pad)))))%nat)
    by (unfold pad, len in *; lia).
  unfold make. rewrite HP. rewrite !repeat_app.
  unfold PutUint64, PutUint32, copy_at, proto.DirentSize.
  change (Z.to_nat 24) with 24%nat.
  store_norm.
  rewrite !length_app, !length_le_encode, !repeat_length.
  rewrite firstn_all2 by lia.
  store_norm.
  reflexivity.
Qed.

(** The record the loop of [serializeDirents] assembles is the record of
    the specification. *)
Lemma dirent_layout (e : DirEntry.t) :
  copy_at
    (PutUint32
       (PutUint32
          (PutUint64
             (PutUint64 (make (Z.ldiff (proto.DirentSize
                                        + len (DirEntry.Name e) + 7) 7))
                        0 (u64 (DirEntry.Ino e)))
             8 (DirEntry.Offset e))
          16 (u32 (len (DirEntry.Name e))))
       20 (DirEntry.Type_ e))
    (Z.to_nat proto.DirentSize) (DirEntry.Name e)
  = direntRecord e.
Proof.
  pose proof (direntPadded_bounds e) as [Hb _].
  replace (Z.ldiff (proto.DirentSize + len (DirEntry.Name e) + 7) 7)
    with (direntPadded e)
    by (unfold direntPadded; now rewrite <- Z.ldiff_land).
  rewrite suffix_layout by lia.
  unfold direntRecord. now rewrite le_encode_u64, le_encode_u32.
Qed.

Lemma length_direntRecord (e : DirEntry.t) :
  len (direntRecord e) = direntPadded e.
Proof.
  pose proof (direntPadded_bounds e) as [Hb _].
  unfold direntRecord, len in *.
  rewrite !length_app, !length_le_encode, repeat_length. lia.
Qed.

Lemma serializeDirents_loop_step (e : DirEntry.t) (rest : list DirEntry.t)
  (maxSize : Z) (buf : list byte) :
  serializeDirents_loop (e :: rest) maxSize buf =
  if u32 (len buf + direntPadded e) >? maxSize then buf
  else serializeDirents_loop rest maxSize (buf ++ direntRecord e).
Proof.
  cbn [serializeDirents_loop]. rewrite dirent_layout.
  replace (Z.ldiff (proto.DirentSize + len (DirEntry.Name e) + 7) 7)
    with (direntPadded e)
    by (unfold direntPadded; now rewrite <- Z.ldiff_land).
  reflexivity.
Qed.

Lemma total_padded_nonneg (es : list DirEntry.t) : 0 <= total_padded es.
Proof.
  induction es as [|e r IH]; cbn [total_padded]; [lia|].
  pose proof (direntPadded_bounds e) as [Hb _]. unfold len in Hb. lia.
Qed.

Lemma total_padded_aligned (es : list DirEntry.t) : total_padded es mod 8 = 0.
Proof.
  induction es as [|e r IH]; cbn [total_padded]; [reflexivity|].
  pose proof (direntPadded_bounds e) as [_ Ha].
  rewrite Z.add_mod, Ha, IH by lia. reflexivity.
Qed.

Lemma fitting_prefix (es : list DirEntry.t) (room : Z) :
  fitting es room = firstn (length (fitting es room)) es.
Proof.
  revert room. induction es as [|e r IH]; intros room; cbn [fitting].
  - reflexivity.
  - destruct (direntPadded e <=? room); [|reflexivity].
    cbn [length firstn]. f_equal. apply IH.
Qed.

Lemma fitting_total (es : list DirEntry.t) (room : Z) :
  0 <= room -> total_padded (fitting es room) <= room.
Proof.
  revert room. induction es as [|e r IH]; intros room Hr; cbn [fitting].
  - cbn. lia.
  - destruct (Z.leb_spec (direntPadded e) room); cbn [total_padded]; [|lia].
    specialize (IH (room - direntPadded e) ltac:(lia)). lia.
Qed.

Lemma fitting_longest (es : list DirEntry.t) (room : Z) (k : nat) :
  total_padded (firstn k es) <= room ->
  (k <= length es)%nat ->
  (k <= length (fitting es room))%nat.
Proof.
  revert room k. induction es as [|e r IH]; intros room k Ht Hk.
  - cbn in Hk. lia.
  - destruct k as [|k]; [lia|].
    cbn [firstn total_padded] in Ht. cbn [length] in Hk.
    pose proof (total_padded_nonneg (firstn k r)).
    cbn [fitting].
    destruct (Z.leb_spec (direntPadded e) room); [|lia].
    cbn [length]. apply le_n_S. apply IH; lia.
Qed.

Lemma length_concat_records (es : list DirEntry.t) :
  len (concat (map direntRecord es)) = total_padded es.
Proof.
  induction es as [|e r IH]; [reflexivity|].
  cbn [map concat total_padded]. unfold len in *.
  rewrite length_app, Nat2Z.inj_add, IH.
  pose proof (length_direntRecord e) as H. unfold len in H. lia.
Qed.

Lemma serializeDirents_loop_spec (es : list DirEntry.t) (B : Z)
  (buf : list byte) :
  len buf <= B ->
  (forall e, In e es -> B + direntPadded e < 2 ^ 32)
  \/ len buf + total_padded es < 2 ^ 32 ->
  serializeDirents_loop es B buf
  = buf ++ concat (map direntRecord (fitting es (B - len buf))).
Proof.
  revert buf. induction es as [|e r IH]; intros buf Hbuf Hfit.
  - cbn. now rewrite app_nil_r.
  - rewrite serializeDirents_loop_step.
    pose proof (direntPadded_bounds e) as [Hb _].
    assert (Hl : 0 <= len buf) by (unfold len; lia).
    assert (Hn : 0 <= len (DirEntry.Name e)) by (unfold len; lia).
    assert (He : len buf + direntPadded e < 2 ^ 32).
    { destruct Hfit as [Hfit|Hfit].
      - specialize (Hfit e (or_introl eq_refl)). lia.
      - cbn [total_padded] in Hfit.
        pose proof (total_padded_nonneg r). lia. }
    unfold u32. rewrite Z.mod_small by lia.
    cbn [fitting].
    destruct (Z.leb_spec (direntPadded e) (B - len buf)) as [Hle|Hgt].
    + replace (len buf + direntPadded e >? B) with false
        by (symmetry; rewrite Z.gtb_ltb; apply Z.ltb_ge; lia).
      rewrite IH.
      * rewrite len_app, length_direntRecord.
        cbn [map concat]. rewrite <- app_assoc.
        now replace (B - (len buf + direntPadded e))
          with (B - len buf - direntPadded e) by lia.
      * rewrite len_app, length_direntRecord. lia.
      * destruct Hfit as [Hfit|Hfit].
        -- left. intros e' He'. apply Hfit. now right.
        -- right. rewrite len_app, length_direntRecord.
           cbn [total_padded] in Hfit. lia.
    + replace (len buf + direntPadded e >? B) with true
        by (symmetry; apply Z.gtb_lt; lia).
      cbn. now rewrite app_nil_r.
Qed.

(** READDIR serialization where the 32-bit size check cannot wrap.  For
    every list of plain directory entries and every budget [B] such that
    [B] plus the padded size of any entry stays below 2^32, or such that
    the padded sizes of all the entries together stay below 2^32,
    [serializeDirents] emits, in input order, the padded records of the
    first [k] entries, where [k] is the greatest number of leading
    entries whose cumulative padded size does not exceed [B].  Each record
    is the 24-byte prefix, the name and zero padding, of size
    [(24 + namelen + 7) & ~7]; the emitted length is the sum of those
    sizes, at most [B]; every record starts at a multiple of 8; and the
    output is a concatenation of whole records. *)
Theorem serializeDirents_longest_prefix (entries : list DirEntry.t) (B : Z) :
  0 <= B ->
  (forall e, In e entries -> B + direntPadded e < 2 ^ 32)
  \/ total_padded entries < 2 ^ 32 ->
  exists k : nat,
    (k <= length entries)%nat
    /\ serializeDirents entries B
       = concat (map direntRecord (firstn k entries))
    /\ total_padded (firstn k entries) <= B
    /\ (forall k', (k' <= length entries)%nat ->
                   total_padded (firstn k' entries) <= B -> (k' <= k)%nat)
    /\ len (serializeDirents entries B) = total_padded (firstn k entries)
    /\ len (serializeDirents entries B) <= B
    /\ (forall j, (j <= k)%nat -> total_padded (firstn j entries) mod 8 = 0)
    /\ (forall e, In e (firstn k entries) ->
          len (direntRecord e) = direntPadded e
          /\ direntPadded e
             = Z.land (24 + len (DirEntry.Name e) + 7) (Z.lnot 7)
          /\ direntPadded e mod 8 = 0).
Proof.
  intros HB Hfit.
  exists (length (fitting entries B)).
  assert (E : serializeDirents entries B
              = concat (map direntRecord (fitting entries B))).
  { unfold serializeDirents.
    rewrite serializeDirents_loop_spec by (cbn; assumption).
    cbn [app]. change (len []) with 0. now rewrite Z.sub_0_r. }
  rewrite <- fitting_prefix.
  pose proof (fitting_total entries B HB) as Ht.
  split.
  { rewrite (fitting_prefix entries B) at 1.
    rewrite length_firstn. lia. }
  split; [exact E|].
  split; [exact Ht|].
  split; [intros k' Hk' Hk; now apply fitting_longest|].
  split; [rewrite E; apply length_concat_records|].
  split; [rewrite E, length_concat_records; exact Ht|].
  split; [intros j _; apply total_padded_aligned|].
  intros e _. split; [apply length_direntRecord|].
  split; [reflexivity|]. apply direntPadded_bounds.
Qed.

Lemma serializeDirents_longest_prefix_witness :
  0 <= 64
  /\ (forall e, In e Sample.three_entries -> 64 + direntPadded e < 2 ^ 32)
  /\ len (serializeDirents Sample.three_entries 64) = 64
  /\ exists k : nat,
      (k <= length Sample.three_entries)%nat
      /\ serializeDirents Sample.three_entries 64
         = concat (map direntRecord (firstn k Sample.three_entries))
      /\ total_padded (firstn k Sample.three_entries) <= 64.
Proof.
  assert (H0 : 0 <= 64) by (vm_compute; discriminate).
  assert (H1 : forall e, In e Sample.three_entries ->
                         64 + direntPadded e < 2 ^ 32).
  { intros e [<-|[<-|[<-|[]]]]; vm_compute; reflexivity. }
  split; [exact H0|]. split; [exact H1|]. split; [reflexivity|].
  destruct (serializeDirents_longest_prefix Sample.three_entries 64 H0
              (or_introl H1))
    as (k & Hk & E & Ht & _).
  exists k. split; [exact Hk|]. split; [exact E | exact Ht].
Defined.

(** With the largest budget a [uint32] holds, the three sample entries
    are emitted whole. *)
Lemma serializeDirents_largest_budget :
  total_padded Sample.three_entries < 2 ^ 32
  /\ serializeDirents Sample.three_entries (2 ^ 32 - 1)
     = concat (map direntRecord Sample.three_entries)
  /\ len (serializeDirents Sample.three_entries (2 ^ 32 - 1)) = 96.
Proof.
  assert (H0 : 0 <= 2 ^ 32 - 1) by (vm_compute; discriminate).
  assert (H1 : total_padded Sample.three_entries < 2 ^ 32)
    by (vm_compute; reflexivity).
  split; [exact H1|].
  destruct (serializeDirents_longest_prefix Sample.three_entries
              (2 ^ 32 - 1) H0 (or_intror H1))
    as (k & Hk & E & _ & Hmax & Hl & _).
  assert (Hk3 : k = 3%nat).
  { specialize (Hmax 3%nat (Nat.le_refl _)).
    assert (total_padded (firstn 3 Sample.three_entries) <= 2 ^ 32 - 1)
      by (vm_compute; discriminate).
    cbn [length Sample.three_entries] in Hk. unfold Sample.three_entries in Hk.
    cbn [length] in Hk. specialize (Hmax H). lia. }
  subst k. split; [exact E|]. rewrite Hl. reflexivity.
Defined.

(** C3 (where the code departs from it).  The size check compares
    [uint32(len(buf)+paddedSize)] with the budget: the sum is narrowed to
    32 bits before the comparison.  With a budget of 4096 bytes and one
    entry whose name is 2^32 - 24 bytes long, the padded size 2^32 is
    narrowed to 0, the entry is accepted, and 2^32 bytes are emitted: the
    emitted length exceeds the budget, and the entry emitted is not among
    the longest prefix that fits the budget, which is empty. *)
Theorem serializeDirents_budget_wraps :
  direntPadded Sample.huge_entry = 2 ^ 32
  /\ u32 (0 + direntPadded Sample.huge_entry) = 0
  /\ serializeDirents [Sample.huge_entry] 4096
     = direntRecord Sample.huge_entry
  /\ len (serializeDirents [Sample.huge_entry] 4096) = 2 ^ 32
  /\ ~ len (serializeDirents [Sample.huge_entry] 4096) <= 4096
  /\ fitting [Sample.huge_entry] 4096 = [].
Proof.
  assert (Hn : len (DirEntry.Name Sample.huge_entry) = 2 ^ 32 - 24).
  { unfold Sample.huge_entry, len. cbn [DirEntry.Name].
    rewrite repeat_length. apply Z2Nat.id. discriminate. }
  assert (Hp : direntPadded Sample.huge_entry = 2 ^ 32).
  { rewrite direntPadded_eq, Hn. reflexivity. }
  assert (Es : serializeDirents [Sample.huge_entry] 4096
               = direntRecord Sample.huge_entry).
  { unfold serializeDirents. rewrite serializeDirents_loop_step.
    change (len (@nil byte)) with 0. rewrite Hp.
    change (u32 (0 + 2 ^ 32) >? 4096) with false.
    cbn [serializeDirents_loop app]. reflexivity. }
  assert (E : len (serializeDirents [Sample.huge_entry] 4096) = 2 ^ 32).
  { rewrite Es, length_direntRecord. exact Hp. }
  split; [exact Hp|]. split; [rewrite Hp; reflexivity|].
  split; [exact Es|]. split; [exact E|].
  split; [rewrite E; intros H; apply H; reflexivity|].
  cbn [fitting]. rewrite Hp. reflexivity.
Qed.

(** ** READDIRPLUS records *)

Lemma length_entryOutBytes (out : proto.EntryOut.t) :
  length (entryOutBytes out) = 128%nat.
Proof. reflexivity. Qed.

(** In every READDIRPLUS record the [off] field of the Dirent-shaped
    suffix is written from the entry's inode generation; a
    [DirEntryPlus] carries no offset cookie at all. *)
Lemma direntPlus_off_field (entry : DirEntryPlus.t) (B : Z) :
  (u32 (Z.ldiff (proto.DirentPlusSize + len (DirEntryPlus.Name entry) + 7) 7)
   >? B) = false ->
  load 8 (serializeDirentsPlus [entry] B) (128 + 8)
  = Entry.Generation (DirEntryPlus.Entry entry) mod 2 ^ 64.
Proof.
  intros Hfit. unfold serializeDirentsPlus.
  cbn [serializeDirentsPlus_loop].
  change (len (@nil byte)) with 0. rewrite Z.add_0_l, Hfit.
  set (n := len (DirEntryPlus.Name entry)) in *.
  assert (Hp : 24 + n <= Z.ldiff (proto.DirentPlusSize + n + 7) 7
                         - proto.EntryOutSize).
  { rewrite ldiff_7. unfold proto.DirentPlusSize, proto.EntryOutSize,
      proto.DirentSize.
    pose proof (Z.div_mod (128 + 24 + n + 7) 8 ltac:(lia)).
    pose proof (Z.mod_pos_bound (128 + 24 + n + 7) 8 ltac:(lia)). lia. }
  rewrite suffix_layout by exact Hp.
  cbn [app].
  rewrite load_app_skip by (rewrite length_entryOutBytes; lia).
  rewrite length_entryOutBytes.
  change (128 + 8 - 128)%nat with 8%nat.
  rewrite load_app_skip by (rewrite length_le_encode; lia).
  rewrite length_le_encode. change (8 - 8)%nat with 0%nat.
  rewrite load_app_here by apply length_le_encode.
  apply le_decode_encode.
Qed.

(** C4 (what the code does instead).  For [hello.txt] with inode 2 and
    generation 7, READDIRPLUS serialization emits one 168-byte record: a
    128-byte EntryOut, then a suffix whose [ino] is 2, whose [namelen] is
    9, whose type is DT_REG -- and whose [off] field is 7, the
    generation, not a resume position. *)
Theorem readdirplus_off_holds_generation :
  len (serializeDirentsPlus [Sample.plus_entry] 4096) = 168
  /\ slice (serializeDirentsPlus [Sample.plus_entry] 4096) 0 128
     = entryOutBytes (entryToProto (DirEntryPlus.Entry Sample.plus_entry))
  /\ load 8 (serializeDirentsPlus [Sample.plus_entry] 4096) 128 = 2
  /\ load 8 (serializeDirentsPlus [Sample.plus_entry] 4096) (128 + 8)
     = Entry.Generation (DirEntryPlus.Entry Sample.plus_entry)
  /\ load 8 (serializeDirentsPlus [Sample.plus_entry] 4096) (128 + 8) = 7
  /\ load 4 (serializeDirentsPlus [Sample.plus_entry] 4096) (128 + 16) = 9
  /\ load 4 (serializeDirentsPlus [Sample.plus_entry] 4096) (128 + 20)
     = proto.DtReg
  /\ slice (serializeDirentsPlus [Sample.plus_entry] 4096) 152 161
     = MyFS.hello_txt.
Proof. repeat split; vm_compute; reflexivity. Qed.

(** ** The dispatcher: how many frames a request gets *)

(** Run a handler symbolically: open the monad and split on every value
    the run depends on. *)
Ltac simpl_state :=
  cbv beta iota;
  cbn [server fsstate Server.config Server.conn Server.opts
       Server.initialized Server.destroyed connection.protoMajor
       connection.protoMinor connection.fd connection.mounted
       set_config set_proto set_initialized set_destroyed
       res_world res_trace].

Ltac run_handler :=
  unfold deref, call, call_, call_Init, sendResponse, writeResponse,
    modify_server, get_server, bind, ret, panic;
  simpl_state;
  repeat (match goal with
          | |- context [match ?x with _ => _ end] =>
            lazymatch x with
            | context [match _ with _ => _ end] => fail
            | _ => destruct x eqn:?
            end
          end; simpl_state);
  try reflexivity.

Section Dispatch.

Context {St : Type}.
Context {rt : Runtime}.
Variable fs : Filesystem.t St.

Lemma frames_app (a b : list Event) : frames (a ++ b) = frames a ++ frames b.
Proof. apply flat_map_app. Qed.

Lemma handleInit_replies_once : replies_once (handleInit fs).
Proof.
  intros req w. unfold handleInit. run_handler.
Qed.

Lemma handleDestroy_replies_once : replies_once (handleDestroy fs).
Proof.
  intros req w. unfold handleDestroy. run_handler.
Qed.

Lemma handleLookup_replies_once : replies_once (handleLookup fs).
Proof.
  intros req w. unfold handleLookup. run_handler.
Qed.

Lemma handleGetattr_replies_once : replies_once (handleGetattr fs).
Proof.
  intros req w. unfold handleGetattr. run_handler.
Qed.

Lemma handleReadlink_replies_once : replies_once (handleReadlink fs).
Proof.
  intros req w. unfold handleReadlink. run_handler.
Qed.

Lemma handleOpen_replies_once : replies_once (handleOpen fs).
Proof.
  intros req w. unfold handleOpen. run_handler.
Qed.

Lemma handleRead_replies_once : replies_once (handleRead fs).
Proof.
  intros req w. unfold handleRead. run_handler.
Qed.

Lemma handleRelease_replies_once : replies_once (handleRelease fs).
Proof.
  intros req w. unfold handleRelease. run_handler.
Qed.

Lemma handleOpendir_replies_once : replies_once (handleOpendir fs).
Proof.
  intros req w. unfold handleOpendir. run_handler.
Qed.

Lemma handleReaddir_replies_once : replies_once (handleReaddir fs).
Proof.
  intros req w. unfold handleReaddir. run_handler.
Qed.

Lemma handleReaddirplus_replies_once : replies_once (handleReaddirplus fs).
Proof.
  intros req w. unfold handleReaddirplus. run_handler.
Qed.

Lemma handleReleasedir_replies_once : replies_once (handleReleasedir fs).
Proof.
  intros req w. unfold handleReleasedir. run_handler.
Qed.

Lemma handleStatfs_replies_once : replies_once (handleStatfs fs).
Proof.
  intros req w. unfold handleStatfs. run_handler.
Qed.

Lemma handleAccess_replies_once : replies_once (handleAccess fs).
Proof.
  intros req w. unfold handleAccess. run_handler.
Qed.

Lemma handleFlush_replies_once : replies_once (handleFlush (St := St)).
Proof.
  intros req w. unfold handleFlush. run_handler.
Qed.

Lemma handleForget_never_replies : never_replies (handleForget fs).
Proof.
  intros req w. unfold handleForget. run_handler.
Qed.

Lemma handleBatchForget_never_replies : never_replies (handleBatchForget fs).
Proof.
  intros req w. unfold handleBatchForget. run_handler.
Qed.

Lemma handleInterrupt_run (req : request.t) (w : World (St := St)) :
  handleInterrupt req w = Ok None w [].
Proof. reflexivity. Qed.

Lemma finish_reply (h : handler) (req : request.t) (w : World (St := St)) :
  replies_once h ->
  (proto.InHeader.Opcode (header req) =? proto.OpForget)
  || (proto.InHeader.Opcode (header req) =? proto.OpBatchForget) = false ->
  match finish h req w with
  | Ok _ _ tr => length (frames tr) = 1%nat
  | Panic _ tr => frames tr = []
  end.
Proof.
  intros Hh Hg. unfold finish, bind. specialize (Hh req w).
  destruct (h req w) as [[e|] w1 tr1|w1 tr1].
  - rewrite sendError_run, Hg. rewrite frames_app, Hh. reflexivity.
  - unfold ret. rewrite frames_app, app_nil_r. exact Hh.
  - exact Hh.
Qed.

Lemma finish_silent (h : handler) (req : request.t) (w : World (St := St)) :
  never_replies h ->
  (forall e w1 tr1, h req w = Ok (Some e) w1 tr1 ->
     (proto.InHeader.Opcode (header req) =? proto.OpForget)
     || (proto.InHeader.Opcode (header req) =? proto.OpBatchForget) = true) ->
  match finish h req w with
  | Ok _ _ tr => length (frames tr) = 0%nat
  | Panic _ tr => frames tr = []
  end.
Proof.
  intros Hh Hg. unfold finish, bind. specialize (Hh req w).
  destruct (h req w) as [[e|] w1 tr1|w1 tr1]; cbn [res_trace] in *.
  - rewrite sendError_run, (Hg e w1 tr1 eq_refl).
    now rewrite app_nil_r, Hh.
  - unfold ret. now rewrite app_nil_r, Hh.
  - exact Hh.
Qed.

(** X1.  Every request gets at most one frame: exactly one when handling it
    returns and the opcode is not FORGET, BATCH_FORGET or INTERRUPT, none
    for these three opcodes, and none when the handler panics. *)
Lemma handleRequest_frames (req : request.t) (w : World (St := St)) :
  match handleRequest fs req w with
  | Ok _ _ tr =>
    length (frames tr)
    = if no_reply (proto.InHeader.Opcode (header req)) then 0%nat else 1%nat
  | Panic _ tr => frames tr = []
  end.
Proof.
  unfold handleRequest.
  destruct (isWriteOp (proto.InHeader.Opcode (header req))) eqn:Hw.
  - apply isWriteOp_write_set in Hw.
    rewrite sendError_run, (write_set_replies _ Hw).
    unfold no_reply. rewrite (write_set_replies _ Hw).
    unfold write_set in Hw. cbn [In] in Hw.
    repeat (destruct Hw as [Hw|Hw]; [rewrite <- Hw; reflexivity|]).
    destruct Hw.
  - clear Hw.
    remember (proto.InHeader.Opcode (header req)) as op eqn:Hop.
    symmetry in Hop.
    unfold handlers, lookup.
    repeat match goal with
           | |- context [?k =? op] =>
             destruct (Z.eqb_spec k op) as [<-|?]
           end.
    all: try (apply finish_reply;
              [ auto using handleInit_replies_once,
                  handleDestroy_replies_once, handleLookup_replies_once,
                  handleGetattr_replies_once, handleReadlink_replies_once,
                  handleOpen_replies_once, handleRead_replies_once,
                  handleRelease_replies_once, handleOpendir_replies_once,
                  handleReaddir_replies_once, handleReaddirplus_replies_once,
                  handleReleasedir_replies_once, handleStatfs_replies_once,
                  handleAccess_replies_once, handleFlush_replies_once
              | rewrite Hop; reflexivity ]).
    + apply finish_silent; [apply handleForget_never_replies|].
      intros; rewrite Hop; reflexivity.
    + apply finish_silent; [apply handleBatchForget_never_replies|].
      intros; rewrite Hop; reflexivity.
    + apply finish_silent; [intros r w'; reflexivity|].
      intros e w1 tr1 H. rewrite handleInterrupt_run in H. discriminate.
    + rewrite sendError_run, Hop. unfold no_reply.
      repeat match goal with
             | H : ?k <> op |- _ =>
               apply not_eq_sym, Z.eqb_neq in H; rewrite ?H; clear H
             end.
      reflexivity.
Qed.

End Dispatch.

(** ** INIT *)

Section Init.

Context {St : Type}.
Context {rt : Runtime}.
Variable fs : Filesystem.t St.

Lemma handleRequest_dispatch (k : Z) (h : handler) (req : request.t)
  (w : World (St := St)) :
  proto.InHeader.Opcode (header req) = k ->
  isWriteOp k = false ->
  lookup (handlers fs) k = Some h ->
  handleRequest fs req w = finish h req w.
Proof.
  intros Hk Hw Hl. unfold handleRequest. now rewrite Hk, Hw, Hl.
Qed.

Lemma finish_world (h : handler) (req : request.t) (w : World (St := St)) :
  res_world (finish h req w) = res_world (h req w).
Proof.
  unfold finish, bind.
  destruct (h req w) as [[e|] w1 tr1|w1 tr1]; try reflexivity.
  rewrite sendError_run.
  now destruct ((proto.InHeader.Opcode (header req) =? proto.OpForget)
                || (proto.InHeader.Opcode (header req) =? proto.OpBatchForget)).
Qed.

Lemma handleInit_major_mismatch (req : request.t) (w : World (St := St))
  (in_ : proto.InitIn.t) :
  cast InitIn_at req = Some in_ ->
  proto.InitIn.Major in_ <> proto.FuseKernelVersion ->
  handleInit fs req w
  = Ok None w [DevWrite (response_bytes req (initOutBytes version_only_out))].
Proof.
  intros Hc Hm. apply Z.eqb_neq in Hm.
  unfold handleInit. rewrite Hc.
  unfold deref, bind, ret. rewrite Hm. reflexivity.
Qed.

Lemma handleInit_minor_too_low (req : request.t) (w : World (St := St))
  (in_ : proto.InitIn.t) :
  cast InitIn_at req = Some in_ ->
  proto.InitIn.Major in_ = proto.FuseKernelVersion ->
  proto.InitIn.Minor in_ < proto.MinSupportedMinor ->
  handleInit fs req w = Ok (Some (Errno syscall.EPROTO)) w [].
Proof.
  intros Hc Hm Hlow. apply Z.eqb_eq in Hm. apply Z.ltb_lt in Hlow.
  unfold handleInit. rewrite Hc.
  unfold deref, bind, ret. rewrite Hm, Hlow. reflexivity.
Qed.

Lemma handleInit_stores_minor (req : request.t) (w : World (St := St))
  (in_ : proto.InitIn.t) :
  cast InitIn_at req = Some in_ ->
  proto.InitIn.Major in_ = proto.FuseKernelVersion ->
  proto.MinSupportedMinor <= proto.InitIn.Minor in_ ->
  Server.conn (server (res_world (handleInit fs req w)))
  = connection.mk
      (connection.fd (Server.conn (server w)))
      (connection.mounted (Server.conn (server w)))
      (proto.InitIn.Major in_)
      (Z.min (proto.InitIn.Minor in_) proto.FuseKernelMinorVersion).
Proof.
  intros Hc Hm Hmin.
  apply Z.eqb_eq in Hm. apply Z.ltb_ge in Hmin.
  assert (E : (if proto.InitIn.Minor in_ >? proto.FuseKernelMinorVersion
               then proto.FuseKernelMinorVersion else proto.InitIn.Minor in_)
              = Z.min (proto.InitIn.Minor in_) proto.FuseKernelMinorVersion).
  { destruct (Z.gtb_spec (proto.InitIn.Minor in_)
                         proto.FuseKernelMinorVersion); lia. }
  unfold handleInit. rewrite Hc.
  unfold deref at 1. unfold bind at 1. unfold ret at 1.
  cbv beta iota. rewrite Hm, Hmin. cbn [negb]. cbv beta iota. rewrite E.
  run_handler.
Qed.

(** C5.  On INIT with an InitIn present: a kernel major other than 7 is
    answered with one frame written to the device and nothing else -- no
    filesystem call, the server state (negotiated version, [initialized])
    untouched.  That frame is a success reply of 80 bytes: its header
    carries the length 80, error 0 and the unique of the request, and its
    64-byte payload is an InitOut with major 7 and minor 41 and every other
    byte zero.  Major 7 with a minor below 26 makes [handleInit] fail with
    EPROTO, which the dispatcher reports as one 16-byte error frame
    carrying -EPROTO and the unique of the request; otherwise the
    connection stores major 7 and minor [min(kernel minor, 41)], which
    lies between 26 and 41. *)
Theorem init_version_negotiation (req : request.t) (w : World (St := St))
  (in_ : proto.InitIn.t) :
  proto.InHeader.Opcode (header req) = proto.OpInit ->
  cast InitIn_at req = Some in_ ->
  (proto.InitIn.Major in_ <> proto.FuseKernelVersion ->
     let frame := response_bytes req (initOutBytes version_only_out) in
     handleRequest fs req w = Ok tt w [DevWrite frame]
     /\ len frame = 80
     /\ frame_len frame = 80
     /\ frame_error frame = 0
     /\ frame_unique frame = proto.InHeader.Unique (header req)
     /\ frame_payload frame = initOutBytes version_only_out
     /\ InitOut_at (frame_payload frame) 0 = version_only_out
     /\ load 4 (frame_payload frame) 0 = 7
     /\ load 4 (frame_payload frame) 4 = 41
     /\ skipn 8 (frame_payload frame) = repeat x00 56
     /\ load 4 (initOutBytes version_only_out) 0 = 7
     /\ load 4 (initOutBytes version_only_out) 4 = 41)
  /\ (proto.InitIn.Major in_ = proto.FuseKernelVersion ->
      proto.InitIn.Minor in_ < proto.MinSupportedMinor ->
      let frame := error_bytes req (Errno syscall.EPROTO) in
      handleInit fs req w = Ok (Some (Errno syscall.EPROTO)) w []
      /\ handleRequest fs req w = Ok tt w [DevWrite frame]
      /\ len frame = 16
      /\ frame_len frame = 16
      /\ frame_error frame = - syscall.EPROTO
      /\ frame_unique frame = proto.InHeader.Unique (header req))
  /\ (proto.InitIn.Major in_ = proto.FuseKernelVersion ->
      proto.MinSupportedMinor <= proto.InitIn.Minor in_ ->
      let stored :=
        connection.protoMinor
          (Server.conn (server (res_world (handleRequest fs req w)))) in
      stored = Z.min (proto.InitIn.Minor in_) proto.FuseKernelMinorVersion
      /\ 26 <= stored <= 41
      /\ connection.protoMajor
           (Server.conn (server (res_world (handleRequest fs req w))))
         = 7).
Proof.
  intros Hop Hc.
  assert (Hd : handleRequest fs req w = finish (handleInit fs) req w)
    by (apply (handleRequest_dispatch proto.OpInit); [exact Hop | reflexivity..]).
  assert (Hg : (proto.InHeader.Opcode (header req) =? proto.OpForget)
               || (proto.InHeader.Opcode (header req) =? proto.OpBatchForget)
               = false) by (rewrite Hop; reflexivity).
  split; [|split].
  - intros Hm frame.
    destruct (success_frame_fields req (initOutBytes version_only_out))
      as (Hl & Hfl & Hfe & Hfu & Hfp).
    fold frame in Hl, Hfl, Hfe, Hfu, Hfp.
    split.
    { rewrite Hd. unfold finish, bind.
      rewrite (handleInit_major_mismatch req w in_ Hc Hm). reflexivity. }
    split; [exact Hl|]. split; [exact Hfl|]. split; [exact Hfe|].
    split; [exact Hfu|]. split; [exact Hfp|].
    rewrite Hfp. repeat split; reflexivity.
  - intros Hm Hlow frame.
    pose proof (handleInit_minor_too_low req w in_ Hc Hm Hlow) as Hi.
    destruct (error_frame_fields req (toErrno (Some (Errno syscall.EPROTO))))
      as (Hl & Hfl & He & Hu).
    split; [exact Hi|]. split.
    { rewrite Hd. unfold finish, bind. rewrite Hi, sendError_run, Hg.
      reflexivity. }
    unfold frame, error_bytes.
    split; [unfold len; now rewrite Hl|]. split; [exact Hfl|].
    split; [rewrite He; reflexivity|].
    rewrite Hu. apply Z.mod_small, Unique_range.
  - intros Hm Hmin. cbv zeta. rewrite Hd, finish_world.
    rewrite (handleInit_stores_minor req w in_ Hc Hm Hmin).
    cbn [connection.protoMinor connection.protoMajor].
    unfold proto.MinSupportedMinor, proto.FuseKernelMinorVersion in *.
    split; [reflexivity|]. split; [lia | exact Hm].
Qed.

End Init.

Lemma init_version_negotiation_witness :
  proto.InHeader.Opcode (header Sample.req_init) = proto.OpInit
  /\ cast InitIn_at Sample.req_init
     = Some (InitIn_at (mem Sample.req_init) 40)
  /\ proto.InitIn.Major (InitIn_at (mem Sample.req_init) 40)
     = proto.FuseKernelVersion
  /\ proto.MinSupportedMinor
     <= proto.InitIn.Minor (InitIn_at (mem Sample.req_init) 40)
  /\ connection.protoMinor
       (Server.conn
          (server (res_world
                     (handleRequest MyFS.fs Sample.req_init Sample.w0))))
     = 41.
Proof.
  assert (H1 : proto.InHeader.Opcode (header Sample.req_init) = proto.OpInit)
    by reflexivity.
  assert (H2 : cast InitIn_at Sample.req_init
               = Some (InitIn_at (mem Sample.req_init) 40)) by reflexivity.
  assert (H3 : proto.InitIn.Major (InitIn_at (mem Sample.req_init) 40)
               = proto.FuseKernelVersion) by reflexivity.
  assert (H4 : proto.MinSupportedMinor
               <= proto.InitIn.Minor (InitIn_at (mem Sample.req_init) 40))
    by (vm_compute; discriminate).
  split; [exact H1|]. split; [exact H2|]. split; [exact H3|].
  split; [exact H4|].
  exact (proj1 (proj2 (proj2
           (init_version_negotiation MyFS.fs Sample.req_init Sample.w0
              _ H1 H2)) H3 H4)).
Defined.

(** ** The InitOut reply *)

Lemma initOutBytes_layout (out : proto.InitOut.t) :
  initOutBytes out
  = le_encode 4 (proto.InitOut.Major out)
    ++ le_encode 4 (proto.InitOut.Minor out)
    ++ le_encode 4 (proto.InitOut.MaxReadahead out)
    ++ le_encode 4 (proto.InitOut.Flags out)
    ++ le_encode 2 (proto.InitOut.MaxBackground out)
    ++ le_encode 2 (proto.InitOut.CongestionThreshold out)
    ++ le_encode 4 (proto.InitOut.MaxWrite out)
    ++ le_encode 4 (proto.InitOut.TimeGran out)
    ++ le_encode 2 (proto.InitOut.MaxPages out)
    ++ le_encode 2 (proto.InitOut.MapAlignment out)
    ++ le_encode 4 (proto.InitOut.Flags2 out)
    ++ le_encode 4 (proto.InitOut.MaxStackDepth out)
    ++ repeat x00 24.
Proof.
  unfold initOutBytes, PutUint32, PutUint16.
  change (make proto.InitOutSize)
    with (repeat x00 4 ++ repeat x00 4 ++ repeat x00 4 ++ repeat x00 4
          ++ repeat x00 2 ++ repeat x00 2 ++ repeat x00 4 ++ repeat x00 4
          ++ repeat x00 2 ++ repeat x00 2 ++ repeat x00 4 ++ repeat x00 4
          ++ repeat x00 24).
  store_norm. reflexivity.
Qed.

Lemma initOutBytes_fields (out : proto.InitOut.t) :
  length (initOutBytes out) = 64%nat
  /\ load 4 (initOutBytes out) 0 = proto.InitOut.Major out mod 2 ^ 32
  /\ load 4 (initOutBytes out) 4 = proto.InitOut.Minor out mod 2 ^ 32
  /\ load 4 (initOutBytes out) 12 = proto.InitOut.Flags out mod 2 ^ 32
  /\ load 4 (initOutBytes out) 32 = proto.InitOut.Flags2 out mod 2 ^ 32
  /\ load 4 (initOutBytes out) 36
     = proto.InitOut.MaxStackDepth out mod 2 ^ 32.
Proof.
  rewrite initOutBytes_layout.
  split; [rewrite !length_app, !length_le_encode, repeat_length; reflexivity|].
  repeat split;
    repeat (rewrite load_app_skip by (rewrite length_le_encode; cbn; lia);
            rewrite length_le_encode; cbn [Nat.sub]);
    rewrite load_app_here by apply length_le_encode;
    apply le_decode_encode.
Qed.

Lemma land_high_bit (a k : Z) :
  0 <= a < 2 ^ 32 -> 32 <= k -> Z.land a (Z.shiftl 1 k) = 0.
Proof.
  intros Ha Hk. apply Z.bits_inj'. intros n Hn.
  rewrite Z.land_spec, Z.bits_0, Z.shiftl_1_l, Z.pow2_bits_eqb by lia.
  destruct (Z.eqb_spec k n) as [<-|Hne]; [|apply andb_false_r].
  rewrite <- (Z.mod_small a (2 ^ 32)) by lia.
  rewrite Z.mod_pow2_bits_high by lia. reflexivity.
Qed.

Section InitReply.

Context {St : Type}.
Variable fs : Filesystem.t St.

Lemma handleInit_frames (req : request.t) (w : World (St := St))
  (f : list byte) :
  In f (frames (res_trace (handleInit fs req w))) ->
  exists out : proto.InitOut.t,
    f = response_bytes req (initOutBytes out)
    /\ proto.InitOut.Flags2 out = 0
    /\ proto.InitOut.MaxStackDepth out = 0.
Proof.
  unfold handleInit. run_handler;
    cbn [frames flat_map app In]; intros Hin;
    repeat match goal with
           | H : _ \/ _ |- _ => destruct H
           | H : False |- _ => destruct H
           end;
    subst f; eexists; (split; [reflexivity|split; reflexivity]).
Qed.

(** C10.  Every frame [handleInit] writes is a success frame whose
    64-byte payload is an InitOut with [Flags2] = 0 and [MaxStackDepth] =
    0, whatever the kernel offered in its own [flags] and [flags2]: the
    advertised capability mask, [flags] plus [flags2] shifted by 32 bits,
    is below 2^32, so no capability above bit 31 -- FUSE_SECURITY_CTX,
    FUSE_PASSTHROUGH or any other -- is set in it. *)
Theorem init_reply_no_extended_caps (req : request.t) (w : World (St := St))
  (f : list byte) :
  In f (frames (res_trace (handleInit fs req w))) ->
  frame_error f = 0
  /\ len (frame_payload f) = proto.InitOutSize
  /\ load 4 (frame_payload f) 32 = 0
  /\ load 4 (frame_payload f) 36 = 0
  /\ 0 <= advertised_caps (frame_payload f) < 2 ^ 32
  /\ Z.land (advertised_caps (frame_payload f)) proto.CapSecurityCtx = 0
  /\ Z.land (advertised_caps (frame_payload f)) proto.CapPassthrough = 0
  /\ (forall i, 32 <= i ->
        Z.testbit (advertised_caps (frame_payload f)) i = false).
Proof.
  intros Hin.
  destruct (handleInit_frames req w f Hin) as (out & -> & H2 & H3).
  destruct (success_frame_fields req (initOutBytes out))
    as (_ & _ & He & _ & Hp).
  destruct (initOutBytes_fields out) as (Hl & _ & _ & _ & F2 & F3).
  rewrite Hp. rewrite H2 in F2. rewrite H3 in F3.
  assert (Hc : 0 <= advertised_caps (initOutBytes out) < 2 ^ 32).
  { unfold advertised_caps. rewrite F2.
    pose proof (load_range 4 (initOutBytes out) 12) as Hr.
    change (2 ^ (8 * Z.of_nat 4)) with (2 ^ 32) in Hr.
    change (0 mod 2 ^ 32) with 0. lia. }
  split; [exact He|].
  split; [unfold len; rewrite Hl; reflexivity|].
  split; [exact F2|]. split; [exact F3|]. split; [exact Hc|].
  split; [apply land_high_bit; [exact Hc | lia]|].
  split; [apply land_high_bit; [exact Hc | lia]|].
  intros i Hi.
  rewrite <- (Z.mod_small _ (2 ^ 32) Hc).
  apply Z.mod_pow2_bits_high. lia.
Qed.

End InitReply.

Lemma init_reply_no_extended_caps_witness :
  In (hd [] (frames (res_trace (handleInit MyFS.fs Sample.req_init Sample.w0))))
     (frames (res_trace (handleInit MyFS.fs Sample.req_init Sample.w0)))
  /\ proto.InitIn.Flags2 (InitIn_at (mem Sample.req_init) 40) = 4294967295
  /\ load 4 (frame_payload
               (hd [] (frames (res_trace
                  (handleInit MyFS.fs Sample.req_init Sample.w0))))) 32 = 0
  /\ load 4 (frame_payload
               (hd [] (frames (res_trace
                  (handleInit MyFS.fs Sample.req_init Sample.w0))))) 36 = 0.
Proof.
  assert (H : In (hd [] (frames (res_trace
                    (handleInit MyFS.fs Sample.req_init Sample.w0))))
                 (frames (res_trace
                    (handleInit MyFS.fs Sample.req_init Sample.w0))))
    by (vm_compute; left; reflexivity).
  split; [exact H|]. split; [vm_compute; reflexivity|].
  destruct (init_reply_no_extended_caps MyFS.fs Sample.req_init Sample.w0 _ H)
    as (_ & _ & F2 & F3 & _).
  split; [exact F2 | exact F3].
Defined.

(** ** Requests with a short or absent body *)

Section ShortBody.

Context {St : Type}.
Context {rt : Runtime}.
Variable fs : Filesystem.t St.

Lemma absent_body_cast {T : Type} (view : list byte -> nat -> T)
  (req : request.t) :
  len (request.data req) <= proto.InHeaderSize -> cast view req = None.
Proof.
  intros H. unfold cast, body.
  apply Z.leb_le in H. now rewrite H.
Qed.

(** X5.  No handler checks the length of the body against the layout it
    overlays.  When the request is the header alone the typed pointer is
    nil and the first field access panics: nothing is sent and no
    filesystem method is called. *)
Lemma typed_body_absent_panics (req : request.t) (w : World (St := St)) :
  len (request.data req) <= proto.InHeaderSize ->
  In (proto.InHeader.Opcode (header req)) typed_body_opcodes ->
  handleRequest fs req w = Panic w [].
Proof.
  intros Hlen Hin.
  unfold typed_body_opcodes in Hin. cbn [In] in Hin.
  repeat (destruct Hin as [Hk|Hin];
          [ rewrite (handleRequest_dispatch fs _ _ req w (eq_sym Hk)
                       eq_refl eq_refl);
            cbv delta [finish handleInit handleForget handleGetattr handleOpen
                       handleRead handleRelease handleOpendir handleReaddir
                       handleReaddirplus handleReleasedir handleAccess];
            cbv beta;
            rewrite (absent_body_cast _ req Hlen); reflexivity | ]).
  destruct Hin.
Qed.

Lemma length_update {A : Type} (l : list A) (i : nat) (v : A) :
  length (update l i v) = length l.
Proof.
  revert i. induction l as [|h t IH]; intros [|i]; cbn; auto.
Qed.

Lemma batchForget_loop_length (body : list byte) (remaining i : nat)
  (offset : Z) (entries : list ForgetEntry.t) :
  length (batchForget_loop body remaining i offset entries) = length entries.
Proof.
  revert i offset entries.
  induction remaining as [|n IH]; intros i offset entries; [reflexivity|].
  cbn [batchForget_loop].
  destruct (offset + proto.ForgetOneSize >? len body); [reflexivity|].
  now rewrite IH, length_update.
Qed.

(** X6.  For a BATCH_FORGET whose body holds the 8-byte BatchForgetIn, the
    handler first makes a slice of [in.Count] entries, whatever the body
    holds.  When the runtime has room for it, [BatchForget] is handed that
    slice, [in.Count] entries long (those the body does not hold stay
    zero), and no frame is written.  When it has not, the run dies in the
    allocation: [BatchForget] is not called and nothing is written. *)
Lemma handleBatchForget_passes_count (req : request.t) (w : World (St := St)) :
  proto.InHeader.Opcode (header req) = proto.OpBatchForget ->
  proto.BatchForgetInSize <= len (bodyBytes req) ->
  let count := load 4 (mem req) 40 in
  let entries :=
    batchForget_loop (bodyBytes req) (Z.to_nat count) 0
                     proto.BatchForgetInSize
                     (repeat ForgetEntry.zero (Z.to_nat count)) in
  (can_make count = true ->
   handleRequest fs req w
   = Ok tt (mkWorld (server w)
                    (Filesystem.BatchForget fs (newContext req) entries
                                            (fsstate w)))
        [CallBatchForget (newContext req) entries]
   /\ length entries = Z.to_nat count)
  /\ (can_make count = false -> handleRequest fs req w = Panic w []).
Proof.
  intros Hk Hb count entries.
  assert (Hc : cast BatchForgetIn_at req
               = Some (BatchForgetIn_at (mem req) 40)).
  { unfold cast, body. unfold bodyBytes in Hb.
    destruct (len (request.data req) <=? proto.InHeaderSize); [|reflexivity].
    cbn in Hb. unfold proto.BatchForgetInSize in Hb. lia. }
  apply Z.ltb_ge in Hb.
  rewrite (handleRequest_dispatch fs _ _ req w Hk eq_refl eq_refl).
  unfold finish, handleBatchForget. rewrite Hc, Hb.
  split; intros Hm;
    unfold deref at 1; unfold bind at 1 2; unfold ret at 1; cbv beta iota;
    change (proto.BatchForgetIn.Count (BatchForgetIn_at (mem req) 40))
      with count;
    rewrite Hm; cbn [negb].
  - split; [reflexivity|].
    unfold entries. rewrite batchForget_loop_length, repeat_length.
    reflexivity.
  - reflexivity.
Qed.

End ShortBody.

(** C2 (where the code departs from it).  A GETATTR request made of the
    40-byte header alone -- GETATTR is not one of the three opcodes that
    go unanswered -- makes the handler dereference a nil body: the run
    ends in a panic with no frame written. *)
Theorem bare_getattr_gets_no_frame :
  no_reply (proto.InHeader.Opcode
              (header (Sample.bare_request proto.OpGetattr))) = false
  /\ len (request.data (Sample.bare_request proto.OpGetattr)) = 40
  /\ handleRequest MyFS.fs (Sample.bare_request proto.OpGetattr) Sample.w0
     = Panic Sample.w0 []
  /\ frames (res_trace
       (handleRequest MyFS.fs (Sample.bare_request proto.OpGetattr)
                      Sample.w0)) = [].
Proof. repeat split; vm_compute; reflexivity. Qed.

(** C6 (where the code departs from it).  A BATCH_FORGET announcing two
    entries whose body ends after the first one and the node id of the
    second: no frame is written, and [BatchForget] is called with two
    entries, the complete [{5, 1}] followed by a zero-valued [{0, 0}] for
    the truncated one, not with the complete prefix [{5, 1}] alone. *)
Theorem batch_forget_truncated_passes_zero_entry :
  len (bodyBytes Sample.req_batch_truncated) = 8 + 16 + 8
  /\ handleRequest MyFS.fs Sample.req_batch_truncated Sample.w0
     = Ok tt Sample.w0
          [CallBatchForget (newContext Sample.req_batch_truncated)
             [ForgetEntry.mk 5 1; ForgetEntry.mk 0 0]]
  /\ frames (res_trace
       (handleRequest MyFS.fs Sample.req_batch_truncated Sample.w0)) = [].
Proof. repeat split; vm_compute; reflexivity. Qed.

(** C7 (where the code departs from it).  None of GETATTR, OPEN, OPENDIR,
    READ, RELEASE, RELEASEDIR and ACCESS is answered with EINVAL when its
    body is missing: each such request ends in a panic with nothing
    written.  A READ whose body stops after the 8-byte [fh] is not
    rejected either: offset and size are read from what the buffer held
    before (here 7 and 5), [Read] is called with them, and the five
    bytes it returns go out in a success frame. *)
Theorem short_body_is_not_rejected :
  Forall (fun opcode =>
            handleRequest MyFS.fs (Sample.bare_request opcode) Sample.w0
            = Panic Sample.w0 [])
         [ proto.OpGetattr; proto.OpOpen; proto.OpOpendir; proto.OpRead;
           proto.OpRelease; proto.OpReleasedir; proto.OpAccess ]
  /\ len (bodyBytes Sample.req_read_short) = 8
  /\ handleRequest MyFS.fs Sample.req_read_short Sample.w0
     = Ok tt Sample.w0
          [ CallRead (newContext Sample.req_read_short) 2 0 7 5;
            DevWrite (response_bytes Sample.req_read_short
                                     [x57; x6f; x72; x6c; x64]) ]
  /\ frame_error (response_bytes Sample.req_read_short
                                 [x57; x6f; x72; x6c; x64]) = 0.
Proof.
  split; [repeat constructor|repeat split]; vm_compute; reflexivity.
Qed.

(** * Further properties of the code *)

(** ** What the dispatcher does to the filesystem and to the server *)

Section DispatchInvariants.

Context {St : Type}.
Context {rt : Runtime}.
Variable fs : Filesystem.t St.

Lemma lookup_unhandled (opcode : Z) :
  ~ In opcode handled_opcodes -> lookup (handlers fs) opcode = None.
Proof.
  intros H. unfold handled_opcodes in H. cbn [In] in H.
  unfold handlers, lookup.
  repeat match goal with
         | |- context [?k =? opcode] =>
           destruct (Z.eqb_spec k opcode); [exfalso; tauto|]
         end.
  reflexivity.
Qed.

Lemma not_write_set (opcode : Z) :
  ~ In opcode write_set -> isWriteOp opcode = false.
Proof.
  intros H. destruct (isWriteOp opcode) eqn:E; [|reflexivity].
  exfalso. apply H. now apply isWriteOp_write_set.
Qed.

(** X2.  A request whose opcode is neither in the write set nor in the
    handler table is answered with one 16-byte error frame carrying
    -ENOSYS and the request's [unique]; no filesystem method is called
    and nothing changes. *)
Theorem unknown_opcode_enosys (req : request.t) (w : World (St := St)) :
  ~ In (proto.InHeader.Opcode (header req)) write_set ->
  ~ In (proto.InHeader.Opcode (header req)) handled_opcodes ->
  handleRequest fs req w
  = Ok tt w [DevWrite (error_bytes req (Errno syscall.ENOSYS))]
  /\ len (error_bytes req (Errno syscall.ENOSYS)) = 16
  /\ frame_len (error_bytes req (Errno syscall.ENOSYS)) = 16
  /\ frame_error (error_bytes req (Errno syscall.ENOSYS)) = - syscall.ENOSYS
  /\ frame_unique (error_bytes req (Errno syscall.ENOSYS))
     = proto.InHeader.Unique (header req).
Proof.
  intros Hw Hh.
  assert (Hg : (proto.InHeader.Opcode (header req) =? proto.OpForget)
               || (proto.InHeader.Opcode (header req) =? proto.OpBatchForget)
               = false).
  { apply orb_false_intro; apply Z.eqb_neq; intros E; apply Hh;
      rewrite E; unfold handled_opcodes; cbn [In]; tauto. }
  split.
  - unfold handleRequest.
    rewrite (not_write_set _ Hw), (lookup_unhandled _ Hh), sendError_run.
    now rewrite Hg.
  - destruct (error_frame_fields req (toErrno (Some (Errno syscall.ENOSYS))))
      as (Hl & Hlen & He & Hu).
    unfold error_bytes.
    split; [unfold len; now rewrite Hl|].
    split; [exact Hlen|].
    split; [rewrite He; reflexivity|].
    rewrite Hu. apply Z.mod_small, Unique_range.
Qed.

End DispatchInvariants.

Ltac unfold_handlers :=
  cbv delta [handleInit handleDestroy handleLookup handleForget
             handleBatchForget handleGetattr handleReadlink handleOpen
             handleRead handleRelease handleOpendir handleReaddir
             handleReaddirplus handleReleasedir handleStatfs handleAccess
             handleFlush handleInterrupt];
  cbv beta.

Ltac calls_done :=
  unfold calls_at_most;
  cbn [filter is_fs_call is_write negb app];
  first [ left; reflexivity
        | right; eexists; split; [reflexivity | split; reflexivity] ].

Section DispatchTraces.

Context {St : Type}.
Context {rt : Runtime}.
Variable fs : Filesystem.t St.

Lemma server_kept_refl (s : Server.t) : server_kept s s.
Proof. unfold server_kept. tauto. Qed.

Lemma finish_calls (k : Z) (h : handler) (req : request.t)
  (w : World (St := St)) :
  calls_at_most k req (res_trace (h req w)) ->
  calls_at_most k req (res_trace (finish h req w)).
Proof.
  intros H. unfold finish, bind.
  destruct (h req w) as [[e|] w1 tr1|w1 tr1]; cbn [res_trace] in *.
  - rewrite sendError_run.
    destruct ((proto.InHeader.Opcode (header req) =? proto.OpForget)
              || (proto.InHeader.Opcode (header req) =? proto.OpBatchForget));
      cbn [res_trace]; unfold calls_at_most in *; rewrite filter_app;
      cbn [filter is_fs_call is_write negb]; now rewrite app_nil_r.
  - unfold ret. now rewrite app_nil_r.
  - exact H.
Qed.

(** X3.  Handling a request calls at most one filesystem method, and only
    the method of the request's own opcode (Lookup for LOOKUP, ReadDir
    for READDIR, ...), with a context carrying the uid, gid, pid and
    unique of the request's header. *)
Theorem one_call_per_request (req : request.t) (w : World (St := St)) :
  calls_at_most (proto.InHeader.Opcode (header req)) req
                (res_trace (handleRequest fs req w)).
Proof.
  unfold handleRequest.
  destruct (isWriteOp (proto.InHeader.Opcode (header req))) eqn:Hw.
  - rewrite sendError_run.
    destruct ((proto.InHeader.Opcode (header req) =? proto.OpForget)
              || (proto.InHeader.Opcode (header req) =? proto.OpBatchForget));
      left; reflexivity.
  - clear Hw.
    remember (proto.InHeader.Opcode (header req)) as op eqn:Hop.
    unfold handlers, lookup.
    repeat match goal with
           | |- context [?k =? op] =>
             destruct (Z.eqb_spec k op) as [<-|?]
           end.
    all: try (apply finish_calls;
              unfold_handlers;
              run_handler; calls_done).
    rewrite sendError_run.
    destruct ((proto.InHeader.Opcode (header req) =? proto.OpForget)
              || (proto.InHeader.Opcode (header req) =? proto.OpBatchForget));
      left; reflexivity.
Qed.

Lemma finish_server (h : handler) (req : request.t) (w : World (St := St)) :
  server (res_world (finish h req w)) = server (res_world (h req w)).
Proof. now rewrite finish_world. Qed.

(** X4.  Of the server's state a request changes nothing unless it is an
    INIT or a DESTROY; and even these never touch the mount options, the
    device descriptor or the [mounted] flag, and never clear
    [initialized] or [destroyed]. *)
Theorem server_state_changes (req : request.t) (w : World (St := St)) :
  server_kept (server w) (server (res_world (handleRequest fs req w)))
  /\ (proto.InHeader.Opcode (header req) <> proto.OpInit ->
      proto.InHeader.Opcode (header req) <> proto.OpDestroy ->
      server (res_world (handleRequest fs req w)) = server w).
Proof.
  unfold handleRequest.
  destruct (isWriteOp (proto.InHeader.Opcode (header req))) eqn:Hw.
  - rewrite sendError_run.
    destruct ((proto.InHeader.Opcode (header req) =? proto.OpForget)
              || (proto.InHeader.Opcode (header req) =? proto.OpBatchForget));
      cbn [res_world]; split; auto using server_kept_refl.
  - clear Hw.
    remember (proto.InHeader.Opcode (header req)) as op eqn:Hop.
    unfold handlers, lookup.
    repeat match goal with
           | |- context [?k =? op] =>
             destruct (Z.eqb_spec k op) as [<-|?]
           end.
    all: try (match goal with
              | |- context [bind (?h ?r) ?k ?ww] =>
                change (bind (h r) k ww) with (finish h r ww)
              end;
              rewrite finish_server;
              unfold_handlers;
              run_handler;
              (split; [unfold server_kept; cbn; tauto
                      | first [ reflexivity | intros; congruence ] ])).
    rewrite sendError_run.
    destruct ((proto.InHeader.Opcode (header req) =? proto.OpForget)
              || (proto.InHeader.Opcode (header req) =? proto.OpBatchForget));
      cbn [res_world]; split; auto using server_kept_refl.
Qed.

End DispatchTraces.

(** ** The serializers against the struct layouts *)

Lemma load_exact (n : nat) (x : list byte) :
  length x = n -> load n x 0 = le_decode x.
Proof.
  intros H. rewrite <- (app_nil_r x) at 1. now apply load_app_here.
Qed.

Lemma fits_mod (bits v : Z) (n : nat) :
  fits bits v -> bits = 8 * Z.of_nat n -> v mod 2 ^ (8 * Z.of_nat n) = v.
Proof. intros H ->. now apply Z.mod_small. Qed.

(** Read one field back from a byte string written as a concatenation of
    little-endian fields. *)
Ltac load_field :=
  cbn [Nat.add];
  repeat (rewrite load_app_skip by (rewrite length_le_encode; cbn; lia);
          rewrite length_le_encode; cbn [Nat.sub]);
  first [ rewrite load_app_here by apply length_le_encode
        | rewrite load_exact by apply length_le_encode ];
  rewrite le_decode_encode.

Lemma length_attr_bytes (attr : proto.Attr.t) : length (attr_bytes attr) = 88%nat.
Proof. unfold attr_bytes. rewrite !length_app, !length_le_encode. reflexivity. Qed.

Lemma entryOutBytes_layout (out : proto.EntryOut.t) :
  entryOutBytes out
  = le_encode 8 (proto.EntryOut.NodeID out)
    ++ le_encode 8 (proto.EntryOut.Generation out)
    ++ le_encode 8 (proto.EntryOut.EntryValid out)
    ++ le_encode 8 (proto.EntryOut.AttrValid out)
    ++ le_encode 4 (proto.EntryOut.EntryValidNsec out)
    ++ le_encode 4 (proto.EntryOut.AttrValidNsec out)
    ++ attr_bytes (proto.EntryOut.Attr out).
Proof.
  unfold entryOutBytes, writeAttr, attr_bytes, PutUint64, PutUint32.
  change (make proto.EntryOutSize)
    with (repeat x00 8 ++ repeat x00 8 ++ repeat x00 8 ++ repeat x00 8
          ++ repeat x00 4 ++ repeat x00 4
          ++ repeat x00 8 ++ repeat x00 8 ++ repeat x00 8
          ++ repeat x00 8 ++ repeat x00 8 ++ repeat x00 8
          ++ repeat x00 4 ++ repeat x00 4 ++ repeat x00 4 ++ repeat x00 4
          ++ repeat x00 4 ++ repeat x00 4 ++ repeat x00 4 ++ repeat x00 4
          ++ repeat x00 4 ++ repeat x00 4 ++ []).
  cbn [Nat.add].
  store_norm. reflexivity.
Qed.

Lemma load_app_skip_exact (n : nat) (pre b : list byte) (k : nat) :
  load n (pre ++ b) (length pre + k) = load n b k.
Proof.
  rewrite load_app_skip by apply Nat.le_add_r.
  now rewrite Nat.add_comm, Nat.add_sub.
Qed.

(** Replace, one after the other, every field read back from a
    concatenation of little-endian fields by the value written there. *)
Ltac decode_fields :=
  repeat match goal with
         | |- context [load ?n ?m ?q] =>
           let x := fresh "x" in
           remember (load n m q) as x eqn:E;
           revert E;
           rewrite ?load_app_skip_exact;
           load_field;
           (erewrite fits_mod; [| eassumption | reflexivity]);
           intros ->
         end.

Lemma attr_bytes_roundtrip (pre : list byte) (p : nat) (attr : proto.Attr.t)
  (post : list byte) :
  length pre = p -> Attr_fits attr ->
  Attr_at (pre ++ attr_bytes attr ++ post) p = attr.
Proof.
  intros Hp H. destruct attr. unfold Attr_fits in H.
  cbn [proto.Attr.Ino proto.Attr.Size proto.Attr.Blocks proto.Attr.Atime
       proto.Attr.Mtime proto.Attr.Ctime proto.Attr.AtimeNsec
       proto.Attr.MtimeNsec proto.Attr.CtimeNsec proto.Attr.Mode
       proto.Attr.Nlink proto.Attr.Uid proto.Attr.Gid proto.Attr.Rdev
       proto.Attr.Blksize proto.Attr.Flags] in H.
  decompose [and] H. clear H.
  unfold Attr_at, attr_bytes.
  cbn [proto.Attr.Ino proto.Attr.Size proto.Attr.Blocks proto.Attr.Atime
       proto.Attr.Mtime proto.Attr.Ctime proto.Attr.AtimeNsec
       proto.Attr.MtimeNsec proto.Attr.CtimeNsec proto.Attr.Mode
       proto.Attr.Nlink proto.Attr.Uid proto.Attr.Gid proto.Attr.Rdev
       proto.Attr.Blksize proto.Attr.Flags].
  rewrite <- !app_assoc. subst p.
  decode_fields. reflexivity.
Qed.

Lemma entryOut_decode (out : proto.EntryOut.t) :
  EntryOut_fits out -> EntryOut_at (entryOutBytes out) 0 = out.
Proof.
  intros H. rewrite entryOutBytes_layout.
  destruct out as [n g ev av evn avn a]. unfold EntryOut_fits in H.
  cbn [proto.EntryOut.NodeID proto.EntryOut.Generation
       proto.EntryOut.EntryValid proto.EntryOut.AttrValid
       proto.EntryOut.EntryValidNsec proto.EntryOut.AttrValidNsec
       proto.EntryOut.Attr] in *.
  decompose [and] H. clear H.
  unfold EntryOut_at. cbn [Nat.add].
  match goal with
  | |- context [Attr_at ?m 40] =>
    replace (Attr_at m 40) with a
  end.
  - decode_fields. reflexivity.
  - symmetry.
    rewrite <- (app_nil_r (attr_bytes a)).
    rewrite !app_assoc, <- (app_assoc _ (attr_bytes a) []).
    apply attr_bytes_roundtrip; [|assumption].
    rewrite !length_app, !length_le_encode. reflexivity.
Qed.

(** X7.  The 128 bytes of an EntryOut reply read back, through the
    struct layout (node id at 0, generation at 8, entry and attribute
    validity at 16 and 24, their nanoseconds at 32 and 36, the 88-byte
    Attr at 40), as the very values serialized, whenever each value is
    within the range of its field. *)
Theorem entryOutBytes_roundtrip (out : proto.EntryOut.t) :
  EntryOut_fits out ->
  length (entryOutBytes out) = 128%nat
  /\ EntryOut_at (entryOutBytes out) 0 = out.
Proof.
  intros H. split.
  - apply length_entryOutBytes.
  - now apply entryOut_decode.
Qed.

Lemma entryOutBytes_roundtrip_witness :
  EntryOut_fits Example.entry_out
  /\ length (entryOutBytes Example.entry_out) = 128%nat
  /\ EntryOut_at (entryOutBytes Example.entry_out) 0 = Example.entry_out.
Proof.
  assert (H : EntryOut_fits Example.entry_out)
    by (vm_compute; repeat split; discriminate || reflexivity).
  split; [exact H | exact (entryOutBytes_roundtrip Example.entry_out H)].
Defined.

Lemma attrOutBytes_layout (out : proto.AttrOut.t) :
  attrOutBytes out
  = le_encode 8 (proto.AttrOut.AttrValid out)
    ++ le_encode 4 (proto.AttrOut.AttrValidNsec out)
    ++ le_encode 4 (proto.AttrOut.Dummy out)
    ++ attr_bytes (proto.AttrOut.Attr out).
Proof.
  unfold attrOutBytes, writeAttr, attr_bytes, PutUint64, PutUint32.
  change (make proto.AttrOutSize)
    with (repeat x00 8 ++ repeat x00 4 ++ repeat x00 4
          ++ repeat x00 8 ++ repeat x00 8 ++ repeat x00 8
          ++ repeat x00 8 ++ repeat x00 8 ++ repeat x00 8
          ++ repeat x00 4 ++ repeat x00 4 ++ repeat x00 4 ++ repeat x00 4
          ++ repeat x00 4 ++ repeat x00 4 ++ repeat x00 4 ++ repeat x00 4
          ++ repeat x00 4 ++ repeat x00 4 ++ []).
  cbn [Nat.add].
  store_norm. reflexivity.
Qed.

Lemma attrOut_decode (out : proto.AttrOut.t) :
  AttrOut_fits out -> AttrOut_at (attrOutBytes out) 0 = out.
Proof.
  intros H. rewrite attrOutBytes_layout.
  destruct out as [av avn d a]. unfold AttrOut_fits in H.
  cbn [proto.AttrOut.AttrValid proto.AttrOut.AttrValidNsec
       proto.AttrOut.Dummy proto.AttrOut.Attr] in *.
  decompose [and] H. clear H.
  unfold AttrOut_at. cbn [Nat.add].
  match goal with
  | |- context [Attr_at ?m 16] =>
    replace (Attr_at m 16) with a
  end.
  - decode_fields. reflexivity.
  - symmetry.
    rewrite <- (app_nil_r (attr_bytes a)).
    rewrite !app_assoc, <- (app_assoc _ (attr_bytes a) []).
    apply attr_bytes_roundtrip; [|assumption].
    rewrite !length_app, !length_le_encode. reflexivity.
Qed.

Lemma length_attrOutBytes (out : proto.AttrOut.t) :
  length (attrOutBytes out) = 104%nat.
Proof.
  rewrite attrOutBytes_layout, !length_app, !length_le_encode,
    length_attr_bytes. reflexivity.
Qed.

(** X8.  The 104 bytes of an AttrOut reply read back, through the struct
    layout (validity at 0, its nanoseconds at 8, the dummy word at 12,
    the 88-byte Attr at 16), as the values serialized, whenever each
    value is within the range of its field. *)
Theorem attrOutBytes_roundtrip (out : proto.AttrOut.t) :
  AttrOut_fits out ->
  length (attrOutBytes out) = 104%nat
  /\ AttrOut_at (attrOutBytes out) 0 = out.
Proof.
  intros H. split.
  - apply length_attrOutBytes.
  - now apply attrOut_decode.
Qed.

Lemma attrOutBytes_roundtrip_witness :
  AttrOut_fits Example.attr_out
  /\ length (attrOutBytes Example.attr_out) = 104%nat
  /\ AttrOut_at (attrOutBytes Example.attr_out) 0 = Example.attr_out.
Proof.
  assert (H : AttrOut_fits Example.attr_out)
    by (vm_compute; repeat split; discriminate || reflexivity).
  split; [exact H | exact (attrOutBytes_roundtrip Example.attr_out H)].
Defined.

Lemma openOutBytes_layout (out : proto.OpenOut.t) :
  openOutBytes out
  = le_encode 8 (proto.OpenOut.Fh out)
    ++ le_encode 4 (proto.OpenOut.OpenFlags out)
    ++ le_encode 4 (proto.OpenOut.Padding out).
Proof.
  unfold openOutBytes, PutUint64, PutUint32.
  change (make proto.OpenOutSize)
    with (repeat x00 8 ++ repeat x00 4 ++ repeat x00 4 ++ []).
  store_norm. reflexivity.
Qed.

Lemma openOut_decode (out : proto.OpenOut.t) :
  OpenOut_fits out -> OpenOut_at (openOutBytes out) 0 = out.
Proof.
  intros H. rewrite openOutBytes_layout.
  destruct out as [fh fl pad]. unfold OpenOut_fits in H.
  cbn [proto.OpenOut.Fh proto.OpenOut.OpenFlags proto.OpenOut.Padding] in *.
  decompose [and] H. clear H.
  unfold OpenOut_at. cbn [Nat.add].
  decode_fields. reflexivity.
Qed.

Lemma length_openOutBytes (out : proto.OpenOut.t) :
  length (openOutBytes out) = 16%nat.
Proof.
  rewrite openOutBytes_layout, !length_app, !length_le_encode. reflexivity.
Qed.

(** X9.  The 16 bytes of an OpenOut reply read back, through the struct
    layout (handle at 0, open flags at 8, padding at 12), as the values
    serialized, whenever each value is within the range of its field. *)
Theorem openOutBytes_roundtrip (out : proto.OpenOut.t) :
  OpenOut_fits out ->
  length (openOutBytes out) = 16%nat
  /\ OpenOut_at (openOutBytes out) 0 = out.
Proof.
  intros H. split.
  - apply length_openOutBytes.
  - now apply openOut_decode.
Qed.

Lemma openOutBytes_roundtrip_witness :
  OpenOut_fits Example.open_out
  /\ length (openOutBytes Example.open_out) = 16%nat
  /\ OpenOut_at (openOutBytes Example.open_out) 0 = Example.open_out.
Proof.
  assert (H : OpenOut_fits Example.open_out)
    by (vm_compute; repeat split; discriminate || reflexivity).
  split; [exact H | exact (openOutBytes_roundtrip Example.open_out H)].
Defined.

Lemma statfsOutBytes_layout (out : proto.StatfsOut.t) :
  statfsOutBytes out
  = le_encode 8 (proto.Kstatfs.Blocks (proto.StatfsOut.St out))
    ++ le_encode 8 (proto.Kstatfs.Bfree (proto.StatfsOut.St out))
    ++ le_encode 8 (proto.Kstatfs.Bavail (proto.StatfsOut.St out))
    ++ le_encode 8 (proto.Kstatfs.Files (proto.StatfsOut.St out))
    ++ le_encode 8 (proto.Kstatfs.Ffree (proto.StatfsOut.St out))
    ++ le_encode 4 (proto.Kstatfs.Bsize (proto.StatfsOut.St out))
    ++ le_encode 4 (proto.Kstatfs.Namelen (proto.StatfsOut.St out))
    ++ le_encode 4 (proto.Kstatfs.Frsize (proto.StatfsOut.St out))
    ++ repeat x00 12.
Proof.
  unfold statfsOutBytes, PutUint64, PutUint32.
  change (make proto.StatfsOutSize)
    with (repeat x00 8 ++ repeat x00 8 ++ repeat x00 8 ++ repeat x00 8
          ++ repeat x00 8 ++ repeat x00 4 ++ repeat x00 4 ++ repeat x00 4
          ++ repeat x00 12).
  cbv zeta.
  store_norm. reflexivity.
Qed.

Lemma statfs_decode (out : proto.StatfsOut.t) :
  Kstatfs_fits (proto.StatfsOut.St out) ->
  Kstatfs_at (statfsOutBytes out) 0 = proto.StatfsOut.St out.
Proof.
  intros H. rewrite statfsOutBytes_layout.
  destruct out as [[b bf ba f ff bs nl fr]]. unfold Kstatfs_fits in H.
  cbn [proto.StatfsOut.St proto.Kstatfs.Blocks proto.Kstatfs.Bfree
       proto.Kstatfs.Bavail proto.Kstatfs.Files proto.Kstatfs.Ffree
       proto.Kstatfs.Bsize proto.Kstatfs.Namelen proto.Kstatfs.Frsize] in *.
  decompose [and] H. clear H.
  unfold Kstatfs_at. cbn [Nat.add].
  decode_fields. reflexivity.
Qed.

Lemma length_statfsOutBytes (out : proto.StatfsOut.t) :
  length (statfsOutBytes out) = 64%nat.
Proof.
  rewrite statfsOutBytes_layout, !length_app, !length_le_encode,
    repeat_length. reflexivity.
Qed.

(** X10.  A STATFS payload is 64 bytes long: the five 64-bit counters and
    the three 32-bit sizes read back at offsets 0 to 48 as the values
    serialized (each within the range of its field), and everything from
    byte 52 on is zero. *)
Theorem statfsOutBytes_roundtrip (out : proto.StatfsOut.t) :
  Kstatfs_fits (proto.StatfsOut.St out) ->
  length (statfsOutBytes out) = 64%nat
  /\ Kstatfs_at (statfsOutBytes out) 0 = proto.StatfsOut.St out
  /\ skipn 52 (statfsOutBytes out) = repeat x00 12.
Proof.
  intros H.
  split; [apply length_statfsOutBytes|].
  split; [now apply statfs_decode|].
  rewrite statfsOutBytes_layout, !app_assoc.
  rewrite skipn_app, skipn_all2
    by (rewrite !length_app, !length_le_encode; apply Nat.le_refl).
  rewrite !length_app, !length_le_encode. reflexivity.
Qed.

Lemma statfsOutBytes_roundtrip_witness :
  Kstatfs_fits (proto.StatfsOut.St Example.statfs_out)
  /\ length (statfsOutBytes Example.statfs_out) = 64%nat
  /\ Kstatfs_at (statfsOutBytes Example.statfs_out) 0
     = proto.StatfsOut.St Example.statfs_out
  /\ skipn 52 (statfsOutBytes Example.statfs_out) = repeat x00 12.
Proof.
  assert (H : Kstatfs_fits (proto.StatfsOut.St Example.statfs_out))
    by (vm_compute; repeat split; discriminate || reflexivity).
  split; [exact H | exact (statfsOutBytes_roundtrip Example.statfs_out H)].
Defined.

Lemma initOut_decode (out : proto.InitOut.t) :
  InitOut_fits out -> InitOut_at (initOutBytes out) 0 = out.
Proof.
  intros H. rewrite initOutBytes_layout.
  destruct out. unfold InitOut_fits in H.
  cbn [proto.InitOut.Major proto.InitOut.Minor proto.InitOut.MaxReadahead
       proto.InitOut.Flags proto.InitOut.MaxBackground
       proto.InitOut.CongestionThreshold proto.InitOut.MaxWrite
       proto.InitOut.TimeGran proto.InitOut.MaxPages
       proto.InitOut.MapAlignment proto.InitOut.Flags2
       proto.InitOut.MaxStackDepth] in *.
  decompose [and] H. clear H.
  unfold InitOut_at. cbn [Nat.add].
  decode_fields. reflexivity.
Qed.

Lemma length_initOutBytes (out : proto.InitOut.t) :
  length (initOutBytes out) = 64%nat.
Proof.
  rewrite initOutBytes_layout, !length_app, !length_le_encode,
    repeat_length. reflexivity.
Qed.

(** X11.  The INIT payload is 64 bytes long: its twelve fields read back
    at the offsets of the InitOut struct as the values serialized (each
    within the range of its field), and the 24 bytes from offset 40 on,
    the unused words, are zero. *)
Theorem initOutBytes_roundtrip (out : proto.InitOut.t) :
  InitOut_fits out ->
  length (initOutBytes out) = 64%nat
  /\ InitOut_at (initOutBytes out) 0 = out
  /\ skipn 40 (initOutBytes out) = repeat x00 24.
Proof.
  intros H.
  split; [apply length_initOutBytes|].
  split; [now apply initOut_decode|].
  rewrite initOutBytes_layout, !app_assoc.
  rewrite skipn_app, skipn_all2
    by (rewrite !length_app, !length_le_encode; apply Nat.le_refl).
  rewrite !length_app, !length_le_encode. reflexivity.
Qed.

Lemma initOutBytes_roundtrip_witness :
  InitOut_fits Example.init_out
  /\ length (initOutBytes Example.init_out) = 64%nat
  /\ InitOut_at (initOutBytes Example.init_out) 0 = Example.init_out
  /\ skipn 40 (initOutBytes Example.init_out) = repeat x00 24.
Proof.
  assert (H : InitOut_fits Example.init_out)
    by (vm_compute; repeat split; discriminate || reflexivity).
  split; [exact H | exact (initOutBytes_roundtrip Example.init_out H)].
Defined.

(** ** Instances *)

Lemma unknown_opcode_enosys_witness :
  ~ In (proto.InHeader.Opcode (header Example.req_unknown)) write_set
  /\ ~ In (proto.InHeader.Opcode (header Example.req_unknown)) handled_opcodes
  /\ handleRequest MyFS.fs Example.req_unknown Sample.w0
     = Ok tt Sample.w0
          [DevWrite (error_bytes Example.req_unknown (Errno syscall.ENOSYS))].
Proof.
  assert (H1 : ~ In (proto.InHeader.Opcode (header Example.req_unknown))
                    write_set)
    by (vm_compute; intuition discriminate).
  assert (H2 : ~ In (proto.InHeader.Opcode (header Example.req_unknown))
                    handled_opcodes)
    by (vm_compute; intuition discriminate).
  split; [exact H1|]. split; [exact H2|].
  exact (proj1 (unknown_opcode_enosys MyFS.fs Example.req_unknown Sample.w0
                  H1 H2)).
Defined.

Lemma typed_body_absent_panics_witness :
  len (request.data (Sample.bare_request proto.OpOpen)) <= proto.InHeaderSize
  /\ In (proto.InHeader.Opcode (header (Sample.bare_request proto.OpOpen)))
        typed_body_opcodes
  /\ handleRequest MyFS.fs (Sample.bare_request proto.OpOpen) Sample.w0
     = Panic Sample.w0 [].
Proof.
  assert (H1 : len (request.data (Sample.bare_request proto.OpOpen))
               <= proto.InHeaderSize)
    by (vm_compute; discriminate).
  assert (H2 : In (proto.InHeader.Opcode
                     (header (Sample.bare_request proto.OpOpen)))
                  typed_body_opcodes)
    by (vm_compute; repeat (first [left; reflexivity | right])).
  split; [exact H1|]. split; [exact H2|].
  exact (typed_body_absent_panics MyFS.fs (Sample.bare_request proto.OpOpen)
           Sample.w0 H1 H2).
Defined.

Lemma handleBatchForget_passes_count_witness :
  proto.InHeader.Opcode (header Sample.req_batch_truncated)
  = proto.OpBatchForget
  /\ proto.BatchForgetInSize <= len (bodyBytes Sample.req_batch_truncated)
  /\ can_make (load 4 (mem Sample.req_batch_truncated) 40) = true
  /\ (let count := load 4 (mem Sample.req_batch_truncated) 40 in
      let entries :=
        batchForget_loop (bodyBytes Sample.req_batch_truncated)
                         (Z.to_nat count) 0 proto.BatchForgetInSize
                         (repeat ForgetEntry.zero (Z.to_nat count)) in
      handleRequest MyFS.fs Sample.req_batch_truncated Sample.w0
      = Ok tt (mkWorld (server Sample.w0)
                 (Filesystem.BatchForget MyFS.fs
                    (newContext Sample.req_batch_truncated) entries
                    (fsstate Sample.w0)))
           [CallBatchForget (newContext Sample.req_batch_truncated) entries]
      /\ length entries = Z.to_nat count).
Proof.
  assert (H1 : proto.InHeader.Opcode (header Sample.req_batch_truncated)
               = proto.OpBatchForget)
    by (vm_compute; reflexivity).
  assert (H2 : proto.BatchForgetInSize
               <= len (bodyBytes Sample.req_batch_truncated))
    by (vm_compute; discriminate).
  assert (H3 : can_make (load 4 (mem Sample.req_batch_truncated) 40) = true)
    by (vm_compute; reflexivity).
  split; [exact H1|]. split; [exact H2|]. split; [exact H3|].
  exact (proj1 (handleBatchForget_passes_count MyFS.fs
                  Sample.req_batch_truncated Sample.w0 H1 H2) H3).
Defined.

(** ** File names *)

Lemma until_nul_spec (bs : list byte) :
  exists rest : list byte,
    bs = until_nul bs ++ rest
    /\ ~ In x00 (until_nul bs)
    /\ (rest = [] \/ exists r, rest = x00 :: r).
Proof.
  induction bs as [|b r (rest & Heq & Hnot & Hrest)].
  - exists []. cbn. tauto.
  - cbn [until_nul]. destruct (Byte.eqb b x00) eqn:E.
    + apply Byte.byte_dec_bl in E. subst b.
      exists (x00 :: r). cbn. split; [reflexivity|]. split; [tauto|].
      right. now exists r.
    + exists rest. split; [cbn; now rewrite <- Heq|]. split; [|exact Hrest].
      intros [H|H]; [|tauto]. subst b. discriminate E.
Qed.

(** X12.  The name a request carries is the part of its body before the
    first NUL byte, the whole body when it holds none: it is a prefix of
    the body, contains no NUL, and what follows it is nothing or starts
    with a NUL.  A request made of the header alone has the empty name. *)
Theorem filename_prefix_of_body (req : request.t) :
  (exists rest : list byte,
     bodyBytes req = filename req ++ rest
     /\ ~ In x00 (filename req)
     /\ (rest = [] \/ exists r, rest = x00 :: r))
  /\ (~ In x00 (bodyBytes req) -> filename req = bodyBytes req)
  /\ (len (request.data req) <= proto.InHeaderSize -> filename req = []).
Proof.
  unfold filename. split; [apply until_nul_spec|]. split.
  - intros Hno.
    destruct (until_nul_spec (bodyBytes req)) as (rest & Heq & _ & [->|[r ->]]).
    + now rewrite app_nil_r in Heq.
    + exfalso. apply Hno. rewrite Heq. apply in_or_app. right. now left.
  - intros H. unfold bodyBytes. apply Z.leb_le in H. now rewrite H.
Qed.

(** ** File modes *)

Lemma perm_u32 (mode : Z) : u32 (os.Perm mode) = Z.land mode 511.
Proof.
  unfold u32, os.Perm, os.ModePerm.
  change 511 with (Z.ones 9). rewrite Z.land_ones by lia.
  apply Z.mod_small.
  pose proof (Z.mod_pos_bound mode (2 ^ 9) eq_refl). lia.
Qed.

Lemma perm_land (mode c : Z) :
  Z.land 511 c = 0 -> Z.land (Z.land mode 511) c = 0.
Proof. intros H. now rewrite <- Z.land_assoc, H, Z.land_0_r. Qed.

Lemma perm_land_perm (mode : Z) :
  Z.land (Z.land mode 511) 511 = Z.land mode 511.
Proof. now rewrite <- Z.land_assoc. Qed.

Lemma type_device_not_char (mode : Z) :
  os.Type_ mode = os.ModeDevice -> Z.land mode os.ModeCharDevice = 0.
Proof.
  intros H.
  change os.ModeCharDevice with (Z.land os.ModeType os.ModeCharDevice).
  rewrite Z.land_assoc. unfold os.Type_ in H. rewrite H. reflexivity.
Qed.

Lemma type_char_not_single (mode : Z) :
  Z.land mode os.ModeCharDevice <> 0 ->
  (os.Type_ mode =? os.ModeDir) = false
  /\ (os.Type_ mode =? os.ModeSymlink) = false
  /\ (os.Type_ mode =? os.ModeNamedPipe) = false
  /\ (os.Type_ mode =? os.ModeSocket) = false
  /\ (os.Type_ mode =? os.ModeDevice) = false.
Proof.
  intros H.
  assert (K : forall k, Z.land k os.ModeCharDevice = 0 ->
                        (os.Type_ mode =? k) = false).
  { intros k Hk. apply Z.eqb_neq. intros E. apply H.
    change os.ModeCharDevice with (Z.land os.ModeType os.ModeCharDevice).
    rewrite Z.land_assoc. fold (os.Type_ mode). now rewrite E. }
  repeat split; apply K; reflexivity.
Qed.

(** Split every conditional of a mode conversion, then evaluate the masks:
    the permission bits meet no constant, constants meet by computation. *)
Ltac mode_cases :=
  repeat match goal with
         | |- context [if ?c then _ else _] => destruct c eqn:?
         end.

Ltac mode_norm :=
  rewrite ?Z.land_lor_distr_l;
  rewrite ?perm_land_perm;
  rewrite ?perm_land by reflexivity;
  repeat match goal with
         | |- context [Z.land ?k ?c] =>
           lazymatch k with
           | context [Z.land] => fail
           | _ => let v := eval vm_compute in (Z.land k c) in
                  change (Z.land k c) with v
           end
         end;
  rewrite ?Z.lor_0_r; cbn [Z.lor Pos.lor].

(** X13.  [fileModeToUnix] keeps the nine permission bits of the mode as
    they are and carries setuid, setgid and sticky over: bit 23 of the Go
    mode becomes octal 04000, bit 22 becomes 02000 and bit 20 becomes
    01000, each set exactly when the Go bit is. *)
Theorem fileModeToUnix_bits (mode : Z) :
  Z.land (fileModeToUnix mode) os.ModePerm = Z.land mode os.ModePerm
  /\ (Z.land (fileModeToUnix mode) proto.ModeSetuid =? 0)
     = (Z.land mode os.ModeSetuid =? 0)
  /\ (Z.land (fileModeToUnix mode) proto.ModeSetgid =? 0)
     = (Z.land mode os.ModeSetgid =? 0)
  /\ (Z.land (fileModeToUnix mode) proto.ModeSticky =? 0)
     = (Z.land mode os.ModeSticky =? 0).
Proof.
  unfold fileModeToUnix. rewrite perm_u32.
  unfold os.ModePerm, proto.ModeSetuid, proto.ModeSetgid, proto.ModeSticky,
    proto.ModeDir, proto.ModeSymlink, proto.ModeFifo, proto.ModeSocket,
    proto.ModeChar, proto.ModeBlock, proto.ModeRegular.
  cbv zeta.
  destruct (Z.land mode os.ModeSetuid =? 0);
    destruct (Z.land mode os.ModeSetgid =? 0);
    destruct (Z.land mode os.ModeSticky =? 0);
    cbn [negb];
    mode_cases;
    (split; [|split; [|split]]); mode_norm; reflexivity.
Qed.

(** X14.  The file type [fileModeToUnix] stamps is one of directory,
    symlink, FIFO, socket, block device and regular file, and the entry
    type [fileModeToType] returns is one of the six matching DT values:
    neither ever reports a character device. *)
Theorem fileMode_type_never_char (mode : Z) :
  In (Z.land (fileModeToUnix mode) ModeTypeMask)
     [ proto.ModeDir; proto.ModeSymlink; proto.ModeFifo; proto.ModeSocket;
       proto.ModeBlock; proto.ModeRegular ]
  /\ Z.land (fileModeToUnix mode) ModeTypeMask <> proto.ModeChar
  /\ In (fileModeToType mode)
        [ proto.DtDir; proto.DtLnk; proto.DtFifo; proto.DtSock; proto.DtBlk;
          proto.DtReg ]
  /\ fileModeToType mode <> proto.DtChr.
Proof.
  assert (A : In (Z.land (fileModeToUnix mode) ModeTypeMask)
                 [ proto.ModeDir; proto.ModeSymlink; proto.ModeFifo;
                   proto.ModeSocket; proto.ModeBlock; proto.ModeRegular ]).
  { unfold fileModeToUnix. rewrite perm_u32.
    unfold ModeTypeMask, proto.ModeSetuid, proto.ModeSetgid, proto.ModeSticky,
      proto.ModeDir, proto.ModeSymlink, proto.ModeFifo, proto.ModeSocket,
      proto.ModeChar, proto.ModeBlock, proto.ModeRegular.
    cbv zeta.
    destruct (os.Type_ mode =? os.ModeDevice) eqn:Ed.
    - apply Z.eqb_eq, type_device_not_char in Ed. rewrite Ed.
      cbn [Z.eqb negb].
      mode_cases; mode_norm; cbn [In]; tauto.
    - mode_cases; mode_norm; cbn [In]; tauto. }
  assert (B : In (fileModeToType mode)
                 [ proto.DtDir; proto.DtLnk; proto.DtFifo; proto.DtSock;
                   proto.DtBlk; proto.DtReg ]).
  { unfold fileModeToType. cbv zeta.
    destruct (os.Type_ mode =? os.ModeDevice) eqn:Ed.
    - apply Z.eqb_eq, type_device_not_char in Ed. rewrite Ed.
      cbn [Z.eqb negb].
      mode_cases; cbn [In]; tauto.
    - mode_cases; cbn [In]; tauto. }
  split; [exact A|]. split; [|split; [exact B|]].
  - intros E. rewrite E in A. cbn [In] in A.
    repeat (destruct A as [A|A]; [discriminate A|]). exact A.
  - intros E. rewrite E in B. cbn [In] in B.
    repeat (destruct B as [B|B]; [discriminate B|]). exact B.
Qed.

(** X15.  A mode with [os.ModeCharDevice] set, as package os gives every
    character device, never reaches the device case of the type switch,
    because [mode.Type()] keeps that bit: it is sent to the kernel as a
    regular file, in the attributes and in directory listings. *)
Theorem char_device_reported_regular (mode : Z) :
  Z.land mode os.ModeCharDevice <> 0 ->
  Z.land (fileModeToUnix mode) ModeTypeMask = proto.ModeRegular
  /\ fileModeToType mode = proto.DtReg.
Proof.
  intros H.
  destruct (type_char_not_single mode H) as (E1 & E2 & E3 & E4 & E5).
  split.
  - unfold fileModeToUnix. rewrite perm_u32, E1, E2, E3, E4, E5.
    unfold ModeTypeMask, proto.ModeSetuid, proto.ModeSetgid, proto.ModeSticky,
      proto.ModeRegular.
    cbv zeta.
    mode_cases; mode_norm; reflexivity.
  - unfold fileModeToType. cbv zeta. now rewrite E1, E2, E3, E4, E5.
Qed.

Lemma char_device_reported_regular_witness :
  Z.land (char_device 420) os.ModeCharDevice <> 0
  /\ Z.land (fileModeToUnix (char_device 420)) ModeTypeMask
     = proto.ModeRegular
  /\ fileModeToType (char_device 420) = proto.DtReg.
Proof.
  assert (H : Z.land (char_device 420) os.ModeCharDevice <> 0)
    by (vm_compute; discriminate).
  split; [exact H | exact (char_device_reported_regular (char_device 420) H)].
Defined.

(** ** What each handler sends *)

Lemma u64_fits (z : Z) : fits 64 (u64 z).
Proof. apply Z.mod_pos_bound. reflexivity. Qed.

Lemma u32_fits (z : Z) : fits 32 (u32 z).
Proof. apply Z.mod_pos_bound. reflexivity. Qed.

Lemma fileModeToUnix_fits (mode : Z) : fits 32 (fileModeToUnix mode).
Proof.
  assert (H : Z.land (fileModeToUnix mode) (Z.ones 16) = fileModeToUnix mode).
  { unfold fileModeToUnix. rewrite perm_u32.
    assert (HP : Z.land (Z.land mode 511) (Z.ones 16) = Z.land mode 511)
      by now rewrite <- Z.land_assoc.
    set (P := Z.land mode 511) in *.
    cbv zeta. mode_cases; rewrite ?Z.land_lor_distr_l, HP; reflexivity. }
  rewrite <- H, Z.land_ones by lia.
  pose proof (Z.mod_pos_bound (fileModeToUnix mode) (2 ^ 16) eq_refl).
  unfold fits. lia.
Qed.

Lemma attrToProto_fits (a : Attr.t) :
  Attr_typed a -> Attr_fits (attrToProto a).
Proof.
  intros (H1 & H2 & H3 & H4 & H5 & H6 & H7).
  unfold Attr_fits, attrToProto.
  cbn [proto.Attr.Ino proto.Attr.Size proto.Attr.Blocks proto.Attr.Atime
       proto.Attr.Mtime proto.Attr.Ctime proto.Attr.AtimeNsec
       proto.Attr.MtimeNsec proto.Attr.CtimeNsec proto.Attr.Mode
       proto.Attr.Nlink proto.Attr.Uid proto.Attr.Gid proto.Attr.Rdev
       proto.Attr.Blksize proto.Attr.Flags].
  repeat split;
    first [ assumption | apply u64_fits | apply u32_fits
          | apply fileModeToUnix_fits | apply H1 | apply H2 | apply H3
          | apply H4 | apply H5 | apply H6 | apply H7 | reflexivity
          | discriminate ].
Qed.

Lemma entryToProto_fits (e : Entry.t) :
  Entry_typed e -> EntryOut_fits (entryToProto e).
Proof.
  intros (Hg & Ha).
  unfold EntryOut_fits, entryToProto, durationToTimespec.
  cbn [proto.EntryOut.NodeID proto.EntryOut.Generation
       proto.EntryOut.EntryValid proto.EntryOut.AttrValid
       proto.EntryOut.EntryValidNsec proto.EntryOut.AttrValidNsec
       proto.EntryOut.Attr].
  split; [apply u64_fits|]. split; [exact Hg|].
  split; [apply u64_fits|]. split; [apply u64_fits|].
  split; [apply u32_fits|]. split; [apply u32_fits|].
  now apply attrToProto_fits.
Qed.

Section HandlerReplies.

Context {St : Type}.
Context {rt : Runtime}.
Variable fs : Filesystem.t St.

Lemma present_body_cast {T : Type} (view : list byte -> nat -> T)
  (req : request.t) :
  proto.InHeaderSize < len (request.data req) ->
  cast view req = Some (view (mem req) 40%nat).
Proof.
  intros H. unfold cast, body.
  destruct (Z.leb_spec (len (request.data req)) proto.InHeaderSize);
    [lia | reflexivity].
Qed.

Lemma reply_opcode (req : request.t) (k : Z) :
  proto.InHeader.Opcode (header req) = k ->
  k <> proto.OpForget -> k <> proto.OpBatchForget ->
  (proto.InHeader.Opcode (header req) =? proto.OpForget)
  || (proto.InHeader.Opcode (header req) =? proto.OpBatchForget) = false.
Proof.
  intros -> H1 H2. apply orb_false_intro; now apply Z.eqb_neq.
Qed.

(** X16.  LOOKUP asks the filesystem for the name found in the body, under
    the node of the header.  An error it returns goes out as the error
    frame of that error; an entry goes out as a 144-byte success frame
    whose payload reads back as the entry converted by [entryToProto];
    a nil entry with a nil error makes the handler panic after the call,
    with nothing sent. *)
Theorem lookup_reply (req : request.t) (w : World (St := St)) :
  proto.InHeader.Opcode (header req) = proto.OpLookup ->
  let ctx := newContext req in
  let parent := proto.InHeader.NodeID (header req) in
  let name := filename req in
  match Filesystem.Lookup fs ctx parent name (fsstate w) with
  | (_, Some e, st) =>
    handleRequest fs req w
    = Ok tt (mkWorld (server w) st)
         [CallLookup ctx parent name; DevWrite (error_bytes req e)]
  | (Some entry, None, st) =>
    let frame := response_bytes req (entryOutBytes (entryToProto entry)) in
    handleRequest fs req w
    = Ok tt (mkWorld (server w) st)
         [CallLookup ctx parent name; DevWrite frame]
    /\ len frame = 144
    /\ (Entry_typed entry ->
        EntryOut_at (frame_payload frame) 0 = entryToProto entry)
  | (None, None, st) =>
    handleRequest fs req w
    = Panic (mkWorld (server w) st) [CallLookup ctx parent name]
  end.
Proof.
  intros Hk ctx parent name.
  rewrite (handleRequest_dispatch fs _ _ req w Hk eq_refl eq_refl).
  unfold finish, handleLookup, bind, call.
  fold ctx parent name.
  destruct (Filesystem.Lookup fs ctx parent name (fsstate w))
    as [[entry [e|]] st].
  - unfold ret. rewrite sendError_run.
    rewrite (reply_opcode req _ Hk) by discriminate.
    now destruct entry.
  - destruct entry as [entry|]; [|reflexivity].
    cbv zeta. split; [reflexivity|].
    destruct (success_frame_fields req (entryOutBytes (entryToProto entry)))
      as (Hl & _ & _ & _ & Hp).
    split.
    + rewrite Hl. unfold len. now rewrite length_entryOutBytes.
    + intros Ht. rewrite Hp.
      apply entryOut_decode. now apply entryToProto_fits.
Qed.

(** X17.  GETATTR passes the file handle of the body only when bit 0 of
    its flags is set, nil otherwise.  An error of the filesystem goes
    out as its error frame; attributes go out as a 120-byte success
    frame whose payload reads back as validity 1 s, 0 ns and the
    attributes converted by [attrToProto]; nil attributes with a nil
    error make the handler panic after the call, with nothing sent. *)
Theorem getattr_reply (req : request.t) (w : World (St := St)) :
  proto.InHeader.Opcode (header req) = proto.OpGetattr ->
  proto.InHeaderSize < len (request.data req) ->
  let in_ := GetAttrIn_at (mem req) 40 in
  let fh := if negb (Z.land (proto.GetAttrIn.Flags in_) proto.GetattrFh =? 0)
            then Some (proto.GetAttrIn.Fh in_) else None in
  let ctx := newContext req in
  let ino := proto.InHeader.NodeID (header req) in
  match Filesystem.GetAttr fs ctx ino fh (fsstate w) with
  | (_, Some e, st) =>
    handleRequest fs req w
    = Ok tt (mkWorld (server w) st)
         [CallGetAttr ctx ino fh; DevWrite (error_bytes req e)]
  | (Some attr, None, st) =>
    let out := proto.AttrOut.mk 1 0 0 (attrToProto attr) in
    let frame := response_bytes req (attrOutBytes out) in
    handleRequest fs req w
    = Ok tt (mkWorld (server w) st) [CallGetAttr ctx ino fh; DevWrite frame]
    /\ len frame = 120
    /\ (Attr_typed attr -> AttrOut_at (frame_payload frame) 0 = out)
  | (None, None, st) =>
    handleRequest fs req w
    = Panic (mkWorld (server w) st) [CallGetAttr ctx ino fh]
  end.
Proof.
  intros Hk Hb in_ fh ctx ino.
  rewrite (handleRequest_dispatch fs _ _ req w Hk eq_refl eq_refl).
  unfold finish, handleGetattr.
  rewrite (present_body_cast _ req Hb).
  unfold bind, call, deref, ret.
  fold in_. fold fh. fold ctx ino.
  destruct (Filesystem.GetAttr fs ctx ino fh (fsstate w))
    as [[attr [e|]] st].
  - rewrite sendError_run.
    rewrite (reply_opcode req _ Hk) by discriminate.
    now destruct attr.
  - destruct attr as [attr|]; [|reflexivity].
    cbv zeta. split; [reflexivity|].
    destruct (success_frame_fields req
                (attrOutBytes (proto.AttrOut.mk 1 0 0 (attrToProto attr))))
      as (Hl & _ & _ & _ & Hp).
    split.
    + rewrite Hl. unfold len. now rewrite length_attrOutBytes.
    + intros Ht. rewrite Hp.
      apply attrOut_decode. unfold AttrOut_fits.
      cbn [proto.AttrOut.AttrValid proto.AttrOut.AttrValidNsec
           proto.AttrOut.Dummy proto.AttrOut.Attr].
      split; [unfold fits; lia|]. split; [unfold fits; lia|].
      split; [unfold fits; lia|]. now apply attrToProto_fits.
Qed.

(** X18.  READ hands the filesystem the handle and the size of the body
    as they are and the offset reinterpreted as a signed 64-bit number.
    What the filesystem returns is sent whole, whatever its length: the
    handler does not cut it to the size asked for.  When the filesystem
    returns an error, the data returned with it is dropped and the error
    frame is sent. *)
Theorem read_reply (req : request.t) (w : World (St := St)) :
  proto.InHeader.Opcode (header req) = proto.OpRead ->
  proto.InHeaderSize < len (request.data req) ->
  let in_ := ReadIn_at (mem req) 40 in
  let ctx := newContext req in
  let ino := proto.InHeader.NodeID (header req) in
  let fh := proto.ReadIn.Fh in_ in
  let offset := i64 (proto.ReadIn.Offset in_) in
  let size := proto.ReadIn.Size in_ in
  - 2 ^ 63 <= offset < 2 ^ 63
  /\ 0 <= size < 2 ^ 32
  /\ match Filesystem.Read fs ctx ino fh offset size (fsstate w) with
     | (_, Some e, st) =>
       handleRequest fs req w
       = Ok tt (mkWorld (server w) st)
            [CallRead ctx ino fh offset size; DevWrite (error_bytes req e)]
     | (data, None, st) =>
       handleRequest fs req w
       = Ok tt (mkWorld (server w) st)
            [CallRead ctx ino fh offset size;
             DevWrite (response_bytes req data)]
       /\ len (response_bytes req data) = 16 + len data
       /\ frame_payload (response_bytes req data) = data
     end.
Proof.
  intros Hk Hb in_ ctx ino fh offset size.
  split.
  { unfold offset, i64.
    pose proof (Z.mod_pos_bound (proto.ReadIn.Offset in_ + 2 ^ 63) (2 ^ 64)
                  eq_refl). lia. }
  split.
  { unfold size, in_, ReadIn_at. cbn [proto.ReadIn.Size].
    apply load_range. }
  rewrite (handleRequest_dispatch fs _ _ req w Hk eq_refl eq_refl).
  unfold finish, handleRead.
  rewrite (present_body_cast _ req Hb).
  unfold bind, call, deref, ret.
  fold in_. fold fh. fold offset. fold size. fold ctx ino.
  destruct (Filesystem.Read fs ctx ino fh offset size (fsstate w))
    as [[data [e|]] st].
  - rewrite sendError_run.
    rewrite (reply_opcode req _ Hk) by discriminate. reflexivity.
  - split; [reflexivity|].
    destruct (success_frame_fields req data) as (Hl & _ & _ & _ & Hp).
    now split.
Qed.

(** X19.  An error that is (or wraps) [io.EOF] has errno 0, so reporting
    it writes, byte for byte, the success frame with an empty payload:
    for a request that gets a reply, [sendError] with [io.EOF] does what
    [sendResponse] with no payload does. *)
Theorem eof_reported_as_empty_success (req : request.t)
  (w : World (St := St)) :
  proto.InHeader.Opcode (header req) <> proto.OpForget ->
  proto.InHeader.Opcode (header req) <> proto.OpBatchForget ->
  sendError req EOF w = sendResponse req [] w
  /\ error_bytes req EOF = response_bytes req []
  /\ frame_error (error_bytes req EOF) = 0.
Proof.
  intros H1 H2.
  assert (E : error_bytes req EOF = response_bytes req []) by reflexivity.
  split; [|split; [exact E|]].
  - rewrite sendError_run, sendResponse_run, E.
    rewrite (reply_opcode req _ eq_refl H1 H2). reflexivity.
  - rewrite E. apply success_frame_fields.
Qed.

(** X20.  The dispatcher never consults [initialized] or [destroyed]: with
    these two flags set any other way, a request leads to the same
    filesystem call, the same frame, the same filesystem state and the
    same negotiated version and configuration.  Requests are served
    before INIT and after DESTROY as at any other time. *)
Theorem lifecycle_flags_ignored (req : request.t) (w : World (St := St))
  (i d : bool) :
  same_run (handleRequest fs req w)
           (handleRequest fs req
              (mkWorld (with_lifecycle i d (server w)) (fsstate w))).
Proof.
  unfold handleRequest.
  destruct (isWriteOp (proto.InHeader.Opcode (header req))) eqn:Hw.
  - rewrite !sendError_run.
    destruct ((proto.InHeader.Opcode (header req) =? proto.OpForget)
              || (proto.InHeader.Opcode (header req) =? proto.OpBatchForget));
      unfold same_run; simpl_state; repeat split; reflexivity.
  - clear Hw.
    remember (proto.InHeader.Opcode (header req)) as op eqn:Hop.
    unfold handlers, lookup.
    repeat match goal with
           | |- context [?k =? op] =>
             destruct (Z.eqb_spec k op) as [<-|?]
           end.
    all: unfold_handlers; unfold sendError, with_lifecycle;
      run_handler;
      unfold same_run; simpl_state;
      repeat split; reflexivity.
Qed.

(** X21.  READDIR hands the filesystem the handle, the signed offset and
    the size of the body, and answers with the entries serialized under
    that size as budget: when the size plus the padded size of any entry
    stays below 2^32, the payload is the records of the longest prefix
    that fits, a multiple of 8 bytes and never more than the size the
    kernel asked for.  An error goes out as its error frame and the
    entries returned with it are dropped. *)
Theorem readdir_reply (req : request.t) (w : World (St := St)) :
  proto.InHeader.Opcode (header req) = proto.OpReaddir ->
  proto.InHeaderSize < len (request.data req) ->
  let in_ := ReadIn_at (mem req) 40 in
  let ctx := newContext req in
  let ino := proto.InHeader.NodeID (header req) in
  let fh := proto.ReadIn.Fh in_ in
  let offset := i64 (proto.ReadIn.Offset in_) in
  let size := proto.ReadIn.Size in_ in
  match Filesystem.ReadDir fs ctx ino fh offset size (fsstate w) with
  | (_, Some e, st) =>
    handleRequest fs req w
    = Ok tt (mkWorld (server w) st)
         [CallReadDir ctx ino fh offset size; DevWrite (error_bytes req e)]
  | (entries, None, st) =>
    let payload := serializeDirents entries size in
    handleRequest fs req w
    = Ok tt (mkWorld (server w) st)
         [CallReadDir ctx ino fh offset size;
          DevWrite (response_bytes req payload)]
    /\ frame_payload (response_bytes req payload) = payload
    /\ ((forall e, In e entries -> size + direntPadded e < 2 ^ 32) ->
        payload = concat (map direntRecord (fitting entries size))
        /\ len payload <= size
        /\ len payload mod 8 = 0)
  end.
Proof.
  intros Hk Hb in_ ctx ino fh offset size.
  rewrite (handleRequest_dispatch fs _ _ req w Hk eq_refl eq_refl).
  unfold finish, handleReaddir.
  rewrite (present_body_cast _ req Hb).
  unfold bind, call, deref, ret.
  fold in_. fold fh. fold offset. fold size. fold ctx ino.
  destruct (Filesystem.ReadDir fs ctx ino fh offset size (fsstate w))
    as [[entries [e|]] st].
  - rewrite sendError_run.
    rewrite (reply_opcode req _ Hk) by discriminate. reflexivity.
  - cbv zeta. split; [reflexivity|].
    split; [apply success_frame_fields|].
    intros Hfit.
    assert (Hs : 0 <= size).
    { unfold size, in_, ReadIn_at. cbn [proto.ReadIn.Size].
      apply load_range. }
    assert (E : serializeDirents entries size
                = concat (map direntRecord (fitting entries size))).
    { unfold serializeDirents.
      rewrite serializeDirents_loop_spec by (cbn; tauto).
      cbn [app]. change (len []) with 0. now rewrite Z.sub_0_r. }
    split; [exact E|].
    rewrite E, length_concat_records.
    split; [now apply fitting_total | apply total_padded_aligned].
Qed.

(** X22.  INIT from a kernel speaking 7.x with x at least 26 gives the
    filesystem's [Init] a configuration holding major 7, the smaller of
    the kernel's minor and 41, the smaller of the two readahead limits,
    the mount's MaxWrite and 32 pages, after storing version and
    configuration in the server.  When [Init] fails its error is
    reported and [initialized] stays as it was, the version and the
    configuration stay stored.  When it succeeds, [initialized] is set
    and the 80-byte reply carries the negotiated minor, the readahead of
    the configuration as [Init] left it, the supported capabilities the
    kernel offered, and the mount's background and write limits. *)
Theorem init_reply (req : request.t) (w : World (St := St)) :
  proto.InHeader.Opcode (header req) = proto.OpInit ->
  proto.InHeaderSize < len (request.data req) ->
  let in_ := InitIn_at (mem req) 40 in
  proto.InitIn.Major in_ = proto.FuseKernelVersion ->
  proto.MinSupportedMinor <= proto.InitIn.Minor in_ ->
  let s := server w in
  let opts := Server.opts s in
  let minor := Z.min (proto.InitIn.Minor in_) proto.FuseKernelMinorVersion in
  let ctx := newContext req in
  let cfg :=
    Config.mk proto.FuseKernelVersion minor
              (Z.min (proto.InitIn.MaxReadahead in_)
                     (MountOptions.MaxReadahead opts))
              (MountOptions.MaxWrite opts) proto.DefaultMaxPages in
  let conn' :=
    connection.mk (connection.fd (Server.conn s))
                  (connection.mounted (Server.conn s))
                  proto.FuseKernelVersion minor in
  match Filesystem.Init fs ctx cfg (fsstate w) with
  | (cfg', Some e, st) =>
    handleRequest fs req w
    = Ok tt (mkWorld (Server.mk conn' (Some cfg') opts
                                (Server.initialized s) (Server.destroyed s))
                     st)
         [CallInit ctx cfg; DevWrite (error_bytes req e)]
  | (cfg', None, st) =>
    let out :=
      proto.InitOut.mk proto.FuseKernelVersion minor
        (Config.MaxReadahead cfg')
        (Z.land supported_flags (proto.InitIn.Flags in_))
        (MountOptions.MaxBackground opts)
        (u16 (MountOptions.MaxBackground opts * 3) / 4)
        (MountOptions.MaxWrite opts) proto.DefaultTimeGran
        proto.DefaultMaxPages 0 0 0 in
    handleRequest fs req w
    = Ok tt (mkWorld (Server.mk conn' (Some cfg') opts true
                                (Server.destroyed s))
                     st)
         [CallInit ctx cfg; DevWrite (response_bytes req (initOutBytes out))]
    /\ len (response_bytes req (initOutBytes out)) = 80
  end.
Proof.
  intros Hk Hb in_ Hmaj Hmin s opts minor ctx cfg conn'.
  assert (E : (if proto.InitIn.Minor in_ >? proto.FuseKernelMinorVersion
               then proto.FuseKernelMinorVersion else proto.InitIn.Minor in_)
              = minor).
  { unfold minor.
    destruct (Z.gtb_spec (proto.InitIn.Minor in_)
                         proto.FuseKernelMinorVersion); lia. }
  assert (Hm : (proto.InitIn.Major in_ =? proto.FuseKernelVersion) = true)
    by now apply Z.eqb_eq.
  assert (Hlow : (proto.InitIn.Minor in_ <? proto.MinSupportedMinor) = false)
    by now apply Z.ltb_ge.
  destruct (Filesystem.Init fs ctx cfg (fsstate w)) as [[cfg' [e|]] st] eqn:EI.
  all: rewrite (handleRequest_dispatch fs _ _ req w Hk eq_refl eq_refl);
    unfold finish, handleInit;
    rewrite (present_body_cast _ req Hb); fold in_;
    unfold deref at 1; unfold bind at 1 2; unfold ret at 1;
    cbv beta iota; rewrite Hm, Hlow; cbn [negb]; cbv beta iota;
    rewrite E, Hmaj;
    unfold bind, modify_server, get_server, call_Init, set_proto, set_config,
      set_initialized, sendResponse, writeResponse, deref, ret;
    simpl_state;
    fold s; fold opts; fold ctx; fold cfg; fold conn';
    rewrite EI; simpl_state.
  - rewrite sendError_run.
    rewrite (reply_opcode req _ Hk) by discriminate. reflexivity.
  - split; [reflexivity|].
    match goal with
    | |- len (response_bytes req ?p) = _ =>
      destruct (success_frame_fields req p) as (Hl & _)
    end.
    rewrite Hl. unfold len. now rewrite length_initOutBytes.
Qed.

(** X30.  STATFS asks the filesystem for the statistics of the node of
    the header.  An error goes out as its error frame; statistics go out
    as an 80-byte success frame whose 64-byte payload reads back as the
    five counters and three sizes returned, with zeros behind them; nil
    statistics with a nil error make the handler panic after the call,
    with nothing sent. *)
Theorem statfs_reply (req : request.t) (w : World (St := St)) :
  proto.InHeader.Opcode (header req) = proto.OpStatfs ->
  let ctx := newContext req in
  let ino := proto.InHeader.NodeID (header req) in
  match Filesystem.StatFS fs ctx ino (fsstate w) with
  | (_, Some e, st) =>
    handleRequest fs req w
    = Ok tt (mkWorld (server w) st)
         [CallStatFS ctx ino; DevWrite (error_bytes req e)]
  | (Some stat, None, st) =>
    let kst :=
      proto.Kstatfs.mk (StatFS.Blocks stat) (StatFS.Bfree stat)
        (StatFS.Bavail stat) (StatFS.Files stat) (StatFS.Ffree stat)
        (StatFS.Bsize stat) (StatFS.Namelen stat) (StatFS.Frsize stat) in
    let frame := response_bytes req (statfsOutBytes (proto.StatfsOut.mk kst)) in
    handleRequest fs req w
    = Ok tt (mkWorld (server w) st) [CallStatFS ctx ino; DevWrite frame]
    /\ len frame = 80
    /\ skipn 52 (frame_payload frame) = repeat x00 12
    /\ (Kstatfs_fits kst -> Kstatfs_at (frame_payload frame) 0 = kst)
  | (None, None, st) =>
    handleRequest fs req w
    = Panic (mkWorld (server w) st) [CallStatFS ctx ino]
  end.
Proof.
  intros Hk ctx ino.
  rewrite (handleRequest_dispatch fs _ _ req w Hk eq_refl eq_refl).
  unfold finish, handleStatfs, bind, call.
  fold ctx ino.
  destruct (Filesystem.StatFS fs ctx ino (fsstate w)) as [[stat [e|]] st].
  - unfold ret. rewrite sendError_run.
    rewrite (reply_opcode req _ Hk) by discriminate.
    now destruct stat.
  - destruct stat as [stat|]; [|reflexivity].
    cbv zeta. split; [reflexivity|].
    match goal with
    | |- len (response_bytes req ?p) = _ /\ _ =>
      destruct (success_frame_fields req p) as (Hl & _ & _ & _ & Hp);
      rewrite Hl, Hp; set (payload := p)
    end.
    split; [unfold len, payload; now rewrite length_statfsOutBytes|].
    split.
    + unfold payload. rewrite statfsOutBytes_layout, !app_assoc.
      rewrite skipn_app, skipn_all2
        by (rewrite !length_app, !length_le_encode; apply Nat.le_refl).
      rewrite !length_app, !length_le_encode. reflexivity.
    + intros Hf. unfold payload.
      now rewrite statfs_decode.
Qed.

End HandlerReplies.

Lemma lookup_reply_witness :
  proto.InHeader.Opcode (header Example2.req_lookup) = proto.OpLookup
  /\ handleRequest MyFS.fs Example2.req_lookup Sample.w0
     = Ok tt Sample.w0
          [ CallLookup (newContext Example2.req_lookup) 1 MyFS.hello_txt;
            DevWrite
              (response_bytes Example2.req_lookup
                 (entryOutBytes
                    (entryToProto
                       (Entry.mk 2 0 MyFS.file_attr time.Minute
                                 time.Minute)))) ].
Proof.
  assert (H : proto.InHeader.Opcode (header Example2.req_lookup)
              = proto.OpLookup)
    by (vm_compute; reflexivity).
  split; [exact H|].
  exact (proj1 (lookup_reply MyFS.fs Example2.req_lookup Sample.w0 H)).
Defined.

Lemma getattr_reply_witness :
  proto.InHeader.Opcode (header Sample.req_getattr) = proto.OpGetattr
  /\ proto.InHeaderSize < len (request.data Sample.req_getattr)
  /\ handleRequest MyFS.fs Sample.req_getattr Sample.w0
     = Ok tt Sample.w0
          [ CallGetAttr (newContext Sample.req_getattr) 1 None;
            DevWrite
              (response_bytes Sample.req_getattr
                 (attrOutBytes
                    (proto.AttrOut.mk 1 0 0 (attrToProto MyFS.root_attr)))) ].
Proof.
  assert (H1 : proto.InHeader.Opcode (header Sample.req_getattr)
               = proto.OpGetattr)
    by (vm_compute; reflexivity).
  assert (H2 : proto.InHeaderSize < len (request.data Sample.req_getattr))
    by (vm_compute; reflexivity).
  split; [exact H1|]. split; [exact H2|].
  exact (proj1 (getattr_reply MyFS.fs Sample.req_getattr Sample.w0 H1 H2)).
Defined.

Lemma read_reply_witness :
  proto.InHeader.Opcode (header Example2.req_read) = proto.OpRead
  /\ proto.InHeaderSize < len (request.data Example2.req_read)
  /\ handleRequest MyFS.fs Example2.req_read Sample.w0
     = Ok tt Sample.w0
          [ CallRead (newContext Example2.req_read) 2 0 7 5;
            DevWrite (response_bytes Example2.req_read
                                     [x57; x6f; x72; x6c; x64]) ].
Proof.
  assert (H1 : proto.InHeader.Opcode (header Example2.req_read)
               = proto.OpRead)
    by (vm_compute; reflexivity).
  assert (H2 : proto.InHeaderSize < len (request.data Example2.req_read))
    by (vm_compute; reflexivity).
  split; [exact H1|]. split; [exact H2|].
  exact (proj1 (proj2 (proj2
           (read_reply MyFS.fs Example2.req_read Sample.w0 H1 H2)))).
Defined.

Lemma eof_reported_as_empty_success_witness :
  proto.InHeader.Opcode (header Example2.req_read) <> proto.OpForget
  /\ proto.InHeader.Opcode (header Example2.req_read) <> proto.OpBatchForget
  /\ sendError Example2.req_read EOF Sample.w0
     = sendResponse Example2.req_read [] Sample.w0.
Proof.
  assert (H1 : proto.InHeader.Opcode (header Example2.req_read)
               <> proto.OpForget)
    by (vm_compute; discriminate).
  assert (H2 : proto.InHeader.Opcode (header Example2.req_read)
               <> proto.OpBatchForget)
    by (vm_compute; discriminate).
  split; [exact H1|]. split; [exact H2|].
  exact (proj1 (eof_reported_as_empty_success Example2.req_read Sample.w0
                  H1 H2)).
Defined.

Lemma readdir_reply_witness :
  proto.InHeader.Opcode (header Example2.req_readdir) = proto.OpReaddir
  /\ proto.InHeaderSize < len (request.data Example2.req_readdir)
  /\ handleRequest MyFS.fs Example2.req_readdir Sample.w0
     = Ok tt Sample.w0
          [ CallReadDir (newContext Example2.req_readdir) 1 0 0 4096;
            DevWrite
              (response_bytes Example2.req_readdir
                 (serializeDirents
                    [ DirEntry.mk 1 1 4 [x2e]; DirEntry.mk 1 2 4 [x2e; x2e];
                      DirEntry.mk 2 3 8 MyFS.hello_txt ] 4096)) ].
Proof.
  assert (H1 : proto.InHeader.Opcode (header Example2.req_readdir)
               = proto.OpReaddir)
    by (vm_compute; reflexivity).
  assert (H2 : proto.InHeaderSize < len (request.data Example2.req_readdir))
    by (vm_compute; reflexivity).
  split; [exact H1|]. split; [exact H2|].
  exact (proj1 (readdir_reply MyFS.fs Example2.req_readdir Sample.w0 H1 H2)).
Defined.

Lemma init_reply_witness :
  proto.InHeader.Opcode (header Sample.req_init) = proto.OpInit
  /\ proto.InHeaderSize < len (request.data Sample.req_init)
  /\ proto.InitIn.Major (InitIn_at (mem Sample.req_init) 40)
     = proto.FuseKernelVersion
  /\ proto.MinSupportedMinor
     <= proto.InitIn.Minor (InitIn_at (mem Sample.req_init) 40)
  /\ handleRequest MyFS.fs Sample.req_init Sample.w0
     = Ok tt
          (mkWorld
             (Server.mk (connection.mk 3 true 7 41)
                        (Some (Config.mk 7 41 65536 131072 32))
                        Sample.opts true false) tt)
          [ CallInit (newContext Sample.req_init)
                     (Config.mk 7 41 65536 131072 32);
            DevWrite
              (response_bytes Sample.req_init
                 (initOutBytes
                    (proto.InitOut.mk 7 41 65536
                       (Z.land supported_flags 4294967295)
                       12 9 131072 1 32 0 0 0))) ].
Proof.
  assert (H1 : proto.InHeader.Opcode (header Sample.req_init) = proto.OpInit)
    by (vm_compute; reflexivity).
  assert (H2 : proto.InHeaderSize < len (request.data Sample.req_init))
    by (vm_compute; reflexivity).
  assert (H3 : proto.InitIn.Major (InitIn_at (mem Sample.req_init) 40)
               = proto.FuseKernelVersion)
    by (vm_compute; reflexivity).
  assert (H4 : proto.MinSupportedMinor
               <= proto.InitIn.Minor (InitIn_at (mem Sample.req_init) 40))
    by (vm_compute; discriminate).
  split; [exact H1|]. split; [exact H2|]. split; [exact H3|].
  split; [exact H4|].
  exact (proj1 (init_reply MyFS.fs Sample.req_init Sample.w0 H1 H2 H3 H4)).
Defined.

(** ** READDIRPLUS under a size budget *)

Section Budget.

Context {A : Type}.
Variable size : A -> Z.
Variable record : A -> list byte.
Hypothesis size_nonneg : forall e, 0 <= size e.
Hypothesis size_aligned : forall e, size e mod 8 = 0.
Hypothesis record_len : forall e, len (record e) = size e.

Lemma fit_prefix (es : list A) (room : Z) :
  fit size es room = firstn (length (fit size es room)) es.
Proof.
  revert room. induction es as [|e r IH]; intros room; cbn [fit].
  - reflexivity.
  - destruct (size e <=? room); [|reflexivity].
    cbn [length firstn]. f_equal. apply IH.
Qed.

Lemma fit_total (es : list A) (room : Z) :
  0 <= room -> total_size size (fit size es room) <= room.
Proof.
  revert room. induction es as [|e r IH]; intros room Hr; cbn [fit].
  - cbn. lia.
  - destruct (Z.leb_spec (size e) room); cbn [total_size]; [|lia].
    specialize (IH (room - size e) ltac:(lia)). lia.
Qed.

Lemma total_size_nonneg (es : list A) : 0 <= total_size size es.
Proof.
  induction es as [|e r IH]; cbn [total_size]; [lia|].
  pose proof (size_nonneg e). lia.
Qed.

Lemma fit_longest (es : list A) (room : Z) (k : nat) :
  total_size size (firstn k es) <= room ->
  (k <= length es)%nat ->
  (k <= length (fit size es room))%nat.
Proof.
  revert room k. induction es as [|e r IH]; intros room k Ht Hk.
  - cbn in Hk. lia.
  - destruct k as [|k]; [lia|].
    cbn [firstn total_size] in Ht. cbn [length] in Hk. cbn [fit].
    pose proof (total_size_nonneg (firstn k r)).
    destruct (Z.leb_spec (size e) room); [|lia].
    cbn [length]. apply le_n_S. apply IH; lia.
Qed.

Lemma total_size_aligned (es : list A) : total_size size es mod 8 = 0.
Proof.
  induction es as [|e r IH]; cbn [total_size]; [reflexivity|].
  rewrite Z.add_mod, size_aligned, IH by lia. reflexivity.
Qed.

Lemma len_concat_records (es : list A) :
  len (concat (map record es)) = total_size size es.
Proof.
  induction es as [|e r IH]; [reflexivity|].
  cbn [map concat total_size]. now rewrite len_app, record_len, IH.
Qed.

End Budget.

Lemma direntPlusPadded_eq (e : DirEntryPlus.t) :
  direntPlusPadded e = 8 * ((152 + len (DirEntryPlus.Name e) + 7) / 8).
Proof. unfold direntPlusPadded. rewrite <- Z.ldiff_land. apply ldiff_7. Qed.

Lemma direntPlusPadded_bounds (e : DirEntryPlus.t) :
  152 + len (DirEntryPlus.Name e) <= direntPlusPadded e
                                  <= 152 + len (DirEntryPlus.Name e) + 7
  /\ direntPlusPadded e mod 8 = 0.
Proof.
  rewrite direntPlusPadded_eq.
  set (x := 152 + len (DirEntryPlus.Name e) + 7).
  pose proof (Z.div_mod x 8 ltac:(lia)).
  pose proof (Z.mod_pos_bound x 8 ltac:(lia)).
  split; [lia|].
  rewrite Z.mul_comm. apply Z.mod_mul. lia.
Qed.

Lemma direntPlusPadded_nonneg (e : DirEntryPlus.t) : 0 <= direntPlusPadded e.
Proof.
  pose proof (direntPlusPadded_bounds e) as [H _]. unfold len in H. lia.
Qed.

Lemma direntPlusPadded_aligned (e : DirEntryPlus.t) :
  direntPlusPadded e mod 8 = 0.
Proof. apply direntPlusPadded_bounds. Qed.

Lemma length_direntPlusRecord (e : DirEntryPlus.t) :
  len (direntPlusRecord e) = direntPlusPadded e.
Proof.
  pose proof (direntPlusPadded_bounds e) as [Hb _].
  unfold direntPlusRecord, len in *.
  rewrite !length_app, !length_le_encode, repeat_length,
    length_entryOutBytes. lia.
Qed.

Lemma serializeDirentsPlus_loop_step (e : DirEntryPlus.t)
  (rest : list DirEntryPlus.t) (maxSize : Z) (buf : list byte) :
  serializeDirentsPlus_loop (e :: rest) maxSize buf =
  if u32 (len buf + direntPlusPadded e) >? maxSize then buf
  else serializeDirentsPlus_loop rest maxSize (buf ++ direntPlusRecord e).
Proof.
  cbn [serializeDirentsPlus_loop].
  replace (Z.ldiff (proto.DirentPlusSize + len (DirEntryPlus.Name e) + 7) 7)
    with (direntPlusPadded e)
    by (unfold direntPlusPadded; now rewrite <- Z.ldiff_land).
  destruct (u32 (len buf + direntPlusPadded e) >? maxSize); [reflexivity|].
  pose proof (direntPlusPadded_bounds e) as [Hb _].
  rewrite suffix_layout
    by (unfold proto.EntryOutSize; lia).
  rewrite le_encode_u64, le_encode_u32.
  unfold direntPlusRecord. rewrite <- app_assoc.
  unfold proto.EntryOutSize.
  replace (direntPlusPadded e - 128 - 24 - len (DirEntryPlus.Name e))
    with (direntPlusPadded e - 152 - len (DirEntryPlus.Name e)) by lia.
  reflexivity.
Qed.

Lemma serializeDirentsPlus_loop_spec (es : list DirEntryPlus.t) (B : Z)
  (buf : list byte) :
  len buf <= B ->
  (forall e, In e es -> B + direntPlusPadded e < 2 ^ 32) ->
  serializeDirentsPlus_loop es B buf
  = buf ++ concat (map direntPlusRecord
                       (fit direntPlusPadded es (B - len buf))).
Proof.
  revert buf. induction es as [|e r IH]; intros buf Hbuf Hfit.
  - cbn. now rewrite app_nil_r.
  - rewrite serializeDirentsPlus_loop_step.
    pose proof (direntPlusPadded_nonneg e) as Hb.
    assert (Hl : 0 <= len buf) by (unfold len; lia).
    pose proof (Hfit e (or_introl eq_refl)) as He.
    unfold u32. rewrite Z.mod_small by lia.
    cbn [fit].
    destruct (Z.leb_spec (direntPlusPadded e) (B - len buf)) as [Hle|Hgt].
    + replace (len buf + direntPlusPadded e >? B) with false
        by (symmetry; rewrite Z.gtb_ltb; apply Z.ltb_ge; lia).
      rewrite IH.
      * rewrite len_app, length_direntPlusRecord.
        cbn [map concat]. rewrite <- app_assoc.
        now replace (B - (len buf + direntPlusPadded e))
          with (B - len buf - direntPlusPadded e) by lia.
      * rewrite len_app, length_direntPlusRecord. lia.
      * intros e' He'. apply Hfit. now right.
    + replace (len buf + direntPlusPadded e >? B) with true
        by (symmetry; apply Z.gtb_lt; lia).
      cbn. now rewrite app_nil_r.
Qed.

(** X23.  READDIRPLUS serialization under a budget [B] such that [B] plus
    the size of any record stays below 2^32: the output is, in input
    order, the whole records of the first [k] entries, [k] being the
    greatest number of leading entries whose sizes add up to at most [B].
    A record is the 128-byte EntryOut of the entry followed by inode,
    generation, name length, type, the name and zero padding, of size
    [(152 + namelen + 7) & ~7]; the output is a multiple of 8 bytes, at
    most [B], and no record is split. *)
Theorem serializeDirentsPlus_longest_prefix (entries : list DirEntryPlus.t)
  (B : Z) :
  0 <= B ->
  (forall e, In e entries -> B + direntPlusPadded e < 2 ^ 32) ->
  exists k : nat,
    (k <= length entries)%nat
    /\ serializeDirentsPlus entries B
       = concat (map direntPlusRecord (firstn k entries))
    /\ total_size direntPlusPadded (firstn k entries) <= B
    /\ (forall k', (k' <= length entries)%nat ->
                   total_size direntPlusPadded (firstn k' entries) <= B ->
                   (k' <= k)%nat)
    /\ len (serializeDirentsPlus entries B)
       = total_size direntPlusPadded (firstn k entries)
    /\ len (serializeDirentsPlus entries B) <= B
    /\ len (serializeDirentsPlus entries B) mod 8 = 0
    /\ (forall e, len (direntPlusRecord e) = direntPlusPadded e).
Proof.
  intros HB Hfit.
  exists (length (fit direntPlusPadded entries B)).
  assert (E : serializeDirentsPlus entries B
              = concat (map direntPlusRecord
                            (fit direntPlusPadded entries B))).
  { unfold serializeDirentsPlus.
    rewrite serializeDirentsPlus_loop_spec by (cbn; assumption).
    cbn [app]. change (len []) with 0. now rewrite Z.sub_0_r. }
  rewrite <- fit_prefix.
  pose proof (fit_total direntPlusPadded entries B HB) as Ht.
  pose proof (len_concat_records direntPlusPadded direntPlusRecord
                length_direntPlusRecord
                (fit direntPlusPadded entries B)) as Hl.
  split.
  { rewrite (fit_prefix direntPlusPadded entries B) at 1.
    rewrite length_firstn. lia. }
  split; [exact E|].
  split; [exact Ht|].
  split.
  { intros k' Hk' Hk.
    now apply (fit_longest direntPlusPadded direntPlusPadded_nonneg). }
  split; [now rewrite E|].
  split; [rewrite E, Hl; exact Ht|].
  split; [|exact length_direntPlusRecord].
  rewrite E, Hl.
  apply (total_size_aligned direntPlusPadded direntPlusPadded_aligned).
Qed.

Lemma serializeDirentsPlus_longest_prefix_witness :
  0 <= 4096
  /\ (forall e, In e [Sample.plus_entry] ->
                4096 + direntPlusPadded e < 2 ^ 32)
  /\ exists k : nat,
       (k <= length [Sample.plus_entry])%nat
       /\ serializeDirentsPlus [Sample.plus_entry] 4096
          = concat (map direntPlusRecord (firstn k [Sample.plus_entry])).
Proof.
  assert (H1 : 0 <= 4096) by (vm_compute; discriminate).
  assert (H2 : forall e, In e [Sample.plus_entry] ->
                         4096 + direntPlusPadded e < 2 ^ 32).
  { intros e [<-|[]]. vm_compute. reflexivity. }
  split; [exact H1|]. split; [exact H2|].
  destruct (serializeDirentsPlus_longest_prefix [Sample.plus_entry] 4096
              H1 H2) as (k & Hk & E & _).
  exists k. split; [exact Hk | exact E].
Defined.

(** ** The buffer pool *)

Lemma take_Forall {A : Type} (P : A -> Prop) (l : list A) (i : nat)
  (x : A) (r : list A) :
  Forall P l -> take l i = Some (x, r) -> P x /\ Forall P r.
Proof.
  revert i x r. induction l as [|y l IH]; intros i x r Hl Ht.
  - discriminate Ht.
  - inversion Hl as [|? ? Hy Hl']; subst.
    destruct i as [|j]; cbn [take] in Ht.
    + injection Ht as <- <-. now split.
    + destruct (take l j) as [[z r']|] eqn:E; [|discriminate Ht].
      injection Ht as <- <-.
      destruct (IH j z r' Hl' E) as [Hz Hr]. split; [exact Hz|].
      now constructor.
Qed.

Lemma take_length {A : Type} (l : list A) (i : nat) (x : A) (r : list A) :
  take l i = Some (x, r) -> length l = S (length r).
Proof.
  revert i x r. induction l as [|y l IH]; intros i x r Ht.
  - discriminate Ht.
  - destruct i as [|j]; cbn [take] in Ht.
    + injection Ht as <- <-. reflexivity.
    + destruct (take l j) as [[z r']|] eqn:E; [|discriminate Ht].
      injection Ht as <- <-. cbn [length]. f_equal. eauto.
Qed.

Lemma len_make (n : Z) : 0 <= n -> len (make n) = n.
Proof. intros H. unfold len. rewrite length_make. lia. Qed.

Lemma newBufferPool_ok (n : Z) :
  pool_ok (newBufferPool n)
  /\ bufferPool.size (newBufferPool n) = Z.max n MinBufferSize.
Proof.
  unfold newBufferPool, pool_ok, MinBufferSize.
  destruct (Z.ltb_spec n 8192); cbn [bufferPool.size bufferPool.free];
    (split; [split; [lia | constructor] | lia]).
Qed.

Lemma get_ok (p : bufferPool.t) (pick : option nat) :
  pool_ok p ->
  len (fst (get p pick)) = bufferPool.size p
  /\ pool_ok (snd (get p pick))
  /\ bufferPool.size (snd (get p pick)) = bufferPool.size p.
Proof.
  intros [Hs Hf].
  assert (Hfresh : len (make (bufferPool.size p)) = bufferPool.size p)
    by (apply len_make; unfold MinBufferSize in Hs; lia).
  unfold get. destruct pick as [i|]; [|cbn; repeat split; assumption].
  destruct (take (bufferPool.free p) i) as [[buf rest]|] eqn:E;
    [|cbn; repeat split; assumption].
  destruct (take_Forall _ _ _ _ _ Hf E) as [Hb Hr].
  cbn [fst snd bufferPool.size]. split; [exact Hb|].
  split; [|reflexivity]. split; assumption.
Qed.

Lemma put_ok (p : bufferPool.t) (data spare : list byte) :
  pool_ok p ->
  pool_ok (put p data spare)
  /\ bufferPool.size (put p data spare) = bufferPool.size p.
Proof.
  intros [Hs Hf]. unfold put.
  destruct (Z.eqb_spec (len data + len spare) (bufferPool.size p)) as [E|E];
    [|now repeat split].
  cbn [bufferPool.size bufferPool.free]. split; [|reflexivity].
  split; [exact Hs|]. constructor; [|exact Hf].
  rewrite <- len_app in E. unfold len in *.
  rewrite firstn_all2 by lia. exact E.
Qed.

Lemma run_pool_ok (ops : list pool_op) (p : bufferPool.t) :
  pool_ok p ->
  Forall (fun b => len b = bufferPool.size p) (fst (run_pool ops p))
  /\ pool_ok (snd (run_pool ops p))
  /\ bufferPool.size (snd (run_pool ops p)) = bufferPool.size p.
Proof.
  revert p. induction ops as [|op ops IH]; intros p Hp.
  - cbn. repeat split; [constructor | apply Hp | apply Hp].
  - destruct op as [pick|data spare|i]; cbn [run_pool].
    + destruct (get_ok p pick Hp) as (Hb & Hp1 & Hs1).
      destruct (get p pick) as [buf p1]. cbn [fst snd] in *.
      destruct (IH p1 Hp1) as (Ho & Hp2 & Hs2).
      destruct (run_pool ops p1) as [out p2]. cbn [fst snd] in *.
      rewrite Hs1 in *. repeat split; try apply Hp2; try assumption.
      constructor; assumption.
    + destruct (put_ok p data spare Hp) as (Hp1 & Hs1).
      destruct (IH _ Hp1) as (Ho & Hp2 & Hs2).
      rewrite Hs1 in *. repeat split; try apply Hp2; assumption.
    + assert (Hp1 : pool_ok
                (match take (bufferPool.free p) i with
                 | Some (_, rest) => bufferPool.mk rest (bufferPool.size p)
                 | None => p
                 end)
              /\ bufferPool.size
                   (match take (bufferPool.free p) i with
                    | Some (_, rest) => bufferPool.mk rest (bufferPool.size p)
                    | None => p
                    end) = bufferPool.size p).
      { destruct (take (bufferPool.free p) i) as [[b rest]|] eqn:E;
          [|now split].
        destruct Hp as [Hs Hf].
        destruct (take_Forall _ _ _ _ _ Hf E) as [_ Hr].
        split; [split; assumption | reflexivity]. }
      destruct Hp1 as [Hp1 Hs1].
      destruct (IH _ Hp1) as (Ho & Hp2 & Hs2).
      rewrite Hs1 in *. repeat split; try apply Hp2; assumption.
Qed.

(** X24.  A pool made by [newBufferPool(n)] has buffer size [max(n, 8192)],
    and whatever happens to it afterwards -- buffers taken in any order,
    slices of any capacity put back, buffers dropped by the runtime --
    every buffer [get] hands out has exactly that length, so never fewer
    than 8192 bytes: [put] keeps a slice only when its capacity is the
    pool's size, and stores it at full length. *)
Theorem bufferPool_get_length (n : Z) (ops : list pool_op) :
  bufferPool.size (newBufferPool n) = Z.max n MinBufferSize
  /\ Forall (fun b => len b = Z.max n MinBufferSize
                      /\ MinBufferSize <= len b)
            (fst (run_pool ops (newBufferPool n)))
  /\ Forall (fun b => len b = Z.max n MinBufferSize)
            (bufferPool.free (snd (run_pool ops (newBufferPool n)))).
Proof.
  destruct (newBufferPool_ok n) as [Hp Hs].
  destruct (run_pool_ok ops _ Hp) as (Ho & [_ Hf] & Hs2).
  rewrite Hs in Ho. rewrite Hs2, Hs in Hf.
  split; [exact Hs|]. split; [|exact Hf].
  eapply Forall_impl; [|exact Ho].
  intros b Hb. split; [exact Hb|]. rewrite Hb. lia.
Qed.

(** ** Reading a request and giving its buffer back *)

Lemma len_skipn {A : Type} (n : nat) (l : list A) :
  (n <= length l)%nat -> len (skipn n l) = len l - Z.of_nat n.
Proof. intros H. unfold len. rewrite length_skipn. lia. Qed.

(** X25.  From a pool whose buffers have its size, [readRequest] either
    returns a request or an error, never both.  [syscall.Read] stores the
    bytes it reads at the start of the buffer taken from the pool.  A read
    of fewer than 40 bytes gives [io.ErrUnexpectedEOF], a failed read gives
    [ErrNotMounted] for ENODEV and the errno otherwise, and in these cases
    the buffer goes back to the pool as the read left it: starting with
    the bytes stored, followed by what it held before.  A request returned
    holds the bytes read, at least a complete 40-byte header, in a backing
    array of the pool's size (8192 bytes or more): the rest of the array
    is whatever the buffer held before. *)
Theorem readRequest_complete_header (pool : bufferPool.t)
  (pick : option nat) (rd : read_result) :
  pool_ok pool ->
  len (read_bytes rd) <= bufferPool.size pool ->
  let buf := fst (get pool pick) in
  let pool1 := snd (get pool pick) in
  let buf' := stored (read_bytes rd) buf in
  len buf' = bufferPool.size pool
  /\ firstn (length (read_bytes rd)) buf' = read_bytes rd
  /\ skipn (length (read_bytes rd)) buf' = skipn (length (read_bytes rd)) buf
  /\ match readRequest pool pick rd with
     | (inl req, pool') =>
       rd = ReadOk (request.data req)
       /\ proto.InHeaderSize <= len (request.data req)
       /\ request.spare req = skipn (length (request.data req)) buf
       /\ mem req = buf'
       /\ len (mem req) = bufferPool.size pool
       /\ MinBufferSize <= len (mem req)
       /\ pool' = pool1
     | (inr e, pool') =>
       pool' = bufferPool.mk (buf' :: bufferPool.free pool1)
                             (bufferPool.size pool)
       /\ pool_ok pool'
       /\ match rd with
          | ReadOk bytes =>
            len bytes < proto.InHeaderSize /\ e = ErrUnexpectedEOF
          | ReadErr errno _ =>
            e = if errno =? ENODEV then ErrNotMounted else ErrSyscall errno
          end
     end.
Proof.
  intros Hp Hrd buf pool1 buf'.
  destruct (get_ok pool pick Hp) as (Hb & Hp1 & Hs1).
  fold buf in Hb. fold pool1 in Hp1, Hs1.
  assert (Hb' : len buf' = bufferPool.size pool).
  { unfold buf', stored.
    rewrite len_app, len_skipn by (unfold len in *; lia).
    unfold len in *. lia. }
  assert (Hf : firstn (length (read_bytes rd)) buf' = read_bytes rd).
  { unfold buf', stored.
    rewrite firstn_app, Nat.sub_diag, firstn_all, firstn_O.
    apply app_nil_r. }
  assert (Hsk : skipn (length (read_bytes rd)) buf'
                = skipn (length (read_bytes rd)) buf).
  { unfold buf', stored.
    rewrite skipn_app, Nat.sub_diag, skipn_all. reflexivity. }
  split; [exact Hb'|]. split; [exact Hf|]. split; [exact Hsk|].
  assert (Hput : put pool1 buf' []
                 = bufferPool.mk (buf' :: bufferPool.free pool1)
                                 (bufferPool.size pool)).
  { unfold put. change (len (@nil byte)) with 0.
    rewrite Z.add_0_r, Hs1, Hb', Z.eqb_refl, app_nil_r.
    rewrite firstn_all2 by (unfold len in Hb'; lia). reflexivity. }
  assert (Hok : pool_ok (put pool1 buf' [])) by now apply put_ok.
  unfold readRequest.
  replace (get pool pick) with (buf, pool1)
    by (unfold buf, pool1; now destruct (get pool pick)).
  fold buf'.
  destruct rd as [bytes|errno bytes]; cbn [read_bytes] in *.
  - destruct (Z.ltb_spec (len bytes) proto.InHeaderSize) as [Hlt|Hge].
    + rewrite <- Hput. split; [reflexivity|]. split; [exact Hok|].
      now split.
    + replace (Z.to_nat (len bytes)) with (length bytes)
        by (unfold len; now rewrite Nat2Z.id).
      rewrite Hf, Hsk.
      cbn [request.data request.spare].
      split; [reflexivity|]. split; [exact Hge|]. split; [reflexivity|].
      assert (Hm : mem (request.mk bytes (skipn (length bytes) buf)) = buf')
        by reflexivity.
      split; [exact Hm|]. rewrite Hm.
      split; [exact Hb'|]. split; [|reflexivity].
      rewrite Hb'. apply Hp.
  - destruct (errno =? ENODEV); rewrite <- Hput;
      (split; [reflexivity|]); (split; [exact Hok | reflexivity]).
Qed.

Lemma readRequest_complete_header_witness :
  pool_ok used_pool
  /\ len (read_bytes (ReadOk (request.data Sample.req_read_short)))
     <= bufferPool.size used_pool
  /\ match readRequest used_pool (Some 0%nat)
                       (ReadOk (request.data Sample.req_read_short)) with
     | (inl req, pool') =>
       request.data req = request.data Sample.req_read_short
       /\ len (mem req) = 8192
       /\ pool' = bufferPool.mk [] 8192
     | (inr _, _) => False
     end.
Proof.
  assert (H1 : pool_ok used_pool).
  { split; [vm_compute; discriminate|].
    repeat constructor. }
  assert (H2 : len (read_bytes (ReadOk (request.data Sample.req_read_short)))
               <= bufferPool.size used_pool)
    by (vm_compute; discriminate).
  split; [exact H1|]. split; [exact H2|].
  pose proof (readRequest_complete_header used_pool (Some 0%nat)
                (ReadOk (request.data Sample.req_read_short)) H1 H2) as T.
  cbv zeta in T. destruct T as (_ & _ & _ & T).
  destruct (readRequest used_pool (Some 0%nat)
              (ReadOk (request.data Sample.req_read_short)))
    as [[req|e] pool'].
  - destruct T as (E & _ & _ & _ & Hm & _ & Hp').
    injection E as E.
    split; [now symmetry|]. split; [exact Hm | exact Hp'].
  - destruct T as (_ & _ & T). destruct T as [T _].
    vm_compute in T. discriminate T.
Defined.

(** A read of two bytes is short: the buffer that goes back to the pool
    starts with them. *)
Example readRequest_short_read :
  readRequest used_pool (Some 0%nat) (ReadOk [x01; x02])
  = (inr ErrUnexpectedEOF,
     bufferPool.mk [[x01; x02] ++ repeat xff (Z.to_nat 8190)] 8192).
Proof. vm_compute. reflexivity. Qed.

(** X26.  Releasing a request puts its whole backing array, the bytes of
    the request followed by what lay behind them, back into the pool it
    came from, so the next [get] may hand out a buffer that still holds
    them; the pool keeps its invariant, and releasing a second time does
    nothing. *)
Theorem release_returns_buffer (pool : bufferPool.t) (req : request.t) :
  pool_ok pool ->
  len (mem req) = bufferPool.size pool ->
  release pool (Some req)
  = (bufferPool.mk (mem req :: bufferPool.free pool) (bufferPool.size pool),
     None)
  /\ pool_ok (fst (release pool (Some req)))
  /\ fst (get (fst (release pool (Some req))) (Some 0%nat)) = mem req
  /\ release (fst (release pool (Some req))) (snd (release pool (Some req)))
     = release pool (Some req).
Proof.
  intros Hp Hm.
  assert (E : release pool (Some req)
              = (bufferPool.mk (mem req :: bufferPool.free pool)
                               (bufferPool.size pool), None)).
  { unfold release, put. change (len (@nil byte)) with 0.
    rewrite Z.add_0_r, Hm, Z.eqb_refl, app_nil_r.
    rewrite firstn_all2 by (unfold len in Hm; lia). reflexivity. }
  split; [exact E|]. rewrite E. cbn [fst snd].
  split; [|split; reflexivity].
  split; [apply Hp|]. constructor; [exact Hm | apply Hp].
Qed.

Lemma release_returns_buffer_witness :
  pool_ok (bufferPool.mk [] 8192)
  /\ len (mem (request.mk (request.data Sample.req_read_short)
                          (repeat xff (Z.to_nat 8144))))
     = bufferPool.size (bufferPool.mk [] 8192)
  /\ release (bufferPool.mk [] 8192)
             (Some (request.mk (request.data Sample.req_read_short)
                               (repeat xff (Z.to_nat 8144))))
     = (bufferPool.mk
          [mem (request.mk (request.data Sample.req_read_short)
                           (repeat xff (Z.to_nat 8144)))] 8192, None).
Proof.
  assert (H1 : pool_ok (bufferPool.mk [] 8192)).
  { split; [vm_compute; discriminate | constructor]. }
  assert (H2 : len (mem (request.mk (request.data Sample.req_read_short)
                                    (repeat xff (Z.to_nat 8144))))
               = bufferPool.size (bufferPool.mk [] 8192))
    by (vm_compute; reflexivity).
  split; [exact H1|]. split; [exact H2|].
  exact (proj1 (release_returns_buffer _ _ H1 H2)).
Defined.

(** ** Unmounting *)

(** X27.  [Unmount] cancels the context, unmounts, and closes the device
    descriptor when it is still open, leaving it at -1: the descriptor is
    closed at most once however often [Unmount] is called.  What it
    returns is the error of the unmount alone; an error of the close is
    dropped.  The [mounted] flag of the connection is left as it was. *)
Theorem Unmount_closes_once (s : Server.t)
  (unmount_err close_err unmount_err2 close_err2 : option Z) :
  let r := Unmount s unmount_err close_err in
  let s1 := snd (fst r) in
  let r2 := Unmount s1 unmount_err2 close_err2 in
  snd r = unmount_err
  /\ closed (fst (fst r))
     = (if connection.fd (Server.conn s) >=? 0
        then [connection.fd (Server.conn s)] else [])
  /\ connection.fd (Server.conn s1) < 0
  /\ connection.fd (Server.conn s1)
     = (if connection.fd (Server.conn s) >=? 0
        then -1 else connection.fd (Server.conn s))
  /\ connection.mounted (Server.conn s1)
     = connection.mounted (Server.conn s)
  /\ fst (fst r2) = [CtxCancel; SysUnmount]
  /\ snd (fst r2) = s1
  /\ snd r2 = unmount_err2.
Proof.
  unfold Unmount, close.
  destruct (Z.geb_spec (connection.fd (Server.conn s)) 0) as [H|H];
    cbn [fst snd app closed flat_map Server.conn connection.fd
         connection.mounted].
  - change (-1 >=? 0) with false.
    cbn [fst snd app Server.conn Server.config Server.opts
         Server.initialized Server.destroyed connection.fd
         connection.mounted connection.protoMajor connection.protoMinor].
    repeat split.
  - destruct (Z.geb_spec (connection.fd (Server.conn s)) 0) as [H'|H'];
      [lia|].
    cbn [fst snd app]. destruct s as [[fd m pM pm] cfg o i d].
    cbn [Server.conn connection.fd] in *. repeat split. exact H.
Qed.

(** ** Mounting *)

(** X28.  [Mount] replaces every zero limit of the options by its default
    (128 KiB readahead, 128 KiB writes, 12 background requests) and keeps
    the others, so the server never runs with a zero limit.  After a
    successful mount the server holds the descriptor in a connection
    marked mounted with no version negotiated, no configuration, and is
    neither initialized nor destroyed; its buffers are [MaxWrite + 4136]
    bytes long, 8192 at least, so longer than a header and [MaxWrite]
    bytes.  A failed mount returns the error and no server. *)
Theorem Mount_defaults (opts : option MountOptions.t) (fd : Z) (err : error) :
  let given := match opts with
               | None => zero_options
               | Some o => o
               end in
  0 <= MountOptions.MaxWrite given ->
  let opts' := fst (Mount opts (inl fd)) in
  MountOptions.MaxReadahead opts' <> 0
  /\ MountOptions.MaxWrite opts' <> 0
  /\ MountOptions.MaxBackground opts' <> 0
  /\ (MountOptions.MaxReadahead given <> 0 ->
      MountOptions.MaxReadahead opts' = MountOptions.MaxReadahead given)
  /\ (MountOptions.MaxWrite given <> 0 ->
      MountOptions.MaxWrite opts' = MountOptions.MaxWrite given)
  /\ (MountOptions.MaxBackground given <> 0 ->
      MountOptions.MaxBackground opts' = MountOptions.MaxBackground given)
  /\ (exists pool : bufferPool.t,
        snd (Mount opts (inl fd))
        = inl (Server.mk (connection.mk fd true 0 0) None opts' false false,
               pool)
        /\ pool_ok pool
        /\ bufferPool.size pool
           = Z.max (MountOptions.MaxWrite opts' + 4136) MinBufferSize
        /\ proto.InHeaderSize + MountOptions.MaxWrite opts'
           < bufferPool.size pool)
  /\ Mount opts (inr err) = (opts', inr err).
Proof.
  intros given Hw opts'.
  assert (E : opts' = set_defaults given) by reflexivity.
  unfold Mount. fold given. rewrite E.
  unfold set_defaults.
  cbn [MountOptions.MaxReadahead MountOptions.MaxWrite
       MountOptions.MaxBackground fst snd].
  destruct (Z.eqb_spec (MountOptions.MaxReadahead given) 0) as [Ha|Ha];
    destruct (Z.eqb_spec (MountOptions.MaxWrite given) 0) as [Hb|Hb];
    destruct (Z.eqb_spec (MountOptions.MaxBackground given) 0) as [Hc|Hc];
    (split; [try exact Ha; discriminate|]);
    (split; [try exact Hb; discriminate|]);
    (split; [try exact Hc; discriminate|]);
    (split; [intros; first [reflexivity | contradiction]|]);
    (split; [intros; first [reflexivity | contradiction]|]);
    (split; [intros; first [reflexivity | contradiction]|]);
    (split; [|reflexivity]);
    eexists; (split; [reflexivity|]);
    match goal with
    | |- pool_ok (newBufferPool ?n) /\ _ =>
      destruct (newBufferPool_ok n) as [Hp Hs];
      split; [exact Hp|]; rewrite Hs;
      unfold proto.InHeaderSize, proto.DefaultMaxWrite, MinBufferSize;
      split; [f_equal; lia | lia]
    end.
Qed.

Lemma Mount_defaults_witness :
  0 <= MountOptions.MaxWrite zero_options
  /\ fst (Mount None (inl 3)) = Sample.opts
  /\ exists pool : bufferPool.t,
       snd (Mount None (inl 3)) = inl (Sample.srv, pool)
       /\ bufferPool.size pool = 135208.
Proof.
  assert (H : 0 <= MountOptions.MaxWrite zero_options)
    by (vm_compute; discriminate).
  split; [exact H|]. split; [reflexivity|].
  destruct (Mount_defaults None 3 ErrOther H)
    as (_ & _ & _ & _ & _ & _ & (pool & E & _ & Hs & _) & _).
  exists pool. split; [exact E | exact Hs].
Defined.

(** ** Cloned descriptors *)

Lemma opened_app (a b : list sys_event) :
  opened (a ++ b) = opened a ++ opened b.
Proof. apply flat_map_app. Qed.

Lemma closed_app (a b : list sys_event) :
  closed (a ++ b) = closed a ++ closed b.
Proof. apply flat_map_app. Qed.

Lemma closed_map_close (fds : list Z) : closed (map SysClose fds) = fds.
Proof. induction fds as [|fd r IH]; [reflexivity|]. cbn. now f_equal. Qed.

Lemma opened_map_close (fds : list Z) : opened (map SysClose fds) = [].
Proof. induction fds as [|fd r IH]; [reflexivity|]. exact IH. Qed.

Lemma CloneMultiple_loop_spec (masterFd : Z) (outcome : nat -> clone_outcome)
  (remaining i : nat) (fds : list Z) :
  match CloneMultiple_loop masterFd outcome remaining i fds with
  | (ev, Some out) =>
    out = fds ++ opened ev
    /\ length (opened ev) = remaining
    /\ closed ev = []
    /\ (forall j, (j < remaining)%nat ->
                  outcome (i + j)%nat = Cloned (nth j (opened ev) 0))
  | (ev, None) =>
    (forall fd, count_occ Z.eq_dec (opened ev ++ fds) fd
                = count_occ Z.eq_dec (closed ev) fd)
    /\ exists j, (j < remaining)%nat
                 /\ forall fd, outcome (i + j)%nat <> Cloned fd
  end.
Proof.
  revert i fds. induction remaining as [|n IH]; intros i fds.
  - cbn. rewrite app_nil_r. repeat split. intros j Hj. lia.
  - cbn [CloneMultiple_loop].
    destruct (outcome i) as [|fd|fd] eqn:Eo; cbn [CloneFuseFD].
    + split.
      * intros fd. cbn [app]. now rewrite opened_map_close, closed_map_close.
      * exists 0%nat. rewrite Nat.add_0_r, Eo. split; [lia | discriminate].
    + split.
      * intros x. rewrite opened_app, closed_app, opened_map_close,
          closed_map_close. reflexivity.
      * exists 0%nat. rewrite Nat.add_0_r, Eo. split; [lia | discriminate].
    + specialize (IH (S i) (fds ++ [fd])).
      destruct (CloneMultiple_loop masterFd outcome n (S i) (fds ++ [fd]))
        as [ev' [out|]].
      * destruct IH as (Ho & Hl & Hc & Hn).
        rewrite opened_app, closed_app. cbn [opened closed flat_map app].
        split; [now rewrite Ho, <- app_assoc|].
        split; [cbn [length]; now rewrite Hl|].
        split; [exact Hc|].
        intros [|j] Hj.
        -- now rewrite Nat.add_0_r.
        -- cbn [nth]. rewrite <- Nat.add_succ_comm. apply Hn. lia.
      * destruct IH as (Hc & j & Hj & Hf).
        split.
        -- intros x. specialize (Hc x).
           rewrite opened_app, closed_app. cbn [opened closed flat_map app].
           rewrite !count_occ_app in *. cbn [count_occ] in *.
           rewrite ?count_occ_app.
           destruct (Z.eq_dec fd x); lia.
        -- exists (S j). split; [lia|].
           rewrite <- Nat.add_succ_comm. exact Hf.
Qed.

Lemma CloseAll_closes (fds : list Z) :
  Forall (fun fd => 0 <= fd) fds ->
  CloseAll fds = map SysClose fds /\ closed (CloseAll fds) = fds.
Proof.
  intros H.
  assert (E : CloseAll fds = map SysClose fds).
  { induction H as [|fd r Hfd Hr IH]; [reflexivity|].
    unfold CloseAll in *. cbn [flat_map map].
    destruct (Z.geb_spec fd 0); [|lia].
    cbn [app]. now f_equal. }
  split; [exact E|]. rewrite E. apply closed_map_close.
Qed.

(** X29.  [CloneMultiple] leaks no descriptor.  When every clone succeeds
    it returns [count] descriptors, exactly those it opened, in order,
    and has closed none.  When a clone fails it returns no descriptor,
    and every descriptor opened during the call, the one whose ioctl
    failed included, has been closed, each once.  A negative [count]
    makes it panic before anything is opened.  [CloseAll] closes each of
    the descriptors returned, once. *)
Theorem CloneMultiple_no_leak (masterFd count : Z)
  (outcome : nat -> clone_outcome) :
  match CloneMultiple masterFd count outcome with
  | None => count < 0
  | Some (ev, Some fds) =>
    0 <= count
    /\ len fds = count
    /\ opened ev = fds
    /\ closed ev = []
    /\ (forall j, (j < length fds)%nat -> outcome j = Cloned (nth j fds 0))
    /\ (Forall (fun fd => 0 <= fd) fds -> closed (CloseAll fds) = opened ev)
  | Some (ev, None) =>
    0 < count
    /\ (forall fd, count_occ Z.eq_dec (opened ev) fd
                   = count_occ Z.eq_dec (closed ev) fd)
    /\ (exists j, Z.of_nat j < count /\ forall fd, outcome j <> Cloned fd)
  end.
Proof.
  unfold CloneMultiple.
  destruct (Z.ltb_spec count 0) as [H|H]; [exact H|].
  pose proof (CloneMultiple_loop_spec masterFd outcome (Z.to_nat count) 0 [])
    as L.
  destruct (CloneMultiple_loop masterFd outcome (Z.to_nat count) 0 [])
    as [ev [fds|]].
  - destruct L as (Ho & Hl & Hc & Hn). cbn [app] in Ho.
    split; [exact H|]. rewrite Ho.
    split; [unfold len; lia|]. split; [reflexivity|]. split; [exact Hc|].
    split; [intros j Hj; apply (Hn j); lia|].
    intros Hfd. now apply CloseAll_closes.
  - destruct L as (Hc & j & Hj & Hf).
    split; [lia|]. split.
    + intros fd. rewrite <- Hc. now rewrite app_nil_r.
    + exists j. split; [lia | exact Hf].
Qed.

Lemma statfs_reply_witness :
  proto.InHeader.Opcode (header req_statfs) = proto.OpStatfs
  /\ handleRequest MyFS.fs req_statfs Sample.w0
     = Ok tt Sample.w0
          [ CallStatFS (newContext req_statfs) 1;
            DevWrite
              (response_bytes req_statfs
                 (statfsOutBytes
                    (proto.StatfsOut.mk
                       (proto.Kstatfs.mk 0 0 0 0 0 4096 255 4096)))) ].
Proof.
  assert (H : proto.InHeader.Opcode (header req_statfs) = proto.OpStatfs)
    by (vm_compute; reflexivity).
  split; [exact H|].
  exact (proj1 (statfs_reply MyFS.fs req_statfs Sample.w0 H)).
Defined.
